(** * SkillSense: skill-signal extraction, scoring and set-comparison matchers

    A shallow embedding of [src/skill_profiles.py] and
    [src/opportunity_matching.py] together with the properties of the
    profile builder and of the matchers.

    Modelling conventions.

    - Text is a [string]: a sequence of code points below 256, one [ascii]
      per code point (the first 256 code points of Unicode).  The character
      classes of Python ([str.isspace] and [str.strip], the line boundaries
      of [str.splitlines], the [\w] and [\b] of [re] on [str] patterns,
      [str.lower] and case-insensitive matching, the cased characters of
      [str.title]) are written out for the whole of that range.  Text with a
      code point from 256 on is outside the model.  Three characters of the
      range have a title-case form outside it (181, 223 and 255); [title]
      leaves them as they are.
    - A Python [dict] is an association list in insertion order ([Dict]).
      A Python [set] is a duplicate-free list; every place where the source
      reads a set, it sorts the elements or takes the size, so the iteration
      order does not show.
    - Operations that can raise ([/], [seq[0]], tuple unpacking) return in
      the [pyresult] monad.
    - A value produced by [round(x, 2)] is the binary64 number closest to
      [n/100] for an integer [n]; it is represented by [n] (type [cents]).
      The quotient of two lengths is the correctly rounded binary64 quotient
      ([fdiv]), kept as its exact rational value. *)

From Stdlib Require Import List ZArith QArith Qround Lia Bool Ascii String.
From Stdlib Require Import DecimalString Permutation Sorted Reals Lra.
Import ListNotations.

Open Scope string_scope.
Open Scope nat_scope.
Open Scope list_scope.

(** ** Exceptions *)

Inductive exn : Set := ZeroDivisionError | IndexError | ValueError.

Inductive pyresult (A : Type) : Type :=
| Return (a : A)
| Raise (e : exn).

Arguments Return {A} a.
Arguments Raise {A} e.

Definition bind {A B : Type} (m : pyresult A) (k : A -> pyresult B) : pyresult B :=
  match m with
  | Return a => k a
  | Raise e => Raise e
  end.

Notation "x <- m ;; k" := (bind m (fun x => k))
  (at level 61, m at next level, right associativity).

(** Loop body run over a sequence, stopping at the first exception. *)
Fixpoint mapM {A B : Type} (f : A -> pyresult B) (l : list A) : pyresult (list B) :=
  match l with
  | [] => Return []
  | a :: l' => b <- f a ;; bs <- mapM f l' ;; Return (b :: bs)
  end.

(** ** Characters and the string methods the source calls *)

Module Str.

Definition code (c : ascii) : nat := nat_of_ascii c.

Definition in_range (lo hi : nat) (c : ascii) : bool :=
  (lo <=? code c) && (code c <=? hi).

(** The characters that [str.lower] changes: A..Z and the capital letters
    192..222 (the sign 215 aside); each goes 32 code points up. *)
Definition is_upper (c : ascii) : bool :=
  in_range 65 90 c || in_range 192 214 c || in_range 216 222 c.

(** The characters whose capital is in the range: a..z and the small
    letters 224..254 (the sign 247 aside); each goes 32 code points down. *)
Definition is_lower (c : ascii) : bool :=
  in_range 97 122 c || in_range 224 246 c || in_range 248 254 c.

(** [str.isalpha]: the letters above, the ordinal indicators 170 and 186,
    the micro sign 181, the sharp s 223 and the y with diaeresis 255. *)
Definition is_alpha (c : ascii) : bool :=
  is_upper c || is_lower c
  || (code c =? 170) || (code c =? 181) || (code c =? 186)
  || (code c =? 223) || (code c =? 255).

(** [str.isnumeric]: 0..9, the superscripts 178, 179 and 185, and the
    fractions 188..190. *)
Definition is_numeric (c : ascii) : bool :=
  in_range 48 57 c || in_range 178 179 c || (code c =? 185) || in_range 188 190 c.

(** [\w] of the [re] module on a [str] pattern: alphanumeric or underscore. *)
Definition is_word (c : ascii) : bool :=
  is_alpha c || is_numeric c || (code c =? 95).

(** [str.isspace], the characters [str.strip] and [str.split] remove: tab,
    line feed, vertical tab, form feed, carriage return, the four separators
    28..31, the blank, next line (133) and the no-break space (160). *)
Definition is_space (c : ascii) : bool :=
  in_range 9 13 c || in_range 28 32 c || (code c =? 133) || (code c =? 160).

(** [str.lower] on one character; [re.IGNORECASE] matches two characters of
    the range exactly when their lower-case forms are equal. *)
Definition lower_char (c : ascii) : ascii :=
  if is_upper c then ascii_of_nat (code c + 32) else c.

Definition upper_char (c : ascii) : ascii :=
  if is_lower c then ascii_of_nat (code c - 32) else c.

Fixpoint map_chars (f : ascii -> ascii) (s : string) : string :=
  match s with
  | EmptyString => EmptyString
  | String c s' => String (f c) (map_chars f s')
  end.

(** [s.lower()] *)
Definition lower (s : string) : string := map_chars lower_char s.

Definition is_empty (s : string) : bool :=
  match s with EmptyString => true | _ => false end.

Fixpoint lstrip (s : string) : string :=
  match s with
  | EmptyString => EmptyString
  | String c s' => if is_space c then lstrip s' else s
  end.

Fixpoint rstrip (s : string) : string :=
  match s with
  | EmptyString => EmptyString
  | String c s' =>
      let r := rstrip s' in
      if is_space c && is_empty r then EmptyString else String c r
  end.

(** [s.strip()] *)
Definition strip (s : string) : string := rstrip (lstrip s).

(** [s.replace(a, b)] for one-character [a] and [b]. *)
Definition replace_char (a b : ascii) (s : string) : string :=
  map_chars (fun c => if Ascii.eqb c a then b else c) s.

(** [s[left:right]] for [0 <= left] and [0 <= right]. *)
Definition slice (s : string) (left right : nat) : string :=
  substring left (right - left) s.

(** [sep in s] for a one-character [sep]. *)
Fixpoint contains (sep : ascii) (s : string) : bool :=
  match s with
  | EmptyString => false
  | String c s' => Ascii.eqb c sep || contains sep s'
  end.

(** [s.split(sep)] for a one-character [sep]. *)
Fixpoint split (sep : ascii) (s : string) : list string :=
  match s with
  | EmptyString => [EmptyString]
  | String c s' =>
      if Ascii.eqb c sep then EmptyString :: split sep s'
      else match split sep s' with
           | h :: t => String c h :: t
           | [] => [String c EmptyString]
           end
  end.

(** [s.split(sep, 1)] for a one-character [sep]. *)
Fixpoint split1 (sep : ascii) (s : string) : list string :=
  match s with
  | EmptyString => [EmptyString]
  | String c s' =>
      if Ascii.eqb c sep then [EmptyString; s']
      else match split1 sep s' with
           | h :: t => String c h :: t
           | [] => [String c EmptyString]
           end
  end.

(** Line boundaries of [str.splitlines]: line feed, vertical tab, form
    feed, carriage return, the separators 28..30 and next line (133). *)
Definition is_linebreak (c : ascii) : bool :=
  in_range 10 13 c || in_range 28 30 c || (code c =? 133).

Fixpoint splitlines_from (cur : list ascii) (s : string) : list string :=
  match s with
  | EmptyString =>
      match cur with
      | [] => []
      | _ => [string_of_list_ascii (rev cur)]
      end
  | String c s' =>
      if (code c =? 13) then
        match s' with
        | String c' s'' =>
            if (code c' =? 10)
            then string_of_list_ascii (rev cur) :: splitlines_from [] s''
            else string_of_list_ascii (rev cur) :: splitlines_from [] s'
        | EmptyString => [string_of_list_ascii (rev cur)]
        end
      else if is_linebreak c then
        string_of_list_ascii (rev cur) :: splitlines_from [] s'
      else splitlines_from (c :: cur) s'
  end.

(** [s.splitlines()] *)
Definition splitlines (s : string) : list string := splitlines_from [] s.

(** [s.title()]: a cased character is upper-cased when the character before
    it is not cased, and lower-cased otherwise.  The cased characters are
    the alphabetic ones. *)
Fixpoint title_from (prev_cased : bool) (s : string) : string :=
  match s with
  | EmptyString => EmptyString
  | String c s' =>
      let cased := is_alpha c in
      String (if cased then (if prev_cased then lower_char c else upper_char c) else c)
             (title_from cased s')
  end.

Definition title (s : string) : string := title_from false s.

(** [s[:n]] *)
Definition prefix (n : nat) (s : string) : string := substring 0 n s.

End Str.


(** ** The fragment of [re] used by the extractor *)

Module Re.

(** Patterns are compiled with [re.IGNORECASE]; [Chr] compares characters up
    to case. *)
Inductive regex : Set :=
| Eps
| Chr (c : ascii)
| Bnd                      (* \b *)
| Dots                     (* .* *)
| Cat (r1 r2 : regex)
| Opt (r : regex).         (* r? and (r)? *)

(** [re.escape(s)] read as a pattern: every character stands for itself. *)
Fixpoint lit (s : string) : regex :=
  match s with
  | EmptyString => Eps
  | String c s' => Cat (Chr c) (lit s')
  end.

Definition seq (rs : list regex) : regex := fold_right Cat Eps rs.

Definition word_opt (c : option ascii) : bool :=
  match c with Some c => Str.is_word c | None => false end.

Definition next_char (s : string) : option ascii :=
  match s with String c _ => Some c | EmptyString => None end.

(** [\b] holds between a word character and a non-word character; the two
    ends of the text count as non-word. *)
Definition at_boundary (prev : option ascii) (s : string) : bool :=
  xorb (word_opt prev) (word_opt (next_char s)).

(** A continuation receives the character before the cursor, the rest of
    the text and the cursor position, and answers with the end of the match. *)
Definition cont : Set := option ascii -> string -> nat -> option nat.

(** Greedy [.*]: the longest run without a line feed first, then shorter. *)
Fixpoint dots (k : cont) (prev : option ascii) (s : string) (pos : nat) : option nat :=
  match s with
  | String c s' =>
      if Str.code c =? 10 then k prev s pos
      else match dots k (Some c) s' (S pos) with
           | Some e => Some e
           | None => k prev s pos
           end
  | EmptyString => k prev s pos
  end.

Fixpoint run (r : regex) (k : cont) (prev : option ascii) (s : string) (pos : nat)
  : option nat :=
  match r with
  | Eps => k prev s pos
  | Chr c =>
      match s with
      | String d s' =>
          if Ascii.eqb (Str.lower_char d) (Str.lower_char c)
          then k (Some d) s' (S pos) else None
      | EmptyString => None
      end
  | Bnd => if at_boundary prev s then k prev s pos else None
  | Dots => dots k prev s pos
  | Cat r1 r2 => run r1 (run r2 k) prev s pos
  | Opt r' =>
      match run r' k prev s pos with
      | Some e => Some e
      | None => k prev s pos
      end
  end.

(** End of the match that starts at the cursor, if there is one. *)
Definition match_at (r : regex) (prev : option ascii) (s : string) (pos : nat)
  : option nat :=
  run r (fun _ _ p => Some p) prev s pos.

(** Scan of [finditer]: [skip] counts the characters still inside the last
    match; the next search starts where that match ended. *)
Fixpoint finditer_from (r : regex) (prev : option ascii) (s : string) (pos skip : nat)
  : list (nat * nat) :=
  match s with
  | EmptyString =>
      match skip with
      | 0 => match match_at r prev EmptyString pos with
             | Some e => [(pos, e)]
             | None => []
             end
      | S _ => []
      end
  | String c s' =>
      match skip with
      | S n => finditer_from r (Some c) s' (S pos) n
      | 0 =>
          match match_at r prev s pos with
          | Some e => (pos, e) :: finditer_from r (Some c) s' (S pos) (e - pos - 1)
          | None => finditer_from r (Some c) s' (S pos) 0
          end
      end
  end.

(** [(m.start(), m.end()) for m in pattern.finditer(text)] *)
Definition finditer (r : regex) (text : string) : list (nat * nat) :=
  finditer_from r None text 0 0.

End Re.

(** ** Dictionaries in insertion order *)

Module Dict.
Section WithValue.
Context {V : Type}.

Definition t : Type := list (string * V).

Fixpoint get (d : t) (k : string) : option V :=
  match d with
  | [] => None
  | (k', v) :: d' => if String.eqb k' k then Some v else get d' k
  end.

(** [d[k] = v]: an existing key keeps its place. *)
Fixpoint set (d : t) (k : string) (v : V) : t :=
  match d with
  | [] => [(k, v)]
  | (k', v') :: d' =>
      if String.eqb k' k then (k', v) :: d' else (k', v') :: set d' k v
  end.

Definition mem (d : t) (k : string) : bool :=
  match get d k with Some _ => true | None => false end.

Definition keys (d : t) : list string := map fst d.
Definition values (d : t) : list V := map snd d.

(** [{k: v for (k, v) in items}] *)
Definition of_items (items : list (string * V)) : t :=
  fold_left (fun d kv => set d (fst kv) (snd kv)) items [].
End WithValue.
Arguments t V : clear implicits.
End Dict.

(** ** Numbers *)

Definition cents : Set := Z.

Module Float.

(** A finite binary64 value [mant * 2^expo]. *)
Record float64 : Set := mk { mant : Z; expo : Z }.

Definition zero : float64 := mk 0 0.

Definition to_Q (x : float64) : Q :=
  if (0 <=? expo x)%Z then inject_Z (mant x * 2 ^ expo x)
  else (mant x # Z.to_pos (2 ^ (- expo x))).

(** Nearest integer to [num/den], ties to even, for [0 < den]. *)
Definition round_half_even (num den : Z) : Z :=
  let q := (num / den)%Z in
  let r := (num mod den)%Z in
  if (2 * r <? den)%Z then q
  else if (den <? 2 * r)%Z then (q + 1)%Z
  else if Z.even q then q else (q + 1)%Z.

(** Correctly rounded quotient of two positive integers: the exponent is
    chosen so that the significand has 53 bits (such quotients are far from
    the subnormal and overflow ranges). *)
Definition scaled_num (n e : Z) : Z := (n * 2 ^ Z.max 0 (- e))%Z.
Definition scaled_den (d e : Z) : Z := (d * 2 ^ Z.max 0 e)%Z.

Definition div_pos (n d : Z) : float64 :=
  let e0 := (Z.log2 n - Z.log2 d - 53)%Z in
  let e := if (2 ^ 53 <=? scaled_num n e0 / scaled_den d e0)%Z
           then (e0 + 1)%Z else e0 in
  mk (round_half_even (scaled_num n e) (scaled_den d e)) e.

(** [a / b] on two lengths. *)
Definition fdiv (a b : nat) : pyresult float64 :=
  match b with
  | 0 => Raise ZeroDivisionError
  | S _ =>
      match a with
      | 0 => Return zero
      | S _ => Return (div_pos (Z.of_nat a) (Z.of_nat b))
      end
  end.

(** [round(x, 2)]: the exact value of [x] times 100, rounded to the nearest
    integer with ties to even. *)
Definition round2 (x : float64) : cents :=
  if (0 <=? expo x)%Z then (100 * mant x * 2 ^ expo x)%Z
  else round_half_even (100 * mant x) (2 ^ (- expo x)).

End Float.

(** ** Sorting and sets *)

(** [sorted] is a stable sort, so its result is the one of any stable
    sort; insertion from the right keeps equal elements in their order. *)
Fixpoint insert_by {A : Type} (le : A -> A -> bool) (x : A) (l : list A) : list A :=
  match l with
  | [] => [x]
  | y :: l' => if le x y then x :: l else y :: insert_by le x l'
  end.

Definition sorted_by {A : Type} (le : A -> A -> bool) (l : list A) : list A :=
  fold_right (insert_by le) [] l.

(** [sorted(l)] on strings: ascending code-point order. *)
Definition sorted_str (l : list string) : list string := sorted_by String.leb l.

Definition set_mem (x : string) (s : list string) : bool := existsb (String.eqb x) s.

(** [s.add(x)] *)
Definition set_add (x : string) (s : list string) : list string :=
  if set_mem x s then s else s ++ [x].

(** [set(l)] and set comprehensions. *)
Definition set_of_list (l : list string) : list string :=
  fold_left (fun s x => set_add x s) l [].

(** [a & b] *)
Definition set_inter (a b : list string) : list string :=
  filter (fun x => set_mem x b) a.

(** [a - b] *)
Definition set_diff (a b : list string) : list string :=
  filter (fun x => negb (set_mem x b)) a.

(** [Counter(items)] *)
Definition Counter (items : list string) : Dict.t nat :=
  fold_left
    (fun d k => Dict.set d k (S (match Dict.get d k with Some n => n | None => 0 end)))
    items [].

(** ** Data model *)

Module SourceDocument.
(** The [metadata] field is not read by the profile builder and is left out. *)
Record t := mk
  { name : string; kind : string; text : string; visibility : string; origin : string }.
End SourceDocument.

Module SkillEvidence.
Record t := mk { source : string; snippet : string }.
End SkillEvidence.

Inductive signal_kind : Set := explicit | implicit.

Definition signal_kind_eqb (a b : signal_kind) : bool :=
  match a, b with
  | explicit, explicit | implicit, implicit => true
  | _, _ => false
  end.

Module SkillSignal.
Record t := mk
  { name : string;
    category : string;
    signal_type : signal_kind;
    confidence : cents;
    sources : list string;
    evidence : list SkillEvidence.t }.
End SkillSignal.

(** The dictionaries kept in the registry, one per normalized skill. *)
Module Entry.
Record t := mk
  { name : string;
    category : string;
    type : signal_kind;
    sources : list string;
    snippets : list SkillEvidence.t;
    mentions : nat }.
End Entry.

Module Alignment.
Record t := mk
  { covered : list string; coverage : cents; target_total : nat }.
End Alignment.

Module ProfileStats.
(** [avg_confidence] is a rounded binary64 mean of the confidences; no
    property below reads it and it is left out, as is the summary sentence
    that prints it. *)
Record t := mk
  { source_count : nat;
    explicit_count : nat;
    implicit_count : nat;
    category_distribution : Dict.t nat;
    framework_alignment : Dict.t Alignment.t;
    sources_visibility : Dict.t nat;
    top_sources : list string }.
End ProfileStats.

(** The profile dictionary; a key may be missing, which [.get(key, default)]
    tolerates. *)
Module Profile.
Record t := mk
  { signals : option (list SkillSignal.t); stats : option ProfileStats.t }.
End Profile.

Module JobMatchResult.
Record t := mk
  { coverage : cents;
    matched : list string;
    gaps : list string;
    recommendations : Dict.t string;
    raw_job_profile : Profile.t }.
End JobMatchResult.

Module TeamMember.
Record t := mk { name : string; skills : option (list string) }.
End TeamMember.

Module TeamReport.
Record t := mk
  { team_size : nat;
    team_skill_coverage : nat;
    unique_strengths : list string;
    team_gaps : list string }.
End TeamReport.

(** ** Lexicon tables of skill_profiles.py *)

Definition FORMAL_SKILL_FRAMEWORK : Dict.t (list string) :=
  [ ("Technical Foundation",
      ["python"; "java"; "javascript"; "typescript"; "c++"; "c#"; "sql"; "cloud";
       "aws"; "azure"; "gcp"; "docker"; "kubernetes"; "ci/cd"; "git"]);
    ("Data & AI",
      ["data analysis"; "data science"; "machine learning"; "deep learning";
       "computer vision"; "nlp"; "mlops"; "pandas"; "numpy"; "tensorflow";
       "pytorch"; "xgboost"]);
    ("Product & Delivery",
      ["project management"; "agile"; "scrum"; "kanban"; "product management";
       "stakeholder management"; "roadmapping"; "testing"; "qa"; "devops"]);
    ("Leadership & Impact",
      ["leadership"; "mentorship"; "communication"; "strategic planning";
       "problem solving"; "innovation"; "change management"]) ].

(** [\bword\b] *)
Definition whole (w : string) : Re.regex := Re.seq [Re.Bnd; Re.lit w; Re.Bnd].

(** [\bstem(suffix)?\b] *)
Definition whole_opt (stem suffix : string) : Re.regex :=
  Re.seq [Re.Bnd; Re.lit stem; Re.Opt (Re.lit suffix); Re.Bnd].

Definition IMPLICIT_PATTERNS : list (string * list Re.regex) :=
  [ ("leadership",
      [whole "led"; whole "managed"; whole_opt "head" "ed"; whole "directed"]);
    ("mentorship", [whole "mentored"; whole "coached"; whole "trained"]);
    ("stakeholder management",
      [whole_opt "stakeholder" "s";
       Re.seq [Re.Bnd; Re.lit "aligned"; Re.Bnd; Re.Dots; Re.Bnd; Re.lit "team"; Re.Bnd]]);
    ("communication", [whole "presented"; whole "facilitated"; whole "workshop"]);
    ("strategic planning", [whole "roadmap"; whole "strategy"; whole "vision"]);
    ("problem solving",
      [whole "root cause"; whole_opt "troubleshoot" "ed"; whole "debugged"]);
    ("continuous improvement",
      [whole "retrospective"; whole "continuous improvement"; whole "kaizen"]);
    ("governance", [whole_opt "audit" "ed"; whole "compliance"; whole "risk"]);
    ("innovation", [whole_opt "prototype" "d"; whole_opt "experiment" "s"; whole "hackathon"]) ].

Definition IMPLICIT_CATEGORY : Dict.t string :=
  [ ("leadership", "Leadership & Impact");
    ("mentorship", "Leadership & Impact");
    ("stakeholder management", "Product & Delivery");
    ("communication", "Leadership & Impact");
    ("strategic planning", "Leadership & Impact");
    ("problem solving", "Technical Foundation");
    ("continuous improvement", "Product & Delivery");
    ("governance", "Product & Delivery");
    ("innovation", "Leadership & Impact") ].

(** ** Confidence *)

(** [round(100 * min(0.35, 0.12 * math.log1p(mentions)))]: the seventeen
    values below the cap, then the cap.  [mention_bonus_cents_spec] relates
    the table to the logarithm. *)
Definition mention_bonus_cents (mentions : nat) : Z :=
  nth mentions
    [0; 8; 13; 17; 19; 22; 23; 25; 26; 28; 29; 30; 31; 32; 32; 33; 34; 35]%Z 35%Z.

(** [100 * min(0.2, 0.08 * max(0, n - 1))] *)
Definition source_bonus_cents (nsources : nat) : Z :=
  Z.min 20 (8 * Z.max 0 (Z.of_nat nsources - 1)).

Definition base_cents (k : signal_kind) : Z :=
  match k with explicit => 55%Z | implicit => 45%Z end.

(** [round(min(0.98, base + mention_bonus + source_bonus), 2)] in cents. *)
Definition confidence_cents (k : signal_kind) (mentions nsources : nat) : cents :=
  Z.min 98 (base_cents k + mention_bonus_cents mentions + source_bonus_cents nsources).

(** The formula of [_finalize_registry] over the reals, before rounding. *)
Definition confidence_formula (k : signal_kind) (mentions nsources : nat) : R :=
  let mention_bonus := Rmin 0.35 (0.12 * ln (1 + INR mentions))%R in
  let source_bonus := Rmin 0.2 (0.08 * Rmax 0 (INR nsources - 1))%R in
  let base := match k with explicit => 0.55%R | implicit => 0.45%R end in
  Rmin 0.98 (base + mention_bonus + source_bonus)%R.

(** [round(x, 2)] on a real number, in cents: nearest integer to [100 x],
    ties to even. *)
Definition Rround2 (x : R) : cents :=
  let y := (100 * x)%R in
  let n := (up y - 1)%Z in
  if Rlt_dec (y - IZR n) (1 / 2)%R then n
  else if Rlt_dec (1 / 2)%R (y - IZR n) then (n + 1)%Z
  else if Z.even n then n else (n + 1)%Z.

(** ** skill_profiles.py *)

(** [text[left:right].replace("\n", " ").strip()] around a match. *)
Definition _snippet (text : string) (start end_ window : nat) : string :=
  let left := start - window in                       (* max(0, start - window) *)
  let right := Nat.min (String.length text) (end_ + window) in
  Str.strip (Str.replace_char "010"%char " "%char (Str.slice text left right)).

Definition _match_skill_occurrences (text skill : string) : list (nat * nat) :=
  Re.finditer (whole skill) text.

(** Truth value of an optional string. *)
Definition truthy (s : option string) : bool :=
  match s with Some s => negb (Str.is_empty s) | None => false end.

Definition sort_key_ge (a b : SkillSignal.t) : bool :=
  (SkillSignal.confidence b <? SkillSignal.confidence a)%Z
  || ((SkillSignal.confidence a =? SkillSignal.confidence b)%Z
      && String.leb (SkillSignal.name b) (SkillSignal.name a)).

(** One registry value turned into a signal. *)
Definition finalize_entry (entry : Entry.t) : SkillSignal.t :=
  let confidence :=
    confidence_cents (Entry.type entry) (Entry.mentions entry)
      (List.length (Entry.sources entry)) in
  SkillSignal.mk (Entry.name entry) (Entry.category entry) (Entry.type entry)
    confidence (sorted_str (Entry.sources entry)) (firstn 3 (Entry.snippets entry)).

(** [sorted(signals, key=lambda s: (s.confidence, s.name), reverse=True)] *)
Definition _finalize_registry (registry : Dict.t Entry.t) : list SkillSignal.t :=
  sorted_by sort_key_ge (map finalize_entry (Dict.values registry)).

Section Builder.

(** [skills.normalize_skill] and [skills.COMMON_SKILLS] live in a module
    that is not part of the sources at hand; they are parameters. *)
Variable normalize_skill : string -> string.
Variable COMMON_SKILLS : list string.

Definition FRAMEWORK_LOOKUP_of (framework : Dict.t (list string)) : Dict.t string :=
  Dict.of_items
    (flat_map (fun cs => map (fun skill => (normalize_skill skill, fst cs)) (snd cs))
       framework).

Definition FRAMEWORK_LOOKUP : Dict.t string :=
  FRAMEWORK_LOOKUP_of FORMAL_SKILL_FRAMEWORK.

Definition _register_signal (registry : Dict.t Entry.t) (name category : string)
    (signal_type : signal_kind) (source : SourceDocument.t) (snippet : option string)
  : Dict.t Entry.t :=
  let key := normalize_skill name in
  let entry :=
    match Dict.get registry key with
    | Some e => e
    | None =>
        Entry.mk name (if Str.is_empty category then "Uncategorized" else category)
          signal_type [] [] 0
    end in
  Dict.set registry key
    (Entry.mk (Entry.name entry) (Entry.category entry) (Entry.type entry)
       (set_add (SourceDocument.name source) (Entry.sources entry))
       (if truthy snippet
        then Entry.snippets entry
               ++ [SkillEvidence.mk (SourceDocument.name source)
                     (match snippet with Some s => s | None => "" end)]
        else Entry.snippets entry)
       (S (Entry.mentions entry))).

(** The loop over [COMMON_SKILLS] for one source. *)
Definition explicit_pass (registry : Dict.t Entry.t) (source : SourceDocument.t)
  : Dict.t Entry.t :=
  let text := SourceDocument.text source in
  fold_left
    (fun registry skill =>
       fold_left
         (fun registry span =>
            let snippet := _snippet text (fst span) (snd span) 90 in
            let category :=
              match Dict.get FRAMEWORK_LOOKUP (normalize_skill skill) with
              | Some c => c
              | None => "Technical Foundation"
              end in
            _register_signal registry skill category explicit source (Some snippet))
         (_match_skill_occurrences text skill) registry)
    COMMON_SKILLS registry.

(** The loop over [IMPLICIT_PATTERNS] for one source. *)
Definition implicit_pass (registry : Dict.t Entry.t) (source : SourceDocument.t)
  : Dict.t Entry.t :=
  let text := SourceDocument.text source in
  let lowered := Str.lower text in
  fold_left
    (fun registry item =>
       let implicit_skill := fst item in
       fold_left
         (fun registry pattern =>
            fold_left
              (fun registry span =>
                 let snippet := _snippet text (fst span) (snd span) 90 in
                 let category :=
                   match Dict.get IMPLICIT_CATEGORY implicit_skill with
                   | Some c => c
                   | None => "Leadership & Impact"
                   end in
                 _register_signal registry implicit_skill category implicit source
                   (Some snippet))
              (Re.finditer pattern lowered) registry)
         (snd item) registry)
    IMPLICIT_PATTERNS registry.

(** [[src for src in sources if src and src.text.strip()]] *)
Definition usable_sources (sources : list (option SourceDocument.t))
  : list SourceDocument.t :=
  flat_map
    (fun src =>
       match src with
       | Some s =>
           if Str.is_empty (Str.strip (SourceDocument.text s)) then [] else [s]
       | None => []
       end)
    sources.

(** The registry after the loop over the sources. *)
Definition build_registry (sources : list SourceDocument.t) : Dict.t Entry.t :=
  fold_left (fun registry source => implicit_pass (explicit_pass registry source) source)
    sources [].

Definition count_kind (k : signal_kind) (signals : list SkillSignal.t) : nat :=
  List.length (filter (fun s => signal_kind_eqb (SkillSignal.signal_type s) k) signals).

(** The body of the loop over the framework categories. *)
Definition align_category (signals : list SkillSignal.t) (item : string * list string)
  : pyresult Alignment.t :=
  let category := fst item in
  let normalized_targets := set_of_list (map normalize_skill (snd item)) in
  let covered :=
    set_of_list
      (map (fun s => normalize_skill (SkillSignal.name s))
         (filter (fun s => String.eqb (SkillSignal.category s) category) signals)) in
  coverage <-
    (match normalized_targets with
     | _ :: _ =>
         Float.fdiv (List.length (set_inter covered normalized_targets))
           (List.length normalized_targets)
     | [] => Return Float.zero
     end) ;;
  Return
    (Alignment.mk
       (sorted_str (set_of_list (filter (fun s => set_mem s normalized_targets) covered)))
       (Float.round2 coverage)
       (List.length normalized_targets)).

Definition _profile_stats_with (framework : Dict.t (list string))
    (signals : list SkillSignal.t) (sources : list SourceDocument.t)
  : pyresult ProfileStats.t :=
  let explicit_n := count_kind explicit signals in
  let implicit_n := count_kind implicit signals in
  let by_category := Counter (map SkillSignal.category signals) in
  rows <- mapM (fun item => a <- align_category signals item ;; Return (fst item, a))
            framework ;;
  Return
    (ProfileStats.mk (List.length sources) explicit_n implicit_n by_category
       (Dict.of_items rows)
       (Counter (map SourceDocument.visibility sources))
       (map SourceDocument.name (firstn 3 sources))).

Definition _profile_stats := _profile_stats_with FORMAL_SKILL_FRAMEWORK.

Definition build_skill_profile (sources : list (option SourceDocument.t))
  : pyresult Profile.t :=
  let sources := usable_sources sources in
  let registry := build_registry sources in
  let signals := _finalize_registry registry in
  stats <- _profile_stats signals sources ;;
  Return (Profile.mk (Some signals) (Some stats)).

(** [{normalize_skill(signal.name): signal for signal in signals}] *)
Definition as_skill_set (signals : list SkillSignal.t) : Dict.t SkillSignal.t :=
  Dict.of_items (map (fun signal => (normalize_skill (SkillSignal.name signal), signal)) signals).

Definition get_signals (profile : Profile.t) : list SkillSignal.t :=
  match Profile.signals profile with Some l => l | None => [] end.

End Builder.

(** ** opportunity_matching.py *)

(** [seq[0]] *)
Definition index0 {A : Type} (l : list A) : pyresult A :=
  match l with
  | x :: _ => Return x
  | [] => Raise IndexError
  end.

(** [a, b = parts] *)
Definition unpack2 {A : Type} (parts : list A) : pyresult (A * A) :=
  match parts with
  | [a; b] => Return (a, b)
  | _ => Raise ValueError
  end.

(** [seq[:limit]] for an integer [limit]; a negative one counts from the end. *)
Definition slice_to {A : Type} (l : list A) (limit : Z) : list A :=
  if (0 <=? limit)%Z then firstn (Z.to_nat limit) l
  else firstn (List.length l - Z.to_nat (- limit)) l.

(** Decimal digits of a natural number. *)
Definition digits (n : nat) : string := NilZero.string_of_uint (Nat.to_uint n).

(** [repr] of the binary64 number closest to [c/100] (the text an f-string
    inserts): the shortest decimal that reads back as the same number, which
    is [c/100] written without trailing zeros and with a digit after the
    point. *)
Definition repr_cents (c : cents) : string :=
  let a := Z.to_nat (Z.abs c) in
  let whole_part := digits (a / 100) in
  let tens := (a mod 100) / 10 in
  let ones := a mod 10 in
  let fraction :=
    if ones =? 0 then digits tens else (digits tens ++ digits ones)%string in
  ((if (c <? 0)%Z then "-" else "") ++ whole_part ++ "." ++ fraction)%string.

(** One parsed line of a team inventory. *)
Definition parse_team_line (line : string) : pyresult (option TeamMember.t) :=
  if negb (Str.contains ":"%char line) then Return None
  else
    parts <- unpack2 (Str.split1 ":"%char line) ;;
    let name := fst parts in
    let skills_blob := snd parts in
    let skills :=
      map Str.strip
        (filter (fun skill => negb (Str.is_empty (Str.strip skill)))
           (Str.split ","%char skills_blob)) in
    match skills with
    | [] => Return None
    | _ :: _ => Return (Some (TeamMember.mk (Str.strip name) (Some skills)))
    end.

Fixpoint parse_team_lines (lines : list string) (profiles : list TeamMember.t)
  : pyresult (list TeamMember.t) :=
  match lines with
  | [] => Return profiles
  | line :: rest =>
      m <- parse_team_line line ;;
      match m with
      | None => parse_team_lines rest profiles                 (* continue *)
      | Some member => parse_team_lines rest (profiles ++ [member])
      end
  end.

Definition parse_team_profiles (raw_text : string) : pyresult (list TeamMember.t) :=
  if Str.is_empty raw_text then Return []
  else parse_team_lines (Str.splitlines raw_text) [].

(** The job posting as the matcher hands it to the builder. *)
Definition job_source (job_text : string) : SourceDocument.t :=
  SourceDocument.mk "Job Posting" "job" (Str.strip job_text) "public" "manual".

Section Matching.

Variable normalize_skill : string -> string.
Variable COMMON_SKILLS : list string.

(** [learning_resources.get_learning_resources], from a module that is not
    part of the sources at hand. *)
Variable get_learning_resources : list string -> Dict.t string.

Definition match_profile_to_job (skill_profile : Profile.t) (job_text : string)
  : pyresult (option JobMatchResult.t) :=
  if Str.is_empty job_text || Str.is_empty (Str.strip job_text) then Return None
  else
    let job_source :=
      SourceDocument.mk "Job Posting" "job" (Str.strip job_text) "public" "manual" in
    job_profile <- build_skill_profile normalize_skill COMMON_SKILLS [Some job_source] ;;
    let candidate_skillset := as_skill_set normalize_skill (get_signals skill_profile) in
    let job_skillset := as_skill_set normalize_skill (get_signals job_profile) in
    match job_skillset with
    | [] => Return (Some (JobMatchResult.mk 0%Z [] [] [] job_profile))
    | _ :: _ =>
        let matched :=
          map (fun kv => SkillSignal.name (snd kv))
            (filter (fun kv => Dict.mem candidate_skillset (fst kv)) job_skillset) in
        let gaps :=
          map (fun kv => SkillSignal.name (snd kv))
            (filter (fun kv => negb (Dict.mem candidate_skillset (fst kv))) job_skillset) in
        coverage <-
          (match job_skillset with
           | _ :: _ => Float.fdiv (List.length matched) (List.length job_skillset)
           | [] => Return Float.zero
           end) ;;
        let learning := get_learning_resources gaps in
        Return
          (Some
             (JobMatchResult.mk (Float.round2 coverage)
                (sorted_str (set_of_list matched))
                (sorted_str (set_of_list gaps))
                learning job_profile))
    end.

Definition member_skills (member : TeamMember.t) : list string :=
  match TeamMember.skills member with Some l => l | None => [] end.

Definition compare_against_team (skill_profile : Profile.t)
    (team_profiles : list TeamMember.t) : TeamReport.t :=
  let candidate_skillset := as_skill_set normalize_skill (get_signals skill_profile) in
  let candidate_keys := set_of_list (Dict.keys candidate_skillset) in
  let team_skillset :=
    fold_left
      (fun team member =>
         fold_left (fun team skill => set_add (normalize_skill skill) team)
           (member_skills member) team)
      team_profiles [] in
  let unique_strengths :=
    flat_map
      (fun key =>
         match Dict.get candidate_skillset key with
         | Some signal => [SkillSignal.name signal]
         | None => []
         end)
      (set_diff candidate_keys team_skillset) in
  let missing_in_team := set_diff team_skillset candidate_keys in
  TeamReport.mk (List.length team_profiles) (List.length team_skillset)
    (sorted_str unique_strengths) (sorted_str missing_in_team).

(** The bullet of one signal. *)
Definition highlight (signal : SkillSignal.t) : pyresult string :=
  snippet <-
    (match SkillSignal.evidence signal with
     | _ :: _ =>
         e <- index0 (SkillSignal.evidence signal) ;; Return (SkillEvidence.snippet e)
     | [] => Return ""
     end) ;;
  let bullet :=
    (Str.title (SkillSignal.name signal) ++ " (" ++ SkillSignal.category signal
     ++ ") - confidence " ++ repr_cents (SkillSignal.confidence signal))%string in
  Return
    (if negb (Str.is_empty snippet)
     then (bullet ++ "; evidence: " ++ Str.prefix 120 snippet ++ "...")%string
     else bullet).

Definition generate_cv_highlights (skill_profile : Profile.t) (limit : Z)
  : pyresult (list string) :=
  let signals := get_signals skill_profile in
  mapM highlight (slice_to signals limit).

Definition default_limit : Z := 4.

End Matching.

(** ** A concrete lexicon *)

(** Modelled from the spec: [skills.normalize_skill] is missing from the
    sources; the spec asks for a case-insensitive key with leading and
    trailing whitespace stripped and internal whitespace collapsed. *)
Fixpoint collapse_ws (pending : bool) (s : string) : string :=
  match s with
  | EmptyString => EmptyString
  | String c s' =>
      if Str.is_space c then collapse_ws true s'
      else if pending then String " " (String c (collapse_ws false s'))
      else String c (collapse_ws false s')
  end.

Definition normalize_skill_spec (name : string) : string :=
  collapse_ws false (Str.lstrip (Str.lower name)).

(** Modelled from the spec: [skills.COMMON_SKILLS] is missing from the
    sources; the spec's scenario detects the explicit terms python and docker,
    and its registry lets one skill be seen both as explicit and as implicit
    (every framework skill is a candidate explicit term). *)
Definition COMMON_SKILLS_spec : list string :=
  flat_map snd FORMAL_SKILL_FRAMEWORK.

(** Modelled from the spec: [learning_resources.get_learning_resources] is
    missing from the sources; the spec describes a static mapping from skill
    name to URL.  No property below depends on its content. *)
Definition get_learning_resources_spec (names : list string) : Dict.t string :=
  Dict.of_items (map (fun n => (n, ("https://example.org/learn/" ++ n)%string)) names).

(** ** The team-inventory line format, as the specification words it *)

(** Text before the first separator. *)
Fixpoint before_first (sep : ascii) (s : string) : string :=
  match s with
  | EmptyString => EmptyString
  | String c s' => if Ascii.eqb c sep then EmptyString else String c (before_first sep s')
  end.

(** Text after the first separator. *)
Fixpoint after_first (sep : ascii) (s : string) : string :=
  match s with
  | EmptyString => EmptyString
  | String c s' => if Ascii.eqb c sep then s' else after_first sep s'
  end.

(** A line [Name: skill1, skill2, ...] read by the convention: no colon, no
    member; the skills are the comma-separated pieces after the first colon,
    trimmed, the empty ones dropped; no skill left, no member. *)
Definition team_line_spec (line : string) : option TeamMember.t :=
  if Str.contains ":"%char line then
    let skills :=
      filter (fun skill => negb (Str.is_empty skill))
        (map Str.strip (Str.split ","%char (after_first ":"%char line))) in
    match skills with
    | [] => None
    | _ :: _ => Some (TeamMember.mk (Str.strip (before_first ":"%char line)) (Some skills))
    end
  else None.

Definition keep_some {A : Type} (l : list (option A)) : list A :=
  flat_map (fun o => match o with Some a => [a] | None => [] end) l.

(** A team inventory with blanks around names and skills, an empty piece, a
    line without colon, a line without skill, and the line boundaries
    carriage return + line feed, next line (133), line feed and vertical
    tab; the last line is framed by no-break spaces (160). *)
Definition team_text_untidy : string :=
  ("  Asha : cloud ,, security " ++ String "013" (String "010" "BadLine")
   ++ String "133" "Empty: , ," ++ String "010" "Kofi:python"
   ++ String "011" (String "160" "Lin" ++ String "160" ": "
                    ++ String "160" "go" ++ String "160" ""))%string.

(** ** Well-formed registries and the text of a highlight *)

(** Every registry key is the normalized name of its entry, and no key
    occurs twice. *)
Definition registry_wf (normalize_skill : string -> string) (registry : Dict.t Entry.t)
  : Prop :=
  NoDup (Dict.keys registry)
  /\ forall k e, In (k, e) registry -> normalize_skill (Entry.name e) = k.

(** The bullet without an evidence clause. *)
Definition bullet_head (signal : SkillSignal.t) : string :=
  (Str.title (SkillSignal.name signal) ++ " (" ++ SkillSignal.category signal
   ++ ") - confidence " ++ repr_cents (SkillSignal.confidence signal))%string.

(** The bullet of a signal: the evidence clause quotes at most 120
    characters of the first snippet and is absent when there is no snippet. *)
Definition bullet_spec (signal : SkillSignal.t) : string :=
  match SkillSignal.evidence signal with
  | [] => bullet_head signal
  | e :: _ =>
      if Str.is_empty (SkillEvidence.snippet e) then bullet_head signal
      else (bullet_head signal ++ "; evidence: "
            ++ Str.prefix 120 (SkillEvidence.snippet e) ++ "...")%string
  end.

(** ** Targets and covered skills of a framework category *)

Definition category_targets (normalize_skill : string -> string) (skills : list string)
  : list string :=
  set_of_list (map normalize_skill skills).

Definition category_covered (normalize_skill : string -> string)
    (signals : list SkillSignal.t) (category : string) : list string :=
  set_of_list
    (map (fun s => normalize_skill (SkillSignal.name s))
       (filter (fun s => String.eqb (SkillSignal.category s) category) signals)).

(** [round(a / b, 2)] in cents, [-1] standing for an exception. *)
Definition quotient_cents (a b : nat) : cents :=
  match Float.fdiv a b with
  | Return q => Float.round2 q
  | Raise _ => (-1)%Z
  end.

(** For denominators up to [n], rounding the binary64 quotient gives the
    same cents as rounding the exact quotient. *)
Definition small_quotients_exact (n : nat) : bool :=
  forallb
    (fun b =>
       forallb
         (fun a =>
            (quotient_cents a b =? Float.round_half_even (100 * Z.of_nat a) (Z.of_nat b))%Z)
         (seq 0 (S b)))
    (seq 1 n).

(** ** Certified lower bounds of the exponential *)

(** Fixed-point numbers with 100 fractional bits.  [exp_lower num den] is a
    lower bound of [exp (num/den)]: the first-order bound [1 + y <= exp y] at
    [y = (num/den) / 2^30], squared thirty times, every step rounded down. *)
Module ExpBound.

Definition scale : Z := 2 ^ 100.
Definition halvings : nat := 30.

Fixpoint square_down (j : nat) (t : Z) : Z :=
  match j with
  | 0 => t
  | S j' => square_down j' (t * t / scale)
  end.

Definition first_term (num den : Z) : Z :=
  (scale + num * scale / (den * 2 ^ Z.of_nat halvings))%Z.

Definition exp_lower (num den : Z) : Z := square_down halvings (first_term num den).

(** Checks [t - 1/2 < 12 ln c < t + 1/2] through
    [exp ((2t-1)/24) < c < exp ((2t+1)/24)]. *)
Definition check_ln_round (c t : Z) : bool :=
  (0 <=? first_term (- (2 * t - 1)) 24)%Z
  && (0 <=? first_term (2 * t + 1) 24)%Z
  && (scale <? c * exp_lower (- (2 * t - 1)) 24)%Z
  && (c * scale <? exp_lower (2 * t + 1) 24)%Z.

(** Checks [35/12 < ln 19]: from 18 mentions on the bonus is capped. *)
Definition ln_cap_ok : bool :=
  (0 <=? first_term (-35) 12)%Z && (scale <? 19 * exp_lower (-35) 12)%Z.

End ExpBound.

(** ** Occurrence events *)

(** The arguments of one call of [_register_signal]. *)
Module Event.
Record t := mk
  { name : string;
    category : string;
    type : signal_kind;
    source : SourceDocument.t;
    snippet : option string }.
End Event.

Definition explicit_category (normalize_skill : string -> string) (skill : string)
  : string :=
  match Dict.get (FRAMEWORK_LOOKUP normalize_skill) (normalize_skill skill) with
  | Some c => c
  | None => "Technical Foundation"
  end.

Definition implicit_category (implicit_skill : string) : string :=
  match Dict.get IMPLICIT_CATEGORY implicit_skill with
  | Some c => c
  | None => "Leadership & Impact"
  end.

Section Events.
Variable normalize_skill : string -> string.
Variable COMMON_SKILLS : list string.

Definition register_event (registry : Dict.t Entry.t) (e : Event.t) : Dict.t Entry.t :=
  _register_signal normalize_skill registry (Event.name e) (Event.category e)
    (Event.type e) (Event.source e) (Event.snippet e).

(** The calls made by the loop over [COMMON_SKILLS], in order. *)
Definition explicit_events (source : SourceDocument.t) : list Event.t :=
  let text := SourceDocument.text source in
  flat_map
    (fun skill =>
       map (fun span =>
              Event.mk skill (explicit_category normalize_skill skill) explicit source
                (Some (_snippet text (fst span) (snd span) 90)))
         (_match_skill_occurrences text skill))
    COMMON_SKILLS.

(** The calls made by the loop over [IMPLICIT_PATTERNS], in order. *)
Definition implicit_events (source : SourceDocument.t) : list Event.t :=
  let text := SourceDocument.text source in
  flat_map
    (fun item =>
       flat_map
         (fun pattern =>
            map (fun span =>
                   Event.mk (fst item) (implicit_category (fst item)) implicit source
                     (Some (_snippet text (fst span) (snd span) 90)))
              (Re.finditer pattern (Str.lower text)))
         (snd item))
    IMPLICIT_PATTERNS.

Definition events_of (source : SourceDocument.t) : list Event.t :=
  explicit_events source ++ implicit_events source.

Definition event_key (e : Event.t) : string := normalize_skill (Event.name e).

(** The entry stored by [_register_signal] when the registry holds [o] at
    the key of the event. *)
Definition absorb (o : option Entry.t) (e : Event.t) : Entry.t :=
  let entry :=
    match o with
    | Some x => x
    | None =>
        Entry.mk (Event.name e)
          (if Str.is_empty (Event.category e) then "Uncategorized" else Event.category e)
          (Event.type e) [] [] 0
    end in
  Entry.mk (Entry.name entry) (Entry.category entry) (Entry.type entry)
    (set_add (SourceDocument.name (Event.source e)) (Entry.sources entry))
    (if truthy (Event.snippet e)
     then Entry.snippets entry
            ++ [SkillEvidence.mk (SourceDocument.name (Event.source e))
                  (match Event.snippet e with Some s => s | None => "" end)]
     else Entry.snippets entry)
    (S (Entry.mentions entry)).

(** What the events do to the entry of one key. *)
Definition absorb_at (k : string) (o : option Entry.t) (e : Event.t) : option Entry.t :=
  if String.eqb (event_key e) k then Some (absorb o e) else o.

(** The terms of the lexicon with the kind they are detected as. *)
Definition lexicon : list (string * signal_kind) :=
  map (fun skill => (skill, explicit)) COMMON_SKILLS
  ++ map (fun item => (fst item, implicit)) IMPLICIT_PATTERNS.





(** A document as the builder filters it. *)
Definition usable (source : SourceDocument.t) : list SourceDocument.t :=
  if Str.is_empty (Str.strip (SourceDocument.text source)) then [] else [source].

(** The events that bear on one key. *)
Definition at_key (k : string) (events : list Event.t) : list Event.t :=
  filter (fun e => String.eqb (event_key e) k) events.


End Events.

Definition source_names (events : list Event.t) : list string :=
  map (fun e => SourceDocument.name (Event.source e)) events.

Definition evidence_of (events : list Event.t) : list SkillEvidence.t :=
  flat_map
    (fun e =>
       if truthy (Event.snippet e)
       then [SkillEvidence.mk (SourceDocument.name (Event.source e))
               (match Event.snippet e with Some s => s | None => "" end)]
       else [])
    events.

(** The entry a run of events on one key leaves in a registry that did not
    hold the key: name, category and kind of the first event, the set of the
    source names, the evidence in order, and the number of events. *)
Definition entry_of (events : list Event.t) : option Entry.t :=
  match events with
  | [] => None
  | e0 :: _ =>
      Some
        (Entry.mk (Event.name e0)
           (if Str.is_empty (Event.category e0) then "Uncategorized"
            else Event.category e0)
           (Event.type e0)
           (set_of_list (source_names events))
           (evidence_of events)
           (List.length events))
  end.

(** The part of an entry that reaches the signal, evidence aside. *)
Definition entry_core (e : Entry.t) : string * string * signal_kind * cents * list string :=
  (Entry.name e, Entry.category e, Entry.type e,
   confidence_cents (Entry.type e) (Entry.mentions e) (List.length (Entry.sources e)),
   sorted_str (Entry.sources e)).

(** The category an event of the lexicon carries. *)
Definition category_for (normalize_skill : string -> string) (name : string)
    (k : signal_kind) : string :=
  match k with
  | explicit => explicit_category normalize_skill name
  | implicit => implicit_category name
  end.

Definition core_ge (a b : string * string * signal_kind * cents * list string) : bool :=
  let conf c := snd (fst c) in
  let name c := fst (fst (fst (fst c))) in
  (conf b <? conf a)%Z || ((conf a =? conf b)%Z && String.leb (name b) (name a)).

(** A signal without its evidence. *)
Definition signal_core (s : SkillSignal.t)
  : string * string * signal_kind * cents * list string :=
  (SkillSignal.name s, SkillSignal.category s, SkillSignal.signal_type s,
   SkillSignal.confidence s, SkillSignal.sources s).

Definition mention_count (registry : Dict.t Entry.t) (k : string) : option nat :=
  option_map Entry.mentions (Dict.get registry k).

(** ** Worked inputs *)

Definition scenario_doc : SourceDocument.t :=
  SourceDocument.mk "cv" "resume"
    "Led a team to deliver a Python microservice using Docker and mentored two engineers."
    "public" "manual".

Definition notes_doc : SourceDocument.t :=
  SourceDocument.mk "notes" "project"
    "Python tooling for Docker images; coached the new hires."
    "private" "manual".

Definition empty_profile : Profile.t := Profile.mk None None.

Definition profile_or_empty (r : pyresult Profile.t) : Profile.t :=
  match r with
  | Return p => p
  | Raise _ => empty_profile
  end.

(** The profile built from the scenario document with the modelled lexicon:
    python and docker (explicit, 0.63), mentorship and leadership
    (implicit, 0.53). *)
Definition scenario_profile : Profile.t :=
  Eval vm_compute in
    profile_or_empty
      (build_skill_profile normalize_skill_spec COMMON_SKILLS_spec [Some scenario_doc]).

(** A document that names leadership and one that only shows it. *)
Definition doc_names_leadership : SourceDocument.t :=
  SourceDocument.mk "cv" "resume" "Strong leadership in delivery." "public" "manual".

Definition doc_shows_leadership : SourceDocument.t :=
  SourceDocument.mk "review" "feedback" "She led the platform team." "private" "manual".


Definition profile_named_first : Profile.t :=
  Eval vm_compute in
    profile_or_empty
      (build_skill_profile normalize_skill_spec COMMON_SKILLS_spec
         [Some doc_names_leadership; Some doc_shows_leadership]).

Definition profile_shown_first : Profile.t :=
  Eval vm_compute in
    profile_or_empty
      (build_skill_profile normalize_skill_spec COMMON_SKILLS_spec
         [Some doc_shows_leadership; Some doc_names_leadership]).

(** A job posting with four detected skills, three of them in the scenario
    profile, and one with none. *)
Definition job_four_skills : string := "python kubernetes, led; docker".
Definition job_no_skill : string := "We want a friendly person.".

(** Job text of whitespace only: a blank, a tab, a no-break space (160), a
    next-line character (133) and a line feed. *)
Definition job_blank : string :=
  String " " (String "009" (String "160" (String "133" (String "010" EmptyString)))).

Definition job_profile_four : Profile.t :=
  Eval vm_compute in
    profile_or_empty
      (build_skill_profile normalize_skill_spec COMMON_SKILLS_spec
         [Some (job_source job_four_skills)]).

Definition job_profile_none : Profile.t :=
  Eval vm_compute in
    profile_or_empty
      (build_skill_profile normalize_skill_spec COMMON_SKILLS_spec
         [Some (job_source job_no_skill)]).

Definition name_and_confidence (s : SkillSignal.t) : string * cents :=
  (SkillSignal.name s, SkillSignal.confidence s).

(** ** data_sources.py *)

(** [s.split()]: the maximal runs of characters that are not whitespace. *)
Fixpoint split_ws_from (cur : list ascii) (s : string) : list string :=
  match s with
  | EmptyString =>
      match cur with
      | [] => []
      | _ => [string_of_list_ascii (rev cur)]
      end
  | String c s' =>
      if Str.is_space c then
        match cur with
        | [] => split_ws_from [] s'
        | _ => string_of_list_ascii (rev cur) :: split_ws_from [] s'
        end
      else split_ws_from (c :: cur) s'
  end.

Definition split_ws (s : string) : list string := split_ws_from [] s.

(** The [word_count] property of a document. *)
Definition word_count (d : SourceDocument.t) : nat :=
  List.length (split_ws (SourceDocument.text d)).

(** [source_from_text(name, text, kind, visibility)]; the metadata argument
    only fills the field that the model leaves out. *)
Definition source_from_text (name text kind visibility : string)
  : option SourceDocument.t :=
  if Str.is_empty text then None
  else
    let cleaned := Str.strip text in
    if Str.is_empty cleaned then None
    else Some (SourceDocument.mk name kind cleaned visibility "manual").

(** [sep.join(parts)] *)
Fixpoint join (sep : string) (parts : list string) : string :=
  match parts with
  | [] => EmptyString
  | [p] => p
  | p :: rest => (p ++ sep ++ join sep rest)%string
  end.

Definition newline : string := String "010"%char EmptyString.

(** The section that [merge_sources_text] writes for one source. *)
Definition source_section (src : SourceDocument.t) : string :=
  ("[" ++ SourceDocument.name src ++ " | " ++ SourceDocument.kind src ++ "]" ++ newline
   ++ Str.strip (SourceDocument.text src))%string.

(** [merge_sources_text(sources, visibility)] with an optional filter. *)
Definition merge_sources_text (sources : list SourceDocument.t) (visibility : option string)
  : string :=
  let sections :=
    flat_map
      (fun src =>
         if truthy visibility
            && negb (String.eqb (SourceDocument.visibility src)
                       (match visibility with Some v => v | None => "" end))
         then []                                          (* continue *)
         else if Str.is_empty (Str.strip (SourceDocument.text src)) then []
         else [source_section src])
      sources in
  join (newline ++ newline)%string sections.

(** [round(x, 1)] in tenths: the exact value of [x] times 10, rounded to the
    nearest integer with ties to even. *)
Definition round1 (x : Float.float64) : Z :=
  if (0 <=? Float.expo x)%Z then (10 * Float.mant x * 2 ^ Float.expo x)%Z
  else Float.round_half_even (10 * Float.mant x) (2 ^ (- Float.expo x)).

Module SourceSummary.
Record t := mk
  { count : nat;
    by_kind : Dict.t nat;
    visibility : Dict.t nat;
    total_words : nat;
    avg_words : Z }.                                       (* tenths *)
End SourceSummary.

Definition sum_nat (l : list nat) : nat := fold_left Nat.add l 0.

Definition describe_sources (sources : list SourceDocument.t)
  : pyresult SourceSummary.t :=
  let by_kind := Counter (map SourceDocument.kind sources) in
  let visibility := Counter (map SourceDocument.visibility sources) in
  let total_words := sum_nat (map word_count sources) in
  avg <-
    (match sources with
     | _ :: _ => q <- Float.fdiv total_words (List.length sources) ;; Return (round1 q)
     | [] => Return 0%Z
     end) ;;
  Return (SourceSummary.mk (List.length sources) by_kind visibility total_words avg).

(** ** export_profile *)

(** JSON-serializable values. *)
Inductive json : Type :=
| JStr (s : string)
| JNum (c : cents)
| JList (l : list json)
| JDict (d : list (string * json)).

Definition kind_name (k : signal_kind) : string :=
  match k with explicit => "explicit" | implicit => "implicit" end.

Definition export_evidence (e : SkillEvidence.t) : json :=
  JDict [("source", JStr (SkillEvidence.source e));
         ("snippet", JStr (SkillEvidence.snippet e))].

Definition export_signal (signal : SkillSignal.t) : json :=
  JDict
    [("name", JStr (SkillSignal.name signal));
     ("category", JStr (SkillSignal.category signal));
     ("type", JStr (kind_name (SkillSignal.signal_type signal)));
     ("confidence", JNum (SkillSignal.confidence signal));
     ("sources", JList (map JStr (SkillSignal.sources signal)));
     ("evidence", JList (map export_evidence (SkillSignal.evidence signal)))].

Definition export_profile (signals : list SkillSignal.t) : list json :=
  fold_left (fun payload signal => payload ++ [export_signal signal]) signals [].

(** ** Shapes used in the statements *)

(** The code points of a character class. *)
Definition codes (p : ascii -> bool) : list nat :=
  filter (fun n => p (ascii_of_nat n)) (List.seq 0 256).

(** The last character of [s], or [prev] when [s] is empty. *)
Fixpoint last_from (prev : option ascii) (s : string) : option ascii :=
  match s with
  | EmptyString => prev
  | String c s' => last_from (Some c) s'
  end.

Definition space_opt (c : option ascii) : bool :=
  match c with Some c => Str.is_space c | None => false end.

(** Whitespace only (the empty text included). *)
Fixpoint blank (s : string) : bool :=
  match s with
  | EmptyString => true
  | String c s' => Str.is_space c && blank s'
  end.

(** No whitespace at either end: neither the first nor the last character
    is a whitespace character. *)
Definition stripped (s : string) : Prop :=
  space_opt (Re.next_char s) = false /\ space_opt (last_from None s) = false.

(** No line boundary of [str.splitlines] inside. *)
Fixpoint one_line (s : string) : bool :=
  match s with
  | EmptyString => true
  | String c s' => negb (Str.is_linebreak c) && one_line s'
  end.

(** [t] is [raw] without the whitespace at its two ends. *)
Definition trimmed (raw t : string) : Prop :=
  stripped t
  /\ exists before after,
       raw = (before ++ t ++ after)%string /\ blank before = true /\ blank after = true.

(** No whitespace at the start. *)
Definition no_lead (s : string) : Prop :=
  match s with
  | EmptyString => True
  | String c _ => Str.is_space c = false
  end.

Fixpoint has_char (c : ascii) (s : string) : bool :=
  match s with
  | EmptyString => false
  | String d s' => Ascii.eqb d c || has_char c s'
  end.

(** The normalized skills of a team. *)
Definition team_keys (normalize_skill : string -> string) (team : list TeamMember.t)
  : list string :=
  flat_map
    (fun member =>
       map normalize_skill
         (match TeamMember.skills member with Some l => l | None => [] end))
    team.

Definition framework_categories : list string := Dict.keys FORMAL_SKILL_FRAMEWORK.

(** The documents [merge_sources_text] writes a section for: those whose
    text is not whitespace only and whose visibility passes the filter. *)
Definition merged (visibility : option string) (src : SourceDocument.t) : bool :=
  negb (blank (SourceDocument.text src))
  && match visibility with
     | Some v => Str.is_empty v || String.eqb (SourceDocument.visibility src) v
     | None => true
     end.

(** The last element of a list that satisfies a test. *)
Fixpoint last_with {A : Type} (p : A -> bool) (l : list A) : option A :=
  match l with
  | [] => None
  | a :: l' =>
      match last_with p l' with
      | Some b => Some b
      | None => if p a then Some a else None
      end
  end.

(** The signals that the skill mapping keeps: for each distinct normalized
    name, in order of first appearance, the last signal that carries it. *)
Definition last_per_key (normalize_skill : string -> string)
    (signals : list SkillSignal.t) : list SkillSignal.t :=
  flat_map
    (fun k =>
       match last_with (fun s => String.eqb (normalize_skill (SkillSignal.name s)) k)
               signals with
       | Some s => [s]
       | None => []
       end)
    (set_of_list (map (fun s => normalize_skill (SkillSignal.name s)) signals)).

(** A profile put together by hand in which two signals carry the same
    name. *)
Definition profile_repeated_name : Profile.t :=
  Profile.mk
    (Some [ SkillSignal.mk "python" "Technical Foundation" explicit 63%Z ["cv"] [];
            SkillSignal.mk "python" "Technical Foundation" explicit 71%Z ["notes"] [];
            SkillSignal.mk "sql" "Technical Foundation" explicit 63%Z ["cv"] [] ])
    None.

(** Two continuations that agree up to the case of the text. *)
Definition cont_agree (k k' : Re.cont) : Prop :=
  forall prev s pos, k prev s pos = k' (option_map Str.lower_char prev) (Str.lower s) pos.

(** Two documents with the same name whose texts agree up to letter case. *)
Definition same_up_to_case (d d' : SourceDocument.t) : Prop :=
  SourceDocument.name d = SourceDocument.name d'
  /\ Str.lower (SourceDocument.text d) = Str.lower (SourceDocument.text d').

(** Two events that differ at most in the snippet and in fields of the source
    other than its name. *)
Definition same_event (e e' : Event.t) : Prop :=
  Event.name e = Event.name e'
  /\ Event.category e = Event.category e'
  /\ Event.type e = Event.type e'
  /\ SourceDocument.name (Event.source e) = SourceDocument.name (Event.source e').

(** A team of two, one of whose skills the scenario profile has. *)
Definition team_two : list TeamMember.t :=
  [ TeamMember.mk "Asha" (Some ["cloud"; "python"]);
    TeamMember.mk "Kofi" (Some ["python"; "testing"]) ].

(** The scenario document typed in capitals. *)
Definition scenario_doc_capitals : SourceDocument.t :=
  SourceDocument.mk "cv" "resume"
    "LED A TEAM TO DELIVER A PYTHON MICROSERVICE USING DOCKER AND MENTORED TWO ENGINEERS."
    "public" "manual".

(** * Properties *)

(** ** The character classes, code point by code point *)

(** [str.isspace] *)
Lemma is_space_codes :
  codes Str.is_space = [9; 10; 11; 12; 13; 28; 29; 30; 31; 32; 133; 160].
Proof. vm_compute. reflexivity. Qed.

(** The line boundaries of [str.splitlines] *)
Lemma is_linebreak_codes :
  codes Str.is_linebreak = [10; 11; 12; 13; 28; 29; 30; 133].
Proof. vm_compute. reflexivity. Qed.

(** The word characters of [re]: 0..9, A..Z, the underscore, a..z, and of
    the upper half the letters, the ordinal indicators, the micro sign and
    the superscript digits and fractions. *)
Lemma is_word_codes :
  codes Str.is_word
  = List.seq 48 10 ++ List.seq 65 26 ++ [95] ++ List.seq 97 26
    ++ [170; 178; 179; 181; 185; 186; 188; 189; 190]
    ++ List.seq 192 23 ++ List.seq 216 31 ++ List.seq 248 8.
Proof. vm_compute. reflexivity. Qed.

(** The characters that [str.lower] changes, each by 32 code points. *)
Lemma lower_char_codes :
  codes (fun c => negb (Ascii.eqb (Str.lower_char c) c))
  = List.seq 65 26 ++ List.seq 192 23 ++ List.seq 216 7
  /\ forall c, Str.code (Str.lower_char c) = Str.code c
               \/ Str.code (Str.lower_char c) = Str.code c + 32.
Proof.
  split; [vm_compute; reflexivity|].
  intros c. destruct c as [[] [] [] [] [] [] [] []]; vm_compute; auto.
Qed.

(** ** Whitespace *)

Lemma lstrip_no_lead (s : string) : no_lead (Str.lstrip s).
Proof.
  induction s as [|c s IH]; simpl; [exact I|].
  destruct (Str.is_space c) eqn:Hc; [exact IH | simpl; exact Hc].
Qed.

Lemma lstrip_id (s : string) : no_lead s -> Str.lstrip s = s.
Proof. destruct s as [|c s]; simpl; [reflexivity|]. intros ->. reflexivity. Qed.

Lemma rstrip_no_lead (s : string) : no_lead s -> no_lead (Str.rstrip s).
Proof.
  destruct s as [|c s]; simpl; [auto|]. intros Hc. rewrite Hc. simpl. exact Hc.
Qed.

Lemma rstrip_idem (s : string) : Str.rstrip (Str.rstrip s) = Str.rstrip s.
Proof.
  induction s as [|c s IH]; simpl; [reflexivity|].
  destruct (Str.is_space c && Str.is_empty (Str.rstrip s)) eqn:Hc; simpl; [reflexivity|].
  rewrite IH, Hc. reflexivity.
Qed.

Lemma strip_idem (s : string) : Str.strip (Str.strip s) = Str.strip s.
Proof.
  unfold Str.strip.
  rewrite (lstrip_id (Str.rstrip (Str.lstrip s)))
    by (apply rstrip_no_lead, lstrip_no_lead).
  apply rstrip_idem.
Qed.

Lemma is_empty_true (s : string) : Str.is_empty s = true <-> s = EmptyString.
Proof. destruct s; simpl; split; congruence. Qed.

Lemma string_app_assoc (a b c : string) : ((a ++ b) ++ c = a ++ (b ++ c))%string.
Proof. induction a as [|x a IH]; simpl; [reflexivity | rewrite IH; reflexivity]. Qed.

Lemma string_app_nil_r (a : string) : (a ++ "")%string = a.
Proof. induction a as [|x a IH]; simpl; [reflexivity | rewrite IH; reflexivity]. Qed.

Lemma blank_app (a b : string) : blank (a ++ b) = blank a && blank b.
Proof.
  induction a as [|x a IH]; simpl; [reflexivity|].
  rewrite IH, andb_assoc. reflexivity.
Qed.

(** What [lstrip] removes is whitespace. *)
Lemma lstrip_split (s : string) :
  exists before, s = (before ++ Str.lstrip s)%string /\ blank before = true.
Proof.
  induction s as [|c s (before & Hs & Hb)]; simpl.
  - exists EmptyString. split; reflexivity.
  - destruct (Str.is_space c) eqn:Hc.
    + exists (String c before). simpl. rewrite Hc, Hb, <- Hs. split; reflexivity.
    + exists EmptyString. split; reflexivity.
Qed.

(** What [rstrip] removes is whitespace. *)
Lemma rstrip_split (s : string) :
  exists after, s = (Str.rstrip s ++ after)%string /\ blank after = true.
Proof.
  induction s as [|c s (after & Hs & Hb)]; simpl.
  - exists EmptyString. split; reflexivity.
  - destruct (Str.is_space c && Str.is_empty (Str.rstrip s)) eqn:Hc.
    + apply andb_true_iff in Hc. destruct Hc as [Hc He].
      apply is_empty_true in He. rewrite He in Hs. simpl in Hs.
      exists (String c after). simpl. rewrite Hc, Hb, <- Hs. split; reflexivity.
    + exists after. simpl. rewrite <- Hs. split; [reflexivity | exact Hb].
Qed.

(** What [rstrip] leaves does not end in whitespace. *)
Lemma rstrip_last (s : string) (prev : option ascii) :
  Str.rstrip s <> EmptyString -> space_opt (last_from prev (Str.rstrip s)) = false.
Proof.
  revert prev. induction s as [|c s IH]; intros prev; simpl; [congruence|].
  destruct (Str.is_space c && Str.is_empty (Str.rstrip s)) eqn:Hc; [congruence|].
  intros _. simpl.
  destruct (Str.rstrip s) as [|d r] eqn:Hr.
  - simpl in *. rewrite andb_true_r in Hc. exact Hc.
  - apply IH. discriminate.
Qed.

Lemma rstrip_no_trail (s : string) : space_opt (last_from None (Str.rstrip s)) = false.
Proof.
  destruct (Str.rstrip s) as [|d r] eqn:Hr; [reflexivity|].
  rewrite <- Hr. apply rstrip_last. rewrite Hr. discriminate.
Qed.

Lemma no_lead_first (s : string) : no_lead s -> space_opt (Re.next_char s) = false.
Proof. destruct s; simpl; auto. Qed.

Lemma strip_stripped (s : string) : stripped (Str.strip s).
Proof.
  split.
  - apply no_lead_first, rstrip_no_lead, lstrip_no_lead.
  - apply rstrip_no_trail.
Qed.

(** [strip] removes whitespace from the two ends, and nothing else. *)
Lemma strip_trimmed (s : string) : trimmed s (Str.strip s).
Proof.
  split; [apply strip_stripped|].
  destruct (lstrip_split s) as (before & Hs & Hb).
  destruct (rstrip_split (Str.lstrip s)) as (after & Hr & Ha).
  exists before, after. split; [|split; assumption].
  unfold Str.strip. rewrite <- Hr. exact Hs.
Qed.

Lemma rstrip_blank (s : string) : Str.is_empty (Str.rstrip s) = blank s.
Proof.
  induction s as [|c s IH]; simpl; [reflexivity|].
  rewrite <- IH. destruct (Str.is_space c), (Str.is_empty (Str.rstrip s)); reflexivity.
Qed.

Lemma lstrip_blank (s : string) : blank (Str.lstrip s) = blank s.
Proof.
  induction s as [|c s IH]; simpl; [reflexivity|].
  destruct (Str.is_space c) eqn:Hc; simpl; [exact IH | rewrite Hc; reflexivity].
Qed.

(** The text that [strip] empties is the whitespace-only text. *)
Lemma strip_blank (s : string) : Str.is_empty (Str.strip s) = blank s.
Proof. unfold Str.strip. rewrite rstrip_blank. apply lstrip_blank. Qed.

(** A stripped text is what [strip] leaves unchanged. *)
Lemma stripped_strip (s : string) : stripped s -> Str.strip s = s.
Proof.
  intros [Hf Hl]. unfold Str.strip.
  rewrite lstrip_id by (destruct s; simpl in *; auto).
  clear Hf. revert Hl. generalize (@None ascii).
  induction s as [|c s IH]; intros prev Hl; simpl; [reflexivity|].
  simpl in Hl. rewrite (IH _ Hl).
  destruct s as [|d s]; simpl in *; [rewrite Hl; reflexivity|].
  rewrite andb_false_r. reflexivity.
Qed.

(** Trimming has one result. *)
Lemma trimmed_strip (raw t : string) : trimmed raw t -> t = Str.strip raw.
Proof.
  intros (Ht & before & after & -> & Hb & Ha).
  unfold Str.strip.
  assert (Hl : forall b x, blank b = true -> Str.lstrip (b ++ x) = Str.lstrip x).
  { induction b as [|c b IH]; intros x Hc; simpl; [reflexivity|].
    simpl in Hc. apply andb_true_iff in Hc. destruct Hc as [Hc Hb'].
    rewrite Hc. apply IH, Hb'. }
  assert (Hr : forall x, Str.rstrip (x ++ after) = Str.rstrip x).
  { induction x as [|d x IH]; simpl.
    - apply is_empty_true. rewrite rstrip_blank. exact Ha.
    - rewrite IH. reflexivity. }
  rewrite (Hl before _ Hb).
  pose proof (stripped_strip t Ht) as Hs. unfold Str.strip in Hs.
  destruct Ht as [Hf _].
  destruct t as [|c t].
  - simpl. symmetry. apply is_empty_true. rewrite rstrip_blank, lstrip_blank. exact Ha.
  - simpl in Hf. simpl Str.lstrip. simpl in Hs. rewrite Hf in *.
    change (String c (t ++ after)) with (String c t ++ after)%string.
    rewrite Hr. symmetry. exact Hs.
Qed.


(** ** The exception monad *)

Lemma bind_Return_inv {A B : Type} (m : pyresult A) (k : A -> pyresult B) (b : B) :
  bind m k = Return b -> exists a, m = Return a /\ k a = Return b.
Proof.
  destruct m as [a|e]; simpl; intros H.
  - exists a. split; [reflexivity | exact H].
  - discriminate H.
Qed.

Lemma mapM_total {A B : Type} (f : A -> pyresult B) (g : A -> B) (l : list A) :
  (forall a, In a l -> f a = Return (g a)) -> mapM f l = Return (map g l).
Proof.
  induction l as [|a l IH]; intros Hf; simpl.
  - reflexivity.
  - rewrite (Hf a (or_introl eq_refl)). simpl.
    rewrite IH by (intros x Hx; apply Hf; right; exact Hx).
    reflexivity.
Qed.

(** ** Order on strings *)

Lemma ascii_compare_lt (a b : ascii) :
  Ascii.compare a b = Lt <-> (N_of_ascii a < N_of_ascii b)%N.
Proof. unfold Ascii.compare. apply N.compare_lt_iff. Qed.

Lemma ascii_compare_gt (a b : ascii) :
  Ascii.compare a b = Gt <-> (N_of_ascii b < N_of_ascii a)%N.
Proof. unfold Ascii.compare. apply N.compare_gt_iff. Qed.

Lemma ascii_compare_refl (a : ascii) : Ascii.compare a a = Eq.
Proof. unfold Ascii.compare. apply N.compare_refl. Qed.

Lemma string_compare_refl (s : string) : String.compare s s = Eq.
Proof.
  induction s as [|c s IH]; simpl; [reflexivity|].
  rewrite ascii_compare_refl. exact IH.
Qed.

Lemma string_compare_not_gt_trans (a b c : string) :
  String.compare a b <> Gt -> String.compare b c <> Gt -> String.compare a c <> Gt.
Proof.
  revert b c. induction a as [|x a IH]; intros [|y b] [|z c]; simpl;
    try congruence.
  destruct (Ascii.compare x y) eqn:Hxy; try congruence;
    destruct (Ascii.compare y z) eqn:Hyz; try congruence; intros H1 H2.
  - apply Ascii.compare_eq_iff in Hxy, Hyz. subst. rewrite ascii_compare_refl.
    exact (IH _ _ H1 H2).
  - apply Ascii.compare_eq_iff in Hxy. subst. rewrite Hyz. congruence.
  - apply Ascii.compare_eq_iff in Hyz. subst. rewrite Hxy. congruence.
  - apply ascii_compare_lt in Hxy. apply ascii_compare_lt in Hyz.
    assert (Hxz : Ascii.compare x z = Lt)
      by (apply ascii_compare_lt; eapply N.lt_trans; eassumption).
    rewrite Hxz. congruence.
Qed.

Lemma string_leb_trans (a b c : string) :
  String.leb a b = true -> String.leb b c = true -> String.leb a c = true.
Proof.
  unfold String.leb. intros H1 H2.
  assert (H : String.compare a c <> Gt).
  { apply (string_compare_not_gt_trans a b c).
    - destruct (String.compare a b); congruence.
    - destruct (String.compare b c); congruence. }
  destruct (String.compare a c); congruence.
Qed.

Lemma string_leb_refl (a : string) : String.leb a a = true.
Proof. unfold String.leb. rewrite string_compare_refl. reflexivity. Qed.

(** ** Insertion sort *)

Section SortFacts.
Context {A : Type} (le : A -> A -> bool).

Lemma insert_by_perm (x : A) (l : list A) : Permutation (insert_by le x l) (x :: l).
Proof.
  induction l as [|y l IH]; simpl.
  - apply Permutation_refl.
  - destruct (le x y).
    + apply Permutation_refl.
    + eapply perm_trans; [apply perm_skip, IH | apply perm_swap].
Qed.

Lemma sorted_by_perm (l : list A) : Permutation (sorted_by le l) l.
Proof.
  induction l as [|x l IH]; simpl.
  - apply perm_nil.
  - eapply perm_trans; [apply insert_by_perm | apply perm_skip, IH].
Qed.

Lemma sorted_by_In (l : list A) (x : A) : In x (sorted_by le l) <-> In x l.
Proof.
  split; apply Permutation_in;
    [apply sorted_by_perm | apply Permutation_sym, sorted_by_perm].
Qed.

Lemma sorted_by_length (l : list A) : List.length (sorted_by le l) = List.length l.
Proof. apply Permutation_length, sorted_by_perm. Qed.

Hypothesis le_total : forall a b, le a b = true \/ le b a = true.
Hypothesis le_trans : forall a b c, le a b = true -> le b c = true -> le a c = true.

Lemma insert_by_sorted (x : A) (l : list A) :
  StronglySorted (fun a b => le a b = true) l ->
  StronglySorted (fun a b => le a b = true) (insert_by le x l).
Proof.
  induction 1 as [|y l Hs IH Hy]; simpl.
  - constructor; [constructor | constructor].
  - destruct (le x y) eqn:Hxy.
    + constructor.
      * constructor; assumption.
      * constructor; [exact Hxy|].
        rewrite Forall_forall in *. intros z Hz. eapply le_trans; eauto.
    + constructor; [exact IH|].
      rewrite Forall_forall in *. intros z Hz.
      apply (Permutation_in _ (insert_by_perm x l)) in Hz.
      destruct Hz as [<- | Hz]; [|auto].
      destruct (le_total x y) as [H|H]; congruence.
Qed.

Lemma sorted_by_sorted (l : list A) :
  StronglySorted (fun a b => le a b = true) (sorted_by le l).
Proof.
  induction l as [|x l IH]; simpl; [constructor | apply insert_by_sorted, IH].
Qed.
End SortFacts.

(** Two sorted arrangements of the same elements agree when the order is
    antisymmetric on these elements. *)
Lemma sorted_perm_unique {A : Type} (R : A -> A -> Prop) (l1 : list A) :
  forall l2,
    (forall a b, In a l1 -> In b l1 -> R a b -> R b a -> a = b) ->
    StronglySorted R l1 -> StronglySorted R l2 ->
    Permutation l1 l2 -> l1 = l2.
Proof.
  induction l1 as [|x l1 IH]; intros l2 Hanti H1 H2 Hp.
  - apply Permutation_nil in Hp. subst. reflexivity.
  - destruct l2 as [|y l2].
    { apply Permutation_sym, Permutation_nil in Hp. discriminate. }
    inversion H1 as [|? ? Hs1 Hx]; subst. inversion H2 as [|? ? Hs2 Hy]; subst.
    assert (Hin1 : In x (y :: l2)) by (eapply Permutation_in; [exact Hp | left; reflexivity]).
    assert (Hin2 : In y (x :: l1))
      by (eapply Permutation_in; [apply Permutation_sym; exact Hp | left; reflexivity]).
    assert (Hxy : x = y).
    { rewrite Forall_forall in Hx, Hy.
      destruct Hin1 as [->|Hin1]; [reflexivity|].
      destruct Hin2 as [->|Hin2']; [reflexivity|].
      apply Hanti; [left; reflexivity | right; exact Hin2'
                   | apply Hx; exact Hin2' | apply Hy; exact Hin1]. }
    subst y. f_equal. apply IH; try assumption.
    + intros a b Ha Hb. apply Hanti; right; assumption.
    + eapply Permutation_cons_inv; exact Hp.
Qed.

Lemma StronglySorted_weaken {A : Type} (R S : A -> A -> Prop) (l : list A) :
  (forall a b, R a b -> S a b) -> StronglySorted R l -> StronglySorted S l.
Proof.
  intros HRS. induction 1 as [|x l Hs IH Hx]; constructor; [exact IH|].
  eapply Forall_impl; [|exact Hx]. intros b. apply HRS.
Qed.

Lemma sorted_str_sorted (l : list string) :
  StronglySorted (fun a b => String.leb a b = true) (sorted_str l).
Proof. apply sorted_by_sorted; [apply String.leb_total | apply string_leb_trans]. Qed.

(** The result of [sorted] on strings does not depend on the order in which
    the elements are presented. *)
Lemma sorted_str_perm_eq (l1 l2 : list string) :
  Permutation l1 l2 -> sorted_str l1 = sorted_str l2.
Proof.
  intros Hp.
  apply (sorted_perm_unique (fun a b => String.leb a b = true)).
  - intros a b _ _. apply String.leb_antisym.
  - apply sorted_str_sorted.
  - apply sorted_str_sorted.
  - eapply perm_trans; [apply sorted_by_perm|].
    eapply perm_trans; [exact Hp | apply Permutation_sym, sorted_by_perm].
Qed.

(** ** Sets as duplicate-free lists *)

Lemma set_mem_In (x : string) (s : list string) : set_mem x s = true <-> In x s.
Proof.
  unfold set_mem. rewrite existsb_exists. split.
  - intros (y & Hy & Heq). apply String.eqb_eq in Heq. subst. exact Hy.
  - intros H. exists x. split; [exact H | apply String.eqb_refl].
Qed.

Lemma set_mem_false (x : string) (s : list string) : set_mem x s = false <-> ~ In x s.
Proof.
  rewrite <- set_mem_In. destruct (set_mem x s); split; congruence.
Qed.

Lemma set_add_In (x y : string) (s : list string) :
  In y (set_add x s) <-> y = x \/ In y s.
Proof.
  unfold set_add. destruct (set_mem x s) eqn:Hm.
  - apply set_mem_In in Hm. split; [auto | intros [->|H]; assumption].
  - rewrite in_app_iff. simpl. split; [intros [H|[H|[]]]; auto | intros [->|H]; auto].
Qed.

Lemma set_add_NoDup (x : string) (s : list string) : NoDup s -> NoDup (set_add x s).
Proof.
  intros Hs. unfold set_add. destruct (set_mem x s) eqn:Hm; [exact Hs|].
  apply set_mem_false in Hm.
  apply NoDup_rev in Hs. rewrite <- (rev_involutive (s ++ [x])).
  apply NoDup_rev. rewrite rev_app_distr. simpl. constructor; [|exact Hs].
  rewrite <- in_rev. exact Hm.
Qed.

Lemma set_fold_In (l s : list string) (y : string) :
  In y (fold_left (fun s x => set_add x s) l s) <-> In y l \/ In y s.
Proof.
  revert s. induction l as [|x l IH]; intros s; simpl.
  - tauto.
  - rewrite IH, set_add_In. split; [intros [H|[->|H]] | intros [[->|H]|H]]; auto.
Qed.

Lemma set_fold_NoDup (l s : list string) :
  NoDup s -> NoDup (fold_left (fun s x => set_add x s) l s).
Proof.
  revert s. induction l as [|x l IH]; intros s Hs; simpl; [exact Hs|].
  apply IH, set_add_NoDup, Hs.
Qed.

Lemma set_of_list_In (l : list string) (y : string) : In y (set_of_list l) <-> In y l.
Proof. unfold set_of_list. rewrite set_fold_In. simpl. tauto. Qed.

Lemma set_of_list_NoDup (l : list string) : NoDup (set_of_list l).
Proof. apply set_fold_NoDup. constructor. Qed.

Lemma set_inter_In (a b : list string) (y : string) :
  In y (set_inter a b) <-> In y a /\ In y b.
Proof. unfold set_inter. rewrite filter_In, set_mem_In. tauto. Qed.

Lemma set_diff_In (a b : list string) (y : string) :
  In y (set_diff a b) <-> In y a /\ ~ In y b.
Proof. unfold set_diff. rewrite filter_In, negb_true_iff, set_mem_false. tauto. Qed.

Lemma filter_NoDup {A : Type} (f : A -> bool) (l : list A) : NoDup l -> NoDup (filter f l).
Proof.
  induction 1 as [|x l Hx Hl IH]; simpl; [constructor|].
  destruct (f x); [constructor|]; auto.
  rewrite filter_In. tauto.
Qed.

(** A duplicate-free list is left as it is by [set(...)]. *)
Lemma set_fold_NoDup_id (l s : list string) :
  NoDup (s ++ l) -> fold_left (fun s x => set_add x s) l s = s ++ l.
Proof.
  revert s. induction l as [|x l IH]; intros s Hnd; simpl.
  - rewrite app_nil_r. reflexivity.
  - assert (Hx : ~ In x s).
    { intros Hin. apply NoDup_remove_2 in Hnd. apply Hnd. apply in_or_app. auto. }
    unfold set_add at 2. apply set_mem_false in Hx. rewrite Hx.
    rewrite IH; rewrite <- app_assoc; simpl; [reflexivity | exact Hnd].
Qed.

Lemma set_of_list_NoDup_id (l : list string) : NoDup l -> set_of_list l = l.
Proof. intros H. unfold set_of_list. rewrite set_fold_NoDup_id; [reflexivity | exact H]. Qed.

(** ** The sort key of the signals *)

Lemma sort_key_ge_total (a b : SkillSignal.t) :
  sort_key_ge a b = true \/ sort_key_ge b a = true.
Proof.
  unfold sort_key_ge.
  destruct (Z.ltb_spec (SkillSignal.confidence b) (SkillSignal.confidence a)); [auto|].
  destruct (Z.ltb_spec (SkillSignal.confidence a) (SkillSignal.confidence b)); [auto|].
  assert (Heq : SkillSignal.confidence a = SkillSignal.confidence b) by lia.
  rewrite Heq, Z.eqb_refl. simpl.
  destruct (String.leb_total (SkillSignal.name a) (SkillSignal.name b)); auto.
Qed.

Lemma sort_key_ge_spec (a b : SkillSignal.t) :
  sort_key_ge a b = true <->
  (SkillSignal.confidence b < SkillSignal.confidence a)%Z
  \/ (SkillSignal.confidence a = SkillSignal.confidence b
      /\ String.leb (SkillSignal.name b) (SkillSignal.name a) = true).
Proof.
  unfold sort_key_ge. rewrite orb_true_iff, andb_true_iff, Z.ltb_lt, Z.eqb_eq. tauto.
Qed.

Lemma sort_key_ge_trans (a b c : SkillSignal.t) :
  sort_key_ge a b = true -> sort_key_ge b c = true -> sort_key_ge a c = true.
Proof.
  rewrite !sort_key_ge_spec. intros [H1|[H1 H1']] [H2|[H2 H2']].
  - left. lia.
  - left. lia.
  - left. lia.
  - right. split; [lia|]. eapply string_leb_trans; eassumption.
Qed.

Lemma _finalize_registry_sorted (registry : Dict.t Entry.t) :
  StronglySorted (fun a b => sort_key_ge a b = true) (_finalize_registry registry).
Proof. apply sorted_by_sorted; [apply sort_key_ge_total | apply sort_key_ge_trans]. Qed.

Lemma _finalize_registry_In (registry : Dict.t Entry.t) (s : SkillSignal.t) :
  In s (_finalize_registry registry) <->
  exists entry, In entry (Dict.values registry) /\ s = finalize_entry entry.
Proof.
  unfold _finalize_registry. rewrite sorted_by_In, in_map_iff.
  split; intros (e & H1 & H2); exists e; auto.
Qed.

(** ** The builder always returns *)

Section BuilderFacts.
Variable normalize_skill : string -> string.
Variable COMMON_SKILLS : list string.

Lemma fdiv_nonzero (a b : nat) : b <> 0 -> exists q, Float.fdiv a b = Return q.
Proof.
  intros Hb. destruct b as [|b]; [congruence|]. destruct a; simpl; eauto.
Qed.

Lemma align_category_returns (signals : list SkillSignal.t) (item : string * list string) :
  exists a, align_category normalize_skill signals item = Return a.
Proof.
  unfold align_category.
  destruct (set_of_list (map normalize_skill (snd item))) as [|t ts] eqn:Ht.
  - simpl. eauto.
  - destruct (fdiv_nonzero
                (List.length
                   (set_inter
                      (set_of_list
                         (map (fun s => normalize_skill (SkillSignal.name s))
                            (filter (fun s => String.eqb (SkillSignal.category s) (fst item))
                               signals)))
                      (t :: ts)))
                (List.length (t :: ts))) as [q Hq]; [simpl; lia|].
    rewrite Hq. simpl. eauto.
Qed.

Lemma mapM_returns {A B : Type} (f : A -> pyresult B) (l : list A) :
  (forall a, In a l -> exists b, f a = Return b) ->
  exists bs, mapM f l = Return bs /\ Forall2 (fun a b => f a = Return b) l bs.
Proof.
  induction l as [|a l IH]; intros Hf; simpl.
  - exists []. split; [reflexivity | constructor].
  - destruct (Hf a (or_introl eq_refl)) as [b Hb].
    destruct IH as (bs & Hbs & Hall); [intros x Hx; apply Hf; right; exact Hx|].
    exists (b :: bs). rewrite Hb. simpl. rewrite Hbs. simpl.
    split; [reflexivity | constructor; assumption].
Qed.

Lemma _profile_stats_with_returns (framework : Dict.t (list string))
    (signals : list SkillSignal.t) (sources : list SourceDocument.t) :
  exists stats, _profile_stats_with normalize_skill framework signals sources = Return stats.
Proof.
  unfold _profile_stats_with.
  destruct (mapM_returns
              (fun item => a <- align_category normalize_skill signals item ;;
                           Return (fst item, a)) framework) as (rows & Hrows & _).
  { intros item _. destruct (align_category_returns signals item) as [a Ha].
    rewrite Ha. simpl. eauto. }
  rewrite Hrows. simpl. eauto.
Qed.

Lemma build_skill_profile_returns (sources : list (option SourceDocument.t)) :
  exists stats,
    build_skill_profile normalize_skill COMMON_SKILLS sources
    = Return
        (Profile.mk
           (Some (_finalize_registry
                    (build_registry normalize_skill COMMON_SKILLS
                       (usable_sources sources))))
           (Some stats)).
Proof.
  unfold build_skill_profile, _profile_stats.
  destruct (_profile_stats_with_returns FORMAL_SKILL_FRAMEWORK
              (_finalize_registry
                 (build_registry normalize_skill COMMON_SKILLS (usable_sources sources)))
              (usable_sources sources)) as [stats Hs].
  rewrite Hs. simpl. eauto.
Qed.

(** C4.  Whatever the batch of documents, a profile build returns, and no
    signal of the profile carries more than three evidence entries. *)
Theorem evidence_cap (sources : list (option SourceDocument.t)) :
  exists profile,
    build_skill_profile normalize_skill COMMON_SKILLS sources = Return profile
    /\ Forall (fun s => List.length (SkillSignal.evidence s) <= 3) (get_signals profile).
Proof.
  destruct (build_skill_profile_returns sources) as [stats Hb].
  eexists. split; [exact Hb|].
  unfold get_signals. simpl. rewrite Forall_forall. intros s Hs.
  apply _finalize_registry_In in Hs. destruct Hs as (entry & _ & ->).
  change (SkillSignal.evidence (finalize_entry entry))
    with (firstn 3 (Entry.snippets entry)).
  rewrite length_firstn. apply Nat.le_min_l.
Qed.

(** C7.  Whatever the batch of documents, a profile build returns a signal
    sequence in which every signal has a confidence at least that of every
    later signal, and of two signals with the same confidence the earlier
    one has the greater or equal name. *)
Theorem signals_sorted (sources : list (option SourceDocument.t)) :
  exists profile,
    build_skill_profile normalize_skill COMMON_SKILLS sources = Return profile
    /\ StronglySorted
         (fun a b =>
            (SkillSignal.confidence b <= SkillSignal.confidence a)%Z
            /\ (SkillSignal.confidence a = SkillSignal.confidence b ->
                String.leb (SkillSignal.name b) (SkillSignal.name a) = true))
         (get_signals profile).
Proof.
  destruct (build_skill_profile_returns sources) as [stats Hb].
  eexists. split; [exact Hb|].
  unfold get_signals. simpl.
  eapply StronglySorted_weaken; [| apply _finalize_registry_sorted ].
  intros a b Hab. apply sort_key_ge_spec in Hab.
  destruct Hab as [H|[H1 H2]].
  - split; [lia|]. intros Heq. lia.
  - split; [lia|]. intros _. exact H2.
Qed.

End BuilderFacts.

(** ** Team inventories *)

Lemma split1_contains (sep : ascii) (s : string) :
  Str.contains sep s = true ->
  Str.split1 sep s = [before_first sep s; after_first sep s].
Proof.
  induction s as [|c s IH]; simpl; [discriminate|].
  destruct (Ascii.eqb c sep); simpl; [reflexivity|].
  intros H. rewrite (IH H). reflexivity.
Qed.

Lemma filter_map_strip (l : list string) :
  map Str.strip (filter (fun skill => negb (Str.is_empty (Str.strip skill))) l)
  = filter (fun skill => negb (Str.is_empty skill)) (map Str.strip l).
Proof.
  induction l as [|x l IH]; simpl; [reflexivity|].
  destruct (Str.is_empty (Str.strip x)); simpl; rewrite IH; reflexivity.
Qed.

Lemma parse_team_line_spec (line : string) :
  parse_team_line line = Return (team_line_spec line).
Proof.
  unfold parse_team_line, team_line_spec.
  destruct (Str.contains ":" line) eqn:Hc; simpl; [|reflexivity].
  rewrite (split1_contains _ _ Hc). simpl. rewrite filter_map_strip.
  destruct (filter _ _); reflexivity.
Qed.

Lemma parse_team_lines_spec (lines : list string) (profiles : list TeamMember.t) :
  parse_team_lines lines profiles
  = Return (profiles ++ keep_some (map team_line_spec lines)).
Proof.
  revert profiles. induction lines as [|line rest IH]; intros profiles; simpl.
  - rewrite app_nil_r. reflexivity.
  - rewrite parse_team_line_spec. simpl.
    destruct (team_line_spec line) as [m|]; rewrite IH; simpl.
    + rewrite <- app_assoc. reflexivity.
    + reflexivity.
Qed.

Lemma parse_team_profiles_lines (raw_text : string) :
  parse_team_profiles raw_text
  = Return (keep_some (map team_line_spec (Str.splitlines raw_text))).
Proof.
  unfold parse_team_profiles.
  destruct raw_text as [|c raw]; [reflexivity|].
  simpl Str.is_empty. cbv iota. apply parse_team_lines_spec.
Qed.

Lemma has_char_before_first (sep : ascii) (s : string) :
  has_char sep (before_first sep s) = false.
Proof.
  induction s as [|c s IH]; simpl; [reflexivity|].
  destruct (Ascii.eqb c sep) eqn:Hc; simpl; [reflexivity|]. rewrite Hc, IH. reflexivity.
Qed.

Lemma split_pieces (sep : ascii) (s : string) (piece : string) :
  In piece (Str.split sep s) -> has_char sep piece = false.
Proof.
  revert piece. induction s as [|c s IH]; simpl; intros piece.
  - intros [<-|[]]. reflexivity.
  - destruct (Ascii.eqb c sep) eqn:Hc.
    + intros [<-|H]; [reflexivity | apply IH, H].
    + destruct (Str.split sep s) as [|h t] eqn:Hs.
      * intros [<-|[]]. simpl. rewrite Hc. reflexivity.
      * intros [<-|H].
        -- simpl. rewrite Hc. apply IH. left. reflexivity.
        -- apply IH. right. exact H.
Qed.

Lemma split_nonempty (sep : ascii) (s : string) : Str.split sep s <> [].
Proof.
  induction s as [|c s IH]; simpl; [discriminate|].
  destruct (Ascii.eqb c sep); [discriminate|].
  destruct (Str.split sep s); discriminate.
Qed.

(** Joining undoes splitting. *)
Lemma join_split (sep : ascii) (s : string) :
  join (String sep EmptyString) (Str.split sep s) = s.
Proof.
  induction s as [|c s IH]; simpl; [reflexivity|].
  destruct (Ascii.eqb c sep) eqn:Hc.
  - apply Ascii.eqb_eq in Hc. subst c.
    destruct (Str.split sep s) as [|h t] eqn:E; [destruct (split_nonempty _ _ E)|].
    change (join (String sep "") ("" :: h :: t))
      with ("" ++ String sep "" ++ join (String sep "") (h :: t))%string.
    rewrite IH. reflexivity.
  - destruct (Str.split sep s) as [|h t] eqn:E; [destruct (split_nonempty _ _ E)|].
    rewrite <- IH. destruct t; reflexivity.
Qed.

Lemma before_after_first (sep : ascii) (s : string) :
  has_char sep s = true ->
  s = (before_first sep s ++ String sep (after_first sep s))%string.
Proof.
  induction s as [|c s IH]; simpl; [discriminate|].
  destruct (Ascii.eqb c sep) eqn:Hc; simpl.
  - intros _. apply Ascii.eqb_eq in Hc. subst. reflexivity.
  - intros H. rewrite <- (IH H). reflexivity.
Qed.

Lemma contains_has_char (c : ascii) (s : string) : Str.contains c s = has_char c s.
Proof. induction s as [|d s IH]; simpl; [reflexivity | rewrite IH; reflexivity]. Qed.

Lemma colon_line (name blob : string) :
  has_char ":"%char name = false ->
  Str.contains ":"%char (name ++ String ":" blob) = true
  /\ before_first ":"%char (name ++ String ":" blob) = name
  /\ after_first ":"%char (name ++ String ":" blob) = blob.
Proof.
  induction name as [|c name IH]; simpl; intros H; [auto|].
  apply orb_false_iff in H. destruct H as [Hc Hn]. rewrite Hc. simpl.
  destruct (IH Hn) as (H1 & H2 & H3). rewrite H1, H2, H3. auto.
Qed.

Lemma split_piece (sep : ascii) (piece rest : string) :
  has_char sep piece = false ->
  Str.split sep (piece ++ String sep rest) = piece :: Str.split sep rest.
Proof.
  induction piece as [|c piece IH]; simpl; intros H.
  - rewrite Ascii.eqb_refl. reflexivity.
  - apply orb_false_iff in H. destruct H as [Hc Hp]. rewrite Hc, (IH Hp). reflexivity.
Qed.

Lemma split_single (sep : ascii) (piece : string) :
  has_char sep piece = false -> Str.split sep piece = [piece].
Proof.
  induction piece as [|c piece IH]; simpl; intros H; [reflexivity|].
  apply orb_false_iff in H. destruct H as [Hc Hp]. rewrite Hc, (IH Hp). reflexivity.
Qed.

(** Splitting undoes joining. *)
Lemma split_join (sep : ascii) (pieces : list string) :
  pieces <> [] ->
  Forall (fun piece => has_char sep piece = false) pieces ->
  Str.split sep (join (String sep EmptyString) pieces) = pieces.
Proof.
  induction pieces as [|piece rest IH]; [congruence|]. intros _ Hall.
  inversion Hall as [|? ? Hp Hrest]; subst.
  destruct rest as [|next rest]; [apply split_single, Hp|].
  change (join (String sep "") (piece :: next :: rest))
    with (piece ++ String sep (join (String sep "") (next :: rest)))%string.
  rewrite (split_piece _ _ _ Hp), IH; [reflexivity | discriminate | exact Hrest].
Qed.

Lemma filter_strip_blank (pieces : list string) :
  filter (fun skill => negb (Str.is_empty skill)) (map Str.strip pieces)
  = map Str.strip (filter (fun piece => negb (blank piece)) pieces).
Proof.
  induction pieces as [|piece rest IH]; simpl; [reflexivity|].
  rewrite strip_blank. destruct (blank piece); simpl; rewrite IH; reflexivity.
Qed.

Lemma Forall2_trimmed_strip (pieces : list string) :
  Forall2 trimmed pieces (map Str.strip pieces).
Proof. induction pieces; simpl; constructor; [apply strip_trimmed | assumption]. Qed.

Lemma string_of_rev_chars (line : string) (cur : list ascii) :
  string_of_list_ascii (rev (rev (list_ascii_of_string line) ++ cur))
  = (string_of_list_ascii (rev cur) ++ line)%string.
Proof.
  rewrite rev_app_distr, rev_involutive.
  generalize (rev cur). intros l. induction l as [|c l IH]; simpl.
  - apply string_of_list_ascii_of_string.
  - rewrite IH. reflexivity.
Qed.

Lemma splitlines_from_line (line rest : string) (cur : list ascii) :
  one_line line = true ->
  Str.splitlines_from cur (line ++ rest)
  = Str.splitlines_from (rev (list_ascii_of_string line) ++ cur) rest.
Proof.
  revert cur. induction line as [|c line IH]; intros cur H; simpl; [reflexivity|].
  simpl in H. apply andb_true_iff in H. destruct H as [Hc Hl].
  apply negb_true_iff in Hc.
  assert (H13 : (Str.code c =? 13) = false).
  { destruct (Str.code c =? 13) eqn:E; [|reflexivity].
    apply Nat.eqb_eq in E. unfold Str.is_linebreak, Str.in_range in Hc.
    rewrite E in Hc. discriminate. }
  rewrite H13, Hc, (IH _ Hl), <- app_assoc. reflexivity.
Qed.

(** The lines of [str.splitlines]: a text without line boundary is one line
    (none when it is empty); a line ends at the first line boundary, where
    a carriage return followed by a line feed counts as one boundary. *)
Lemma splitlines_spec :
  Str.splitlines EmptyString = []
  /\ (forall line, line <> EmptyString -> one_line line = true ->
        Str.splitlines line = [line])
  /\ (forall line c rest,
        one_line line = true -> Str.is_linebreak c = true ->
        (Str.code c = 13 -> Re.next_char rest <> Some "010"%char) ->
        Str.splitlines (line ++ String c rest) = line :: Str.splitlines rest)
  /\ (forall line rest,
        one_line line = true ->
        Str.splitlines (line ++ String "013" (String "010" rest))
        = line :: Str.splitlines rest).
Proof.
  unfold Str.splitlines. split; [reflexivity|]. split; [|split].
  - intros line Hne Hl.
    rewrite <- (string_app_nil_r line) at 1.
    rewrite (splitlines_from_line _ _ _ Hl). simpl.
    rewrite app_nil_r.
    destruct (rev (list_ascii_of_string line)) as [|c l] eqn:E.
    + destruct line; [congruence|]. simpl in E.
      apply app_eq_nil in E. destruct E as [_ E]. discriminate.
    + rewrite <- E, rev_involutive, string_of_list_ascii_of_string. reflexivity.
  - intros line c rest Hl Hc Hcr.
    rewrite (splitlines_from_line _ _ _ Hl). simpl.
    rewrite (string_of_rev_chars line []). simpl.
    destruct (Str.code c =? 13) eqn:E.
    + apply Nat.eqb_eq in E. specialize (Hcr E).
      destruct rest as [|d rest]; [reflexivity|].
      destruct (Str.code d =? 10) eqn:Ed; [|reflexivity].
      exfalso. apply Hcr. simpl. f_equal.
      apply Nat.eqb_eq in Ed. unfold Str.code in Ed.
      rewrite <- (ascii_nat_embedding d), Ed. reflexivity.
    + rewrite Hc. reflexivity.
  - intros line rest Hl.
    rewrite (splitlines_from_line _ _ _ Hl). simpl.
    rewrite (string_of_rev_chars line []). reflexivity.
Qed.

(** C8.  Parsing a team inventory never raises and returns, in the order of
    the lines of the text, one member for each line that it keeps.  A line
    without colon is skipped.  Every line with a colon reads as
    [name:piece1,...,pieceN] (no colon in [name], no comma in a piece); it
    is skipped when every piece is whitespace only; otherwise its member has
    the name [name] without the whitespace at its two ends and, as skills,
    the pieces that are not whitespace only, in order, each without the
    whitespace at its two ends.  The lines are
    those of [str.splitlines].  The three-line inventory of the
    specification yields Asha with two skills and Kofi with one, and an
    untidy inventory is read the same way. *)
Theorem parse_team_profiles_spec :
  (forall raw_text,
      parse_team_profiles raw_text
      = Return (keep_some (map team_line_spec (Str.splitlines raw_text))))
  /\ (forall line, has_char ":"%char line = false -> team_line_spec line = None)
  /\ (forall line,
        has_char ":"%char line = true ->
        exists name pieces,
          line = (name ++ ":" ++ join "," pieces)%string
          /\ has_char ":"%char name = false
          /\ pieces <> []
          /\ Forall (fun piece => has_char ","%char piece = false) pieces)
  /\ (forall name pieces,
        has_char ":"%char name = false ->
        pieces <> [] ->
        Forall (fun piece => has_char ","%char piece = false) pieces ->
        let line := (name ++ ":" ++ join "," pieces)%string in
        let kept := filter (fun piece => negb (blank piece)) pieces in
        (kept = [] -> team_line_spec line = None)
        /\ (kept <> [] ->
            exists member skills,
              team_line_spec line = Some member
              /\ trimmed name (TeamMember.name member)
              /\ TeamMember.skills member = Some skills
              /\ Forall2 trimmed kept skills))
  /\ (Str.splitlines EmptyString = []
      /\ (forall line, line <> EmptyString -> one_line line = true ->
            Str.splitlines line = [line])
      /\ (forall line c rest,
            one_line line = true -> Str.is_linebreak c = true ->
            (Str.code c = 13 -> Re.next_char rest <> Some "010"%char) ->
            Str.splitlines (line ++ String c rest) = line :: Str.splitlines rest)
      /\ (forall line rest,
            one_line line = true ->
            Str.splitlines (line ++ String "013" (String "010" rest))
            = line :: Str.splitlines rest))
  /\ parse_team_profiles "Asha: cloud, security
BadLine
Kofi: python"
     = Return [ TeamMember.mk "Asha" (Some ["cloud"; "security"]);
                TeamMember.mk "Kofi" (Some ["python"]) ]
  /\ parse_team_profiles team_text_untidy
     = Return [ TeamMember.mk "Asha" (Some ["cloud"; "security"]);
                TeamMember.mk "Kofi" (Some ["python"]);
                TeamMember.mk "Lin" (Some ["go"]) ].
Proof.
  split; [exact parse_team_profiles_lines|].
  split.
  { intros line H. unfold team_line_spec. rewrite contains_has_char, H. reflexivity. }
  split.
  { intros line H.
    exists (before_first ":"%char line), (Str.split ","%char (after_first ":"%char line)).
    split; [|split; [apply has_char_before_first|split; [apply split_nonempty|]]].
    - rewrite join_split. apply (before_after_first _ _ H).
    - apply Forall_forall. intros piece. apply split_pieces. }
  split.
  { intros name pieces Hname Hne Hpieces line kept.
    destruct (colon_line name (join "," pieces) Hname) as (Hc & Hb & Ha).
    assert (Hskills :
      filter (fun skill => negb (Str.is_empty skill))
        (map Str.strip (Str.split ","%char (after_first ":"%char line)))
      = map Str.strip kept).
    { change (after_first ":"%char line) with
        (after_first ":"%char (name ++ String ":" (join "," pieces))).
      rewrite Ha, (split_join _ _ Hne Hpieces). apply filter_strip_blank. }
    change (name ++ String ":" (join "," pieces))%string with line in Hc, Hb, Ha.
    unfold team_line_spec. rewrite Hc, Hskills, Hb. clear Hskills. clearbody kept.
    split.
    - intros ->. reflexivity.
    - intros Hk. destruct kept as [|piece rest]; [congruence|].
      eexists. eexists. split; [reflexivity|]. cbn [TeamMember.name TeamMember.skills].
      split; [apply strip_trimmed|]. split; [reflexivity|].
      exact (Forall2_trimmed_strip (piece :: rest)). }
  split; [exact splitlines_spec|].
  split; vm_compute; reflexivity.
Qed.

(** ** Dictionaries *)

Section DictFacts.
Context {V : Type}.
Implicit Types (d : Dict.t V) (k : string) (v : V).

Lemma dict_get_In d k v : Dict.get d k = Some v -> In (k, v) d.
Proof.
  induction d as [|[k' v'] d IH]; simpl; [discriminate|].
  destruct (String.eqb_spec k' k) as [->|Hne].
  - intros [= ->]. left. reflexivity.
  - intros H. right. apply IH, H.
Qed.

Lemma dict_In_get d k v : NoDup (Dict.keys d) -> In (k, v) d -> Dict.get d k = Some v.
Proof.
  induction d as [|[k' v'] d IH]; simpl; [intros _ []|].
  intros Hnd [Heq|Hin].
  - injection Heq as -> ->. rewrite String.eqb_refl. reflexivity.
  - inversion Hnd as [|? ? Hk Hd]; subst.
    destruct (String.eqb_spec k' k) as [->|Hne].
    + exfalso. apply Hk. change k with (fst (k, v)). apply in_map, Hin.
    + apply IH; assumption.
Qed.

Lemma dict_get_None d k : Dict.get d k = None <-> ~ In k (Dict.keys d).
Proof.
  induction d as [|[k' v'] d IH]; simpl; [tauto|].
  destruct (String.eqb_spec k' k) as [->|Hne].
  - split; [discriminate | intros H; exfalso; apply H; auto].
  - rewrite IH. split; [intros H [Heq|Hin]; auto | intros H Hin; apply H; auto].
Qed.

Lemma dict_mem_In d k : Dict.mem d k = true <-> In k (Dict.keys d).
Proof.
  unfold Dict.mem. destruct (Dict.get d k) eqn:Hg.
  - split; [intros _ | reflexivity].
    apply dict_get_In in Hg. change k with (fst (k, v)). apply in_map, Hg.
  - apply dict_get_None in Hg. split; [discriminate | contradiction].
Qed.

Lemma dict_set_keys d k v :
  Dict.keys (Dict.set d k v) = if Dict.mem d k then Dict.keys d else Dict.keys d ++ [k].
Proof.
  unfold Dict.mem. induction d as [|[k' v'] d IH]; simpl; [reflexivity|].
  destruct (String.eqb k' k); simpl; [reflexivity|].
  rewrite IH. destruct (Dict.get d k); reflexivity.
Qed.

Lemma dict_set_NoDup d k v : NoDup (Dict.keys d) -> NoDup (Dict.keys (Dict.set d k v)).
Proof.
  intros Hnd. rewrite dict_set_keys. destruct (Dict.mem d k) eqn:Hm; [exact Hnd|].
  assert (Hk : ~ In k (Dict.keys d)).
  { intros Hin. apply dict_mem_In in Hin. congruence. }
  apply NoDup_rev in Hnd. rewrite <- (rev_involutive (Dict.keys d ++ [k])).
  apply NoDup_rev. rewrite rev_app_distr. simpl. constructor; [|exact Hnd].
  rewrite <- in_rev. exact Hk.
Qed.

Lemma dict_set_In d k v k' v' :
  In (k', v') (Dict.set d k v) -> (k' = k /\ v' = v) \/ In (k', v') d.
Proof.
  induction d as [|[k0 v0] d IH]; simpl.
  - intros [[= <- <-]|[]]. auto.
  - destruct (String.eqb_spec k0 k) as [->|Hne]; simpl.
    + intros [[= <- <-]|H]; auto.
    + intros [H|H]; [auto|]. destruct (IH H); auto.
Qed.

Lemma dict_get_set_same d k v : Dict.get (Dict.set d k v) k = Some v.
Proof.
  induction d as [|[k0 v0] d IH]; simpl.
  - rewrite String.eqb_refl. reflexivity.
  - destruct (String.eqb k0 k) eqn:He; simpl; rewrite He; [reflexivity | exact IH].
Qed.

Lemma dict_get_set_other d k v k' : k' <> k -> Dict.get (Dict.set d k v) k' = Dict.get d k'.
Proof.
  intros Hne. induction d as [|[k0 v0] d IH]; simpl.
  - destruct (String.eqb_spec k k'); [congruence | reflexivity].
  - destruct (String.eqb_spec k0 k) as [->|Hne0]; simpl.
    + destruct (String.eqb_spec k k'); [congruence | reflexivity].
    + destruct (String.eqb k0 k'); [reflexivity | exact IH].
Qed.

Lemma dict_of_items_fold_NoDup (items d : list (string * V)) :
  NoDup (map fst (d ++ items)) ->
  fold_left (fun d kv => Dict.set d (fst kv) (snd kv)) items d = d ++ items.
Proof.
  revert d. induction items as [|[k v] items IH]; intros d Hnd; simpl.
  - rewrite app_nil_r. reflexivity.
  - assert (Hset : Dict.set d k v = d ++ [(k, v)]).
    { assert (Hk : ~ In k (map fst d)).
      { rewrite map_app in Hnd. simpl in Hnd. apply NoDup_remove_2 in Hnd.
        intros Hin. apply Hnd. apply in_or_app. auto. }
      clear -Hk. induction d as [|[k0 v0] d IHd]; simpl; [reflexivity|].
      destruct (String.eqb_spec k0 k) as [->|Hne].
      - exfalso. apply Hk. left. reflexivity.
      - rewrite IHd; [reflexivity|]. intros Hin. apply Hk. right. exact Hin. }
    rewrite Hset. rewrite IH; rewrite <- app_assoc; simpl; [reflexivity | exact Hnd].
Qed.

Lemma dict_of_items_NoDup (items : list (string * V)) :
  NoDup (map fst items) -> Dict.of_items items = items.
Proof. intros H. unfold Dict.of_items. rewrite dict_of_items_fold_NoDup; auto. Qed.

Lemma dict_of_items_fold_keys_NoDup (items d : list (string * V)) :
  NoDup (Dict.keys d) ->
  NoDup (Dict.keys (fold_left (fun d kv => Dict.set d (fst kv) (snd kv)) items d)).
Proof.
  revert d. induction items as [|kv items IH]; intros d Hd; simpl; [exact Hd|].
  apply IH, dict_set_NoDup, Hd.
Qed.

Lemma dict_of_items_keys_NoDup (items : list (string * V)) :
  NoDup (Dict.keys (Dict.of_items items)).
Proof. apply dict_of_items_fold_keys_NoDup. constructor. Qed.

End DictFacts.

(** ** Registry invariants *)

Lemma fold_left_preserves {A B : Type} (P : A -> Prop) (f : A -> B -> A) (l : list B) :
  (forall a b, P a -> P (f a b)) -> forall a, P a -> P (fold_left f l a).
Proof.
  intros Hf. induction l as [|b l IH]; intros a Ha; simpl; [exact Ha|].
  apply IH, Hf, Ha.
Qed.

Section RegistryFacts.
Variable normalize_skill : string -> string.
Variable COMMON_SKILLS : list string.

Lemma _register_signal_wf registry name category signal_type source snippet :
  registry_wf normalize_skill registry ->
  registry_wf normalize_skill
    (_register_signal normalize_skill registry name category signal_type source snippet).
Proof.
  intros [Hnd Hkeys]. unfold _register_signal. split.
  - apply dict_set_NoDup, Hnd.
  - intros k e Hin. apply dict_set_In in Hin. destruct Hin as [[-> ->]|Hin].
    + simpl. destruct (Dict.get registry (normalize_skill name)) as [e0|] eqn:Hg.
      * apply dict_get_In in Hg. apply Hkeys, Hg.
      * reflexivity.
    + apply Hkeys, Hin.
Qed.

Lemma explicit_pass_wf registry source :
  registry_wf normalize_skill registry ->
  registry_wf normalize_skill (explicit_pass normalize_skill COMMON_SKILLS registry source).
Proof.
  unfold explicit_pass. apply fold_left_preserves. intros reg skill.
  apply fold_left_preserves. intros reg' span. apply _register_signal_wf.
Qed.

Lemma implicit_pass_wf registry source :
  registry_wf normalize_skill registry ->
  registry_wf normalize_skill (implicit_pass normalize_skill registry source).
Proof.
  unfold implicit_pass. apply fold_left_preserves. intros reg item.
  apply fold_left_preserves. intros reg' pattern.
  apply fold_left_preserves. intros reg'' span. apply _register_signal_wf.
Qed.

Lemma build_registry_wf sources :
  registry_wf normalize_skill (build_registry normalize_skill COMMON_SKILLS sources).
Proof.
  unfold build_registry. apply fold_left_preserves.
  - intros reg source Hreg. apply implicit_pass_wf, explicit_pass_wf, Hreg.
  - split; [constructor | intros k e []].
Qed.

Lemma registry_wf_keys registry :
  registry_wf normalize_skill registry ->
  map (fun e => normalize_skill (Entry.name e)) (Dict.values registry) = Dict.keys registry.
Proof.
  intros [_ Hkeys]. unfold Dict.values, Dict.keys.
  induction registry as [|[k e] reg IH]; simpl; [reflexivity|].
  rewrite (Hkeys k e (or_introl eq_refl)). f_equal.
  apply IH. intros k' e' Hin. apply Hkeys. right. exact Hin.
Qed.

(** The signals of a finalized registry carry pairwise distinct normalized
    names. *)
Lemma _finalize_registry_keys_NoDup registry :
  registry_wf normalize_skill registry ->
  NoDup (map (fun s => normalize_skill (SkillSignal.name s)) (_finalize_registry registry)).
Proof.
  intros Hwf.
  assert (Hp : Permutation
                 (map (fun s => normalize_skill (SkillSignal.name s))
                    (_finalize_registry registry))
                 (Dict.keys registry)).
  { rewrite <- (registry_wf_keys registry Hwf).
    unfold _finalize_registry.
    eapply perm_trans; [apply Permutation_map, sorted_by_perm|].
    rewrite map_map. apply Permutation_refl. }
  eapply Permutation_NoDup; [apply Permutation_sym, Hp | apply Hwf].
Qed.

(** Every profile the builder returns has one signal per normalized name. *)
Lemma build_skill_profile_keys_NoDup sources profile :
  build_skill_profile normalize_skill COMMON_SKILLS sources = Return profile ->
  NoDup (map (fun s => normalize_skill (SkillSignal.name s)) (get_signals profile)).
Proof.
  destruct (build_skill_profile_returns normalize_skill COMMON_SKILLS sources) as [stats Hb].
  rewrite Hb. intros [= <-]. unfold get_signals. simpl.
  apply _finalize_registry_keys_NoDup, build_registry_wf.
Qed.

Lemma as_skill_set_NoDup signals :
  NoDup (map (fun s => normalize_skill (SkillSignal.name s)) signals) ->
  as_skill_set normalize_skill signals
  = map (fun s => (normalize_skill (SkillSignal.name s), s)) signals.
Proof.
  intros H. unfold as_skill_set. apply dict_of_items_NoDup.
  rewrite map_map. simpl. exact H.
Qed.

End RegistryFacts.

(** ** Comparison with a team *)

Lemma filter_all {A : Type} (f : A -> bool) (l : list A) :
  (forall a, In a l -> f a = true) -> filter f l = l.
Proof.
  induction l as [|a l IH]; intros H; simpl; [reflexivity|].
  rewrite (H a (or_introl eq_refl)). f_equal. apply IH. intros x Hx. apply H. right. exact Hx.
Qed.

Lemma flat_map_get_keys {V W : Type} (f : V -> W) (d l : Dict.t V) :
  NoDup (Dict.keys d) -> (forall kv, In kv l -> In kv d) ->
  flat_map
    (fun key => match Dict.get d key with
                | Some v => [f v]
                | None => []
                end) (Dict.keys l)
  = map (fun kv => f (snd kv)) l.
Proof.
  intros Hnd. induction l as [|[k v] l IH]; intros Hin; simpl; [reflexivity|].
  rewrite (dict_In_get d k v Hnd (Hin _ (or_introl eq_refl))). simpl. f_equal.
  apply IH. intros kv Hkv. apply Hin. right. exact Hkv.
Qed.

(** ** CV highlights *)

Lemma highlight_spec (signal : SkillSignal.t) : highlight signal = Return (bullet_spec signal).
Proof.
  unfold highlight, bullet_spec, bullet_head.
  destruct (SkillSignal.evidence signal) as [|e rest]; simpl; [reflexivity|].
  destruct (Str.is_empty (SkillEvidence.snippet e)); reflexivity.
Qed.

Lemma generate_cv_highlights_spec (skill_profile : Profile.t) (limit : Z) :
  generate_cv_highlights skill_profile limit
  = Return (map bullet_spec (slice_to (get_signals skill_profile) limit)).
Proof.
  unfold generate_cv_highlights. apply mapM_total. intros s _. apply highlight_spec.
Qed.

(** C10, as amended.  For every profile and every limit that is not
    negative, the generator returns without raising exactly
    [min(limit, number of signals)] bullets, hence at most [limit], one for
    each leading signal in the profile's order; a signal without evidence
    gets the bullet without an evidence clause. *)
Theorem generate_cv_highlights_bound (skill_profile : Profile.t) (limit : Z) :
  (0 <= limit)%Z ->
  exists bullets,
    generate_cv_highlights skill_profile limit = Return bullets
    /\ bullets = map bullet_spec (firstn (Z.to_nat limit) (get_signals skill_profile))
    /\ List.length bullets = Nat.min (Z.to_nat limit) (List.length (get_signals skill_profile))
    /\ (Z.of_nat (List.length bullets) <= limit)%Z
    /\ forall signal, SkillSignal.evidence signal = [] ->
                      highlight signal = Return (bullet_head signal).
Proof.
  intros Hlimit. eexists. split; [apply generate_cv_highlights_spec|].
  assert (Hslice : slice_to (get_signals skill_profile) limit
                   = firstn (Z.to_nat limit) (get_signals skill_profile)).
  { unfold slice_to. destruct (Z.leb_spec 0 limit); [reflexivity | lia]. }
  rewrite Hslice. split; [reflexivity|].
  rewrite length_map, length_firstn. split; [reflexivity|]. split; [lia|].
  intros signal Hev. rewrite highlight_spec. unfold bullet_spec. rewrite Hev. reflexivity.
Qed.

(** With a negative limit the slice keeps all signals but the last
    [-limit]. *)
Lemma generate_cv_highlights_negative (skill_profile : Profile.t) (limit : Z) :
  (limit < 0)%Z ->
  generate_cv_highlights skill_profile limit
  = Return (map bullet_spec
              (firstn (List.length (get_signals skill_profile) - Z.to_nat (- limit))
                 (get_signals skill_profile))).
Proof.
  intros Hlimit. rewrite generate_cv_highlights_spec. unfold slice_to.
  destruct (Z.leb_spec 0 limit); [lia | reflexivity].
Qed.

(** ** Matching a profile against a job *)

Lemma dict_of_items_fold_keys_In {V : Type} (items d : list (string * V)) (k : string) :
  In k (Dict.keys (fold_left (fun d kv => Dict.set d (fst kv) (snd kv)) items d))
  <-> In k (Dict.keys d) \/ In k (map fst items).
Proof.
  revert d. induction items as [|[k0 v0] items IH]; intros d; simpl.
  - tauto.
  - rewrite IH, dict_set_keys. simpl.
    destruct (Dict.mem d k0) eqn:Hm.
    + apply dict_mem_In in Hm. split; [tauto|]. intros [H|[<-|H]]; auto.
    + rewrite in_app_iff. simpl. tauto.
Qed.

Lemma dict_of_items_keys_In {V : Type} (items : list (string * V)) (k : string) :
  In k (Dict.keys (Dict.of_items items)) <-> In k (map fst items).
Proof. unfold Dict.of_items. rewrite dict_of_items_fold_keys_In. simpl. tauto. Qed.

Lemma filter_map_comm {A B : Type} (f : B -> bool) (g : A -> B) (l : list A) :
  filter f (map g l) = map g (filter (fun a => f (g a)) l).
Proof.
  induction l as [|a l IH]; simpl; [reflexivity|].
  destruct (f (g a)); simpl; rewrite IH; reflexivity.
Qed.

Lemma string_ltb_of_leb (a b : string) :
  String.leb a b = true -> a <> b -> String.ltb a b = true.
Proof.
  unfold String.leb, String.ltb. destruct (String.compare a b) eqn:Hc; try congruence.
  intros _ Hne. apply String.compare_eq_iff in Hc. contradiction.
Qed.

Lemma StronglySorted_strict (l : list string) :
  StronglySorted (fun a b => String.leb a b = true) l -> NoDup l ->
  StronglySorted (fun a b => String.ltb a b = true) l.
Proof.
  induction 1 as [|x l Hs IH Hx]; intros Hnd; [constructor|].
  inversion Hnd as [|? ? Hnin Hnd']; subst.
  constructor; [apply IH, Hnd'|].
  rewrite Forall_forall in *. intros y Hy.
  apply string_ltb_of_leb; [apply Hx, Hy|]. intros ->. contradiction.
Qed.

(** [sorted(set(l))] is strictly ascending and has the elements of [l]. *)
Lemma sorted_set_strict (l : list string) :
  StronglySorted (fun a b => String.ltb a b = true) (sorted_str (set_of_list l)).
Proof.
  apply StronglySorted_strict; [apply sorted_str_sorted|].
  eapply Permutation_NoDup; [apply Permutation_sym, sorted_by_perm | apply set_of_list_NoDup].
Qed.

Lemma sorted_set_In (l : list string) (x : string) :
  In x (sorted_str (set_of_list l)) <-> In x l.
Proof. unfold sorted_str. rewrite sorted_by_In. apply set_of_list_In. Qed.

Lemma strip_nonempty (s : string) :
  Str.is_empty (Str.strip s) = false -> Str.is_empty s = false.
Proof. destruct s; [simpl; congruence | reflexivity]. Qed.

Section MatchFacts.
Variable normalize_skill : string -> string.
Variable COMMON_SKILLS : list string.
Variable get_learning_resources : list string -> Dict.t string.

Let key_of (s : SkillSignal.t) : string := normalize_skill (SkillSignal.name s).

Lemma as_skill_set_mem (signals : list SkillSignal.t) (k : string) :
  Dict.mem (as_skill_set normalize_skill signals) k = set_mem k (map key_of signals).
Proof.
  apply eq_true_iff_eq. rewrite dict_mem_In, set_mem_In.
  unfold as_skill_set. rewrite dict_of_items_keys_In, map_map. simpl. reflexivity.
Qed.

Lemma match_profile_to_job_unfold (skill_profile job_profile : Profile.t) (job_text : string) :
  Str.is_empty (Str.strip job_text) = false ->
  build_skill_profile normalize_skill COMMON_SKILLS [Some (job_source job_text)]
  = Return job_profile ->
  let job := get_signals job_profile in
  let cand := map key_of (get_signals skill_profile) in
  let hits := filter (fun s => set_mem (key_of s) cand) job in
  let misses := filter (fun s => negb (set_mem (key_of s) cand)) job in
  match_profile_to_job normalize_skill COMMON_SKILLS get_learning_resources
    skill_profile job_text
  = match job with
    | [] => Return (Some (JobMatchResult.mk 0%Z [] [] [] job_profile))
    | _ :: _ =>
        coverage <- Float.fdiv (List.length hits) (List.length job) ;;
        Return
          (Some
             (JobMatchResult.mk (Float.round2 coverage)
                (sorted_str (set_of_list (map SkillSignal.name hits)))
                (sorted_str (set_of_list (map SkillSignal.name misses)))
                (get_learning_resources (map SkillSignal.name misses))
                job_profile))
    end.
Proof.
  intros Hne Hb job cand hits misses.
  unfold match_profile_to_job.
  rewrite Hne, (strip_nonempty _ Hne). simpl orb. cbv iota.
  unfold job_source in Hb. cbv zeta. rewrite Hb. simpl bind.
  rewrite (as_skill_set_NoDup normalize_skill (get_signals job_profile))
    by (eapply build_skill_profile_keys_NoDup; exact Hb).
  fold job.
  assert (Hhits :
    map (fun kv : string * SkillSignal.t => SkillSignal.name (snd kv))
      (filter (fun kv => Dict.mem (as_skill_set normalize_skill (get_signals skill_profile)) (fst kv))
         (map (fun s => (normalize_skill (SkillSignal.name s), s)) job))
    = map SkillSignal.name hits).
  { rewrite filter_map_comm, map_map. simpl. unfold hits. f_equal.
    apply filter_ext. intros s. apply as_skill_set_mem. }
  assert (Hmiss :
    map (fun kv : string * SkillSignal.t => SkillSignal.name (snd kv))
      (filter (fun kv => negb (Dict.mem (as_skill_set normalize_skill (get_signals skill_profile)) (fst kv)))
         (map (fun s => (normalize_skill (SkillSignal.name s), s)) job))
    = map SkillSignal.name misses).
  { rewrite filter_map_comm, map_map. simpl. unfold misses. f_equal.
    apply filter_ext. intros s. f_equal. apply as_skill_set_mem. }
  rewrite Hhits, Hmiss, !length_map.
  destruct job as [|s0 rest]; reflexivity.
Qed.

Lemma match_nonempty {A B : Type} (l : list A) (a b : B) :
  l <> [] -> match l with [] => a | _ :: _ => b end = b.
Proof. destruct l; [contradiction | reflexivity]. Qed.

Lemma match_profile_to_job_blank (skill_profile : Profile.t) (job_text : string) :
  Str.is_empty (Str.strip job_text) = true ->
  match_profile_to_job normalize_skill COMMON_SKILLS get_learning_resources
    skill_profile job_text = Return None.
Proof.
  intros H. unfold match_profile_to_job. rewrite H, orb_true_r. reflexivity.
Qed.

(** C5.  Matching against job text that is empty or made of whitespace
    characters only returns [None]; matching against other job text builds
    the job profile and, when that profile has no signal, returns a result
    with coverage 0, no matched skills, no gaps and no recommendations; and
    the matcher returns without raising on every input. *)
Theorem match_profile_to_job_degenerate (skill_profile : Profile.t) (job_text : string) :
  (blank job_text = true ->
   match_profile_to_job normalize_skill COMMON_SKILLS get_learning_resources
     skill_profile job_text = Return None)
  /\ (blank job_text = false ->
      exists job_profile,
        build_skill_profile normalize_skill COMMON_SKILLS [Some (job_source job_text)]
        = Return job_profile
        /\ (get_signals job_profile = [] ->
            match_profile_to_job normalize_skill COMMON_SKILLS get_learning_resources
              skill_profile job_text
            = Return (Some (JobMatchResult.mk 0%Z [] [] [] job_profile))))
  /\ exists result,
       match_profile_to_job normalize_skill COMMON_SKILLS get_learning_resources
         skill_profile job_text = Return result.
Proof.
  rewrite <- strip_blank.
  split; [apply match_profile_to_job_blank|].
  destruct (build_skill_profile_returns normalize_skill COMMON_SKILLS
              [Some (job_source job_text)]) as [stats Hb].
  split.
  - intros Hne. eexists. split; [exact Hb|]. intros Hnil.
    rewrite (match_profile_to_job_unfold _ _ _ Hne Hb). rewrite Hnil. reflexivity.
  - destruct (Str.is_empty (Str.strip job_text)) eqn:Hne.
    + eexists. apply match_profile_to_job_blank, Hne.
    + rewrite (match_profile_to_job_unfold _ _ _ Hne Hb).
      destruct (get_signals _) as [|s0 rest] eqn:Hjob; [eauto|].
      destruct (fdiv_nonzero
                  (List.length
                     (filter (fun s => set_mem (key_of s)
                                         (map key_of (get_signals skill_profile)))
                        (s0 :: rest)))
                  (List.length (s0 :: rest))) as [q Hq]; [simpl; lia|].
      rewrite Hq. simpl. eauto.
Qed.

(** C6.  For job text that is not blank and whose job profile has at least
    one signal, the matcher returns a result in which [matched] holds exactly
    the names of the job signals whose normalized key is among the
    candidate's normalized names and [gaps] exactly the names of the others,
    both strictly ascending (sorted, without duplicates); the job signals
    have pairwise distinct keys, and the coverage is the binary64 quotient of
    the number of matched job signals by the number of job signals, rounded
    to two decimals: 0.75 for three matched out of four. *)
Theorem match_profile_to_job_spec (skill_profile : Profile.t) (job_text : string) :
  Str.is_empty (Str.strip job_text) = false ->
  exists job_profile,
    build_skill_profile normalize_skill COMMON_SKILLS [Some (job_source job_text)]
    = Return job_profile
    /\ (get_signals job_profile <> [] ->
        let job := get_signals job_profile in
        let cand := map key_of (get_signals skill_profile) in
        let hits := filter (fun s => set_mem (key_of s) cand) job in
        exists r q,
          match_profile_to_job normalize_skill COMMON_SKILLS get_learning_resources
            skill_profile job_text = Return (Some r)
          /\ (forall n, In n (JobMatchResult.matched r) <->
                        exists s, In s job /\ SkillSignal.name s = n /\ In (key_of s) cand)
          /\ (forall n, In n (JobMatchResult.gaps r) <->
                        exists s, In s job /\ SkillSignal.name s = n /\ ~ In (key_of s) cand)
          /\ StronglySorted (fun a b => String.ltb a b = true) (JobMatchResult.matched r)
          /\ StronglySorted (fun a b => String.ltb a b = true) (JobMatchResult.gaps r)
          /\ NoDup (map key_of job)
          /\ Float.fdiv (List.length hits) (List.length job) = Return q
          /\ JobMatchResult.coverage r = Float.round2 q
          /\ (List.length job = 4 -> List.length hits = 3 ->
              JobMatchResult.coverage r = 75%Z)).
Proof.
  intros Hne.
  destruct (build_skill_profile_returns normalize_skill COMMON_SKILLS
              [Some (job_source job_text)]) as [stats Hb].
  match type of Hb with _ = Return ?p => set (job_profile := p) in * end.
  clearbody job_profile.
  exists job_profile. split; [exact Hb|]. intros Hjob job cand hits.
  pose proof (match_profile_to_job_unfold skill_profile _ _ Hne Hb) as Hm.
  cbv zeta in Hm. fold job cand hits in Hm.
  assert (Hlen : List.length job <> 0).
  { intros H0. apply Hjob. apply length_zero_iff_nil. exact H0. }
  destruct (fdiv_nonzero (List.length hits) (List.length job) Hlen) as [q Hq].
  rewrite (match_nonempty job _ _ Hjob), Hq in Hm. simpl bind in Hm.
  eexists. exists q. split; [exact Hm|]. simpl.
  split; [|split; [|split; [|split; [|split; [|split; [|split]]]]]].
  - intros n. rewrite sorted_set_In, in_map_iff. split.
    + intros (s & Hn & Hs). unfold hits in Hs. apply filter_In in Hs.
      destruct Hs as [Hs Hmem]. apply set_mem_In in Hmem. eauto.
    + intros (s & Hs & Hn & Hmem). exists s. split; [exact Hn|].
      unfold hits. apply filter_In. split; [exact Hs | apply set_mem_In, Hmem].
  - intros n. rewrite sorted_set_In, in_map_iff. split.
    + intros (s & Hn & Hs). apply filter_In in Hs.
      destruct Hs as [Hs Hmem]. apply negb_true_iff, set_mem_false in Hmem. eauto.
    + intros (s & Hs & Hn & Hmem). exists s. split; [exact Hn|].
      apply filter_In. split; [exact Hs | apply negb_true_iff, set_mem_false, Hmem].
  - apply sorted_set_strict.
  - apply sorted_set_strict.
  - eapply build_skill_profile_keys_NoDup. exact Hb.
  - exact Hq.
  - reflexivity.
  - intros H4 H3. rewrite H4, H3 in Hq. injection Hq as <-. vm_compute. reflexivity.
Qed.

End MatchFacts.

(** ** Framework alignment *)

Lemma Forall2_In_l {A B : Type} (R : A -> B -> Prop) (l : list A) (l' : list B) (x : A) :
  Forall2 R l l' -> In x l -> exists y, In y l' /\ R x y.
Proof.
  induction 1 as [|a b l l' Hab Hall IH]; simpl; [intros []|].
  intros [<-|Hin].
  - exists b. auto.
  - destruct (IH Hin) as (y & Hy & HR). exists y. auto.
Qed.

Lemma Forall2_map_eq {A B C : Type} (R : A -> B -> Prop) (f : A -> C) (g : B -> C)
    (l : list A) (l' : list B) :
  (forall a b, R a b -> f a = g b) -> Forall2 R l l' -> map f l = map g l'.
Proof.
  intros H. induction 1 as [|a b l l' Hab Hall IH]; simpl; [reflexivity|].
  rewrite (H a b Hab), IH. reflexivity.
Qed.

Lemma small_quotients_exact_15 : small_quotients_exact 15 = true.
Proof. vm_compute. reflexivity. Qed.

(** Up to 15 targets, the cents of the quotient are those of the exact
    ratio rounded half to even. *)
Lemma quotient_cents_exact (a b : nat) :
  0 < b <= 15 -> a <= b ->
  quotient_cents a b = Float.round_half_even (100 * Z.of_nat a) (Z.of_nat b).
Proof.
  intros Hb Ha. pose proof small_quotients_exact_15 as H.
  unfold small_quotients_exact in H. rewrite forallb_forall in H.
  specialize (H b). rewrite forallb_forall in H.
  apply Z.eqb_eq. apply H; apply in_seq; lia.
Qed.

Section AlignmentFacts.
Variable normalize_skill : string -> string.

Lemma align_category_spec (signals : list SkillSignal.t) (item : string * list string)
    (a : Alignment.t) :
  align_category normalize_skill signals item = Return a ->
  let targets := category_targets normalize_skill (snd item) in
  let covered := category_covered normalize_skill signals (fst item) in
  Alignment.target_total a = List.length targets
  /\ Alignment.covered a = sorted_str (set_of_list (set_inter covered targets))
  /\ (targets = [] -> Alignment.coverage a = 0%Z)
  /\ (targets <> [] ->
      exists q, Float.fdiv (List.length (set_inter covered targets)) (List.length targets)
                = Return q
                /\ Alignment.coverage a = Float.round2 q).
Proof.
  intros H targets covered. unfold align_category in H.
  fold (category_targets normalize_skill (snd item)) in H.
  fold (category_covered normalize_skill signals (fst item)) in H.
  fold targets covered in H.
  destruct targets as [|t ts] eqn:Ht.
  - simpl in H. injection H as <-. simpl.
    repeat split; try reflexivity. intros Hne. contradiction.
  - apply bind_Return_inv in H. destruct H as (q & Hq & Ha). injection Ha as <-.
    simpl. repeat split; try reflexivity; [discriminate|].
    intros _. exists q. split; [exact Hq | reflexivity].
Qed.

(** C3.  For every framework table (a dictionary: no category twice), every
    signal list and every source list, the statistics are computed without
    raising, and for every category of the table the alignment entry reports
    as coverage the size of the intersection of the normalized covered skills
    with the normalized targets, divided in binary64 by the number of
    targets, rounded to two decimals; with no target the coverage is 0; with
    at most 15 targets (every category of the framework at hand) the
    coverage is the exact ratio rounded to two decimals, ties to even. *)
Theorem framework_coverage_spec (framework : Dict.t (list string))
    (signals : list SkillSignal.t) (sources : list SourceDocument.t) :
  NoDup (Dict.keys framework) ->
  exists stats,
    _profile_stats_with normalize_skill framework signals sources = Return stats
    /\ forall category skills,
        In (category, skills) framework ->
        let targets := category_targets normalize_skill skills in
        let covered := category_covered normalize_skill signals category in
        let common := set_inter covered targets in
        exists a,
          Dict.get (ProfileStats.framework_alignment stats) category = Some a
          /\ Alignment.target_total a = List.length targets
          /\ (targets = [] -> Alignment.coverage a = 0%Z)
          /\ (targets <> [] ->
              exists q, Float.fdiv (List.length common) (List.length targets) = Return q
                        /\ Alignment.coverage a = Float.round2 q)
          /\ (0 < List.length targets <= 15 ->
              Alignment.coverage a
              = Float.round_half_even (100 * Z.of_nat (List.length common))
                  (Z.of_nat (List.length targets))).
Proof.
  intros Hnd. unfold _profile_stats_with.
  destruct (mapM_returns
              (fun item => a <- align_category normalize_skill signals item ;;
                           Return (fst item, a)) framework) as (rows & Hrows & Hall).
  { intros item _. destruct (align_category_returns normalize_skill signals item) as [a Ha].
    rewrite Ha. simpl. eauto. }
  rewrite Hrows. simpl bind. eexists. split; [reflexivity|].
  cbn [ProfileStats.framework_alignment].
  intros category skills Hin. cbv zeta.
  assert (Hkeys : map fst framework = map fst rows).
  { eapply Forall2_map_eq; [|exact Hall]. intros item row Hrow. simpl in Hrow.
    apply bind_Return_inv in Hrow. destruct Hrow as (a & _ & [= <-]). reflexivity. }
  assert (Hrnd : NoDup (Dict.keys rows)).
  { unfold Dict.keys. rewrite <- Hkeys. exact Hnd. }
  rewrite (dict_of_items_NoDup rows Hrnd).
  destruct (Forall2_In_l _ _ _ _ Hall Hin) as (row & Hrow_in & Hrow).
  simpl in Hrow. apply bind_Return_inv in Hrow. destruct Hrow as (a & Ha & [= <-]).
  exists a. split; [apply dict_In_get; assumption|].
  destruct (align_category_spec signals (category, skills) a Ha) as (Ht & _ & H0 & Hq).
  simpl in Ht, H0, Hq.
  split; [exact Ht|]. split; [exact H0|]. split; [exact Hq|].
  intros Hsmall.
  assert (Hne : category_targets normalize_skill skills <> []).
  { intros Hnil. rewrite Hnil in Hsmall. simpl in Hsmall. lia. }
  destruct (Hq Hne) as (q & Hdiv & Hcov).
  rewrite <- quotient_cents_exact.
  - unfold quotient_cents. rewrite Hdiv. exact Hcov.
  - exact Hsmall.
  - unfold set_inter. 
    assert (Hincl : incl (filter (fun x => set_mem x (category_targets normalize_skill skills))
                            (category_covered normalize_skill signals category))
                         (category_targets normalize_skill skills)).
    { intros x Hx. apply filter_In in Hx. apply set_mem_In. apply Hx. }
    apply NoDup_incl_length; [|exact Hincl].
    apply filter_NoDup. apply set_of_list_NoDup.
Qed.

End AlignmentFacts.

(** ** Bounds on the logarithm *)

Section ExpBoundFacts.
Import ExpBound.
Local Open Scope R_scope.

Lemma scale_pos : 0 < IZR scale.
Proof. apply IZR_lt. reflexivity. Qed.

Lemma first_term_sound (num den : Z) :
  (0 < den)%Z ->
  IZR (first_term num den) / IZR scale <= exp (IZR num / IZR den / 2 ^ halvings).
Proof.
  intros Hden. pose proof scale_pos as HS.
  set (D := (den * 2 ^ Z.of_nat halvings)%Z).
  assert (HD : (0 < D)%Z) by (unfold D; apply Z.mul_pos_pos; [exact Hden | reflexivity]).
  assert (HDr : IZR D = IZR den * 2 ^ halvings).
  { unfold D. rewrite mult_IZR. f_equal. rewrite <- pow_IZR. reflexivity. }
  assert (Hq : IZR (num * scale / D) <= IZR num * IZR scale / IZR D).
  { apply Rmult_le_reg_r with (IZR D); [apply IZR_lt; exact HD|].
    unfold Rdiv. rewrite Rmult_assoc, Rinv_l, Rmult_1_r
      by (apply Rgt_not_eq, IZR_lt; exact HD).
    rewrite <- !mult_IZR. apply IZR_le. rewrite Z.mul_comm. apply Z.mul_div_le. exact HD. }
  eapply Rle_trans; [|apply exp_ineq1_le].
  unfold first_term. fold D. rewrite plus_IZR.
  assert (Hden' : 0 < IZR den) by (apply IZR_lt; exact Hden).
  assert (Hpow : 0 < 2 ^ halvings) by (apply pow_lt; lra).
  replace (IZR num / IZR den / 2 ^ halvings)
    with (IZR num * IZR scale / IZR D / IZR scale).
  2:{ rewrite HDr. field. repeat split; apply Rgt_not_eq; assumption. }
  unfold Rdiv at 1. rewrite Rmult_plus_distr_r, Rinv_r by (apply Rgt_not_eq; exact HS).
  apply Rplus_le_compat_l. apply Rmult_le_compat_r; [|exact Hq].
  left. apply Rinv_0_lt_compat. exact HS.
Qed.

Lemma square_down_sound (j : nat) :
  forall (t : Z) (y : R),
    (0 <= t)%Z -> IZR t / IZR scale <= exp y ->
    IZR (square_down j t) / IZR scale <= exp (2 ^ j * y).
Proof.
  pose proof scale_pos as HS.
  induction j as [|j IH]; intros t y Ht Hy; simpl.
  - rewrite Rmult_1_l. exact Hy.
  - replace (2 * 2 ^ j * y) with (2 ^ j * (2 * y)) by ring.
    apply IH.
    + apply Z.div_pos; [apply Z.mul_nonneg_nonneg; exact Ht | reflexivity].
    + assert (Hfloor : IZR (t * t / scale) * IZR scale <= IZR t * IZR t).
      { rewrite <- !mult_IZR. apply IZR_le. rewrite Z.mul_comm.
        apply Z.mul_div_le. reflexivity. }
      assert (Ht' : 0 <= IZR t / IZR scale).
      { apply Rmult_le_pos; [apply IZR_le; exact Ht | left; apply Rinv_0_lt_compat; exact HS]. }
      replace (2 * y) with (y + y) by ring. rewrite exp_plus.
      apply Rle_trans with (IZR t / IZR scale * (IZR t / IZR scale)).
      * apply Rmult_le_reg_r with (IZR scale * IZR scale);
          [apply Rmult_lt_0_compat; exact HS|].
        replace (IZR (t * t / scale) / IZR scale * (IZR scale * IZR scale))
          with (IZR (t * t / scale) * IZR scale) by (field; apply Rgt_not_eq; exact HS).
        replace (IZR t / IZR scale * (IZR t / IZR scale) * (IZR scale * IZR scale))
          with (IZR t * IZR t) by (field; apply Rgt_not_eq; exact HS).
        exact Hfloor.
      * apply Rmult_le_compat; assumption.
Qed.

Lemma exp_lower_sound (num den : Z) :
  (0 < den)%Z -> (0 <= first_term num den)%Z ->
  IZR (exp_lower num den) / IZR scale <= exp (IZR num / IZR den).
Proof.
  intros Hden H0. unfold exp_lower.
  replace (IZR num / IZR den) with (2 ^ halvings * (IZR num / IZR den / 2 ^ halvings)).
  2:{ field. split; apply Rgt_not_eq; first [apply pow_lt; lra | apply IZR_lt; exact Hden]. }
  apply square_down_sound; [exact H0 | apply first_term_sound; exact Hden].
Qed.

(** [c < exp (num/den)] from the bound. *)
Lemma exp_above (c num den : Z) :
  (0 < den)%Z -> (0 <= first_term num den)%Z ->
  (c * scale < exp_lower num den)%Z -> IZR c < exp (IZR num / IZR den).
Proof.
  intros Hden H0 Hc. pose proof scale_pos as HS.
  eapply Rlt_le_trans; [|apply exp_lower_sound; assumption].
  apply Rmult_lt_reg_r with (IZR scale); [exact HS|].
  unfold Rdiv. rewrite Rmult_assoc, Rinv_l, Rmult_1_r by (apply Rgt_not_eq; exact HS).
  rewrite <- mult_IZR. apply IZR_lt. exact Hc.
Qed.

(** [exp (num/den) < c] from the bound at the opposite argument. *)
Lemma exp_below (c num den : Z) :
  (0 < den)%Z -> (0 < c)%Z -> (0 <= first_term (- num) den)%Z ->
  (scale < c * exp_lower (- num) den)%Z -> exp (IZR num / IZR den) < IZR c.
Proof.
  intros Hden Hcpos H0 Hc. pose proof scale_pos as HS.
  pose proof (exp_lower_sound (- num) den Hden H0) as Hlb.
  rewrite opp_IZR in Hlb.
  replace (- IZR num / IZR den) with (- (IZR num / IZR den)) in Hlb
    by (field; apply Rgt_not_eq, IZR_lt; exact Hden).
  rewrite exp_Ropp in Hlb.
  pose proof (exp_pos (IZR num / IZR den)) as He.
  assert (Hc' : IZR scale < IZR c * IZR (exp_lower (- num) den))
    by (rewrite <- mult_IZR; apply IZR_lt; exact Hc).
  assert (Hcr : 0 < IZR c) by (apply IZR_lt; exact Hcpos).
  revert Hlb Hc' HS He Hcr.
  generalize (IZR (exp_lower (- num) den)) (IZR scale) (exp (IZR num / IZR den)) (IZR c).
  intros lb S e cr Hlb Hc' HS He Hcr.
  (* 1 < cr * lb / S <= cr / e *)
  assert (H1 : 1 < cr * / e).
  { eapply Rlt_le_trans; [|apply Rmult_le_compat_l; [left; exact Hcr | exact Hlb]].
    apply Rmult_lt_reg_r with S; [exact HS|].
    replace (cr * (lb / S) * S) with (cr * lb) by (field; apply Rgt_not_eq; exact HS).
    lra. }
  apply Rmult_lt_reg_r with (/ e); [apply Rinv_0_lt_compat; exact He|].
  rewrite Rinv_r by (apply Rgt_not_eq; exact He). exact H1.
Qed.

Lemma check_ln_round_sound (c t : Z) :
  (0 < c)%Z -> check_ln_round c t = true ->
  IZR t - 1 / 2 < 12 * ln (IZR c) < IZR t + 1 / 2.
Proof.
  intros Hc Hcheck. unfold check_ln_round in Hcheck.
  rewrite !andb_true_iff, !Z.leb_le, !Z.ltb_lt in Hcheck.
  destruct Hcheck as [[[H0a H0b] Ha] Hb].
  assert (Hcr : 0 < IZR c) by (apply IZR_lt; exact Hc).
  pose proof (exp_below c (2 * t - 1) 24 eq_refl Hc H0a Ha) as Hlo.
  pose proof (exp_above c (2 * t + 1) 24 eq_refl H0b Hb) as Hhi.
  assert (Hlo' : IZR (2 * t - 1) / IZR 24 < ln (IZR c)).
  { apply exp_lt_inv. rewrite (exp_ln (IZR c) Hcr). exact Hlo. }
  assert (Hhi' : ln (IZR c) < IZR (2 * t + 1) / IZR 24).
  { apply exp_lt_inv. rewrite (exp_ln (IZR c) Hcr). exact Hhi. }
  rewrite minus_IZR, mult_IZR in Hlo'. rewrite plus_IZR, mult_IZR in Hhi'.
  lra.
Qed.

Lemma ln_table_checked :
  forallb (fun m => check_ln_round (Z.of_nat m + 1) (mention_bonus_cents m)) (seq 1 17)
  = true.
Proof. vm_compute. reflexivity. Qed.

Lemma ln_cap_checked : ln_cap_ok = true.
Proof. vm_compute. reflexivity. Qed.

Lemma ln_19_above_cap : 35 / 12 < ln 19.
Proof.
  pose proof ln_cap_checked as H. unfold ln_cap_ok in H.
  rewrite andb_true_iff, Z.leb_le, Z.ltb_lt in H. destruct H as [H0 H1].
  pose proof (exp_below 19 35 12 eq_refl eq_refl H0 H1) as Hlt.
  apply exp_lt_inv. rewrite (exp_ln 19) by lra. exact Hlt.
Qed.

End ExpBoundFacts.

(** ** Confidence *)

Section ConfidenceFacts.
Local Open Scope R_scope.

(** A real number within half a cent of [n] cents rounds to [n]. *)
Lemma Rround2_near (x : R) (n : Z) :
  IZR n - 1 / 2 < 100 * x < IZR n + 1 / 2 -> Rround2 x = n.
Proof.
  intros [Hlo Hhi]. unfold Rround2.
  set (y := 100 * x) in *.
  destruct (archimed y) as [Hup1 Hup2].
  set (n0 := (up y - 1)%Z).
  assert (Hn0 : IZR n0 = IZR (up y) - 1) by (unfold n0; rewrite minus_IZR; reflexivity).
  assert (Hle : (n0 < n + 1)%Z).
  { apply lt_IZR. rewrite plus_IZR. lra. }
  assert (Hge : (n - 2 < n0)%Z).
  { apply lt_IZR. rewrite minus_IZR. lra. }
  assert (Hcases : n0 = n \/ n0 = (n - 1)%Z) by lia.
  destruct Hcases as [E|E].
  - destruct (Rlt_dec (y - IZR n0) (1 / 2)) as [_|Hn]; [exact E|].
    exfalso. apply Hn. rewrite E. lra.
  - assert (HE : IZR n0 = IZR n - 1) by (rewrite E, minus_IZR; reflexivity).
    destruct (Rlt_dec (y - IZR n0) (1 / 2)) as [Hl|_]; [lra|].
    destruct (Rlt_dec (1 / 2) (y - IZR n0)) as [_|Hn]; [lia|].
    exfalso. apply Hn. lra.
Qed.

Lemma mention_bonus_cents_range (m : nat) : (0 <= mention_bonus_cents m <= 35)%Z.
Proof.
  unfold mention_bonus_cents.
  do 18 (destruct m as [|m]; [simpl; lia|]). simpl. destruct m; lia.
Qed.

Lemma mention_bonus_cents_capped (m : nat) : (18 <= m)%nat -> mention_bonus_cents m = 35%Z.
Proof. intros H. unfold mention_bonus_cents. apply nth_overflow. simpl. exact H. Qed.

Lemma forallb_In {A : Type} (f : A -> bool) (l : list A) (x : A) :
  forallb f l = true -> In x l -> f x = true.
Proof. intros H. rewrite forallb_forall in H. apply H. Qed.

Lemma ln_table_entry (m : nat) :
  In m (seq 1 17) ->
  IZR (mention_bonus_cents m) - 1 / 2 < 12 * ln (IZR (Z.of_nat m + 1))
  < IZR (mention_bonus_cents m) + 1 / 2.
Proof.
  intros Hin. apply check_ln_round_sound.
  - apply in_seq in Hin. lia.
  - exact (forallb_In
             (fun m => ExpBound.check_ln_round (Z.of_nat m + 1) (mention_bonus_cents m))
             (seq 1 17) m ln_table_checked Hin).
Qed.

(** The table agrees with the logarithm: the capped mention bonus, in
    cents, lies within half a cent of the table entry. *)
Lemma mention_bonus_cents_spec (m : nat) :
  IZR (mention_bonus_cents m) - 1 / 2 < Rmin 35 (12 * ln (1 + INR m))
  < IZR (mention_bonus_cents m) + 1 / 2.
Proof.
  destruct (Nat.eq_dec m 0) as [->|Hm0].
  { change (mention_bonus_cents 0) with 0%Z.
    replace (1 + INR 0) with 1 by (simpl; lra).
    rewrite ln_1, Rmult_0_r. unfold Rmin.
    destruct (Rle_dec 35 0); lra. }
  destruct (le_lt_dec 18 m) as [Hbig|Hsmall].
  - rewrite (mention_bonus_cents_capped m Hbig).
    assert (Hm : 18 <= INR m).
    { replace 18 with (INR 18) by (rewrite INR_IZR_INZ; reflexivity).
      apply le_INR. exact Hbig. }
    assert (Hln : ln 19 <= ln (1 + INR m)).
    { destruct (Req_dec 19 (1 + INR m)) as [<-|Hne]; [lra|].
      left. apply ln_increasing; lra. }
    pose proof ln_19_above_cap as Hcap.
    unfold Rmin. destruct (Rle_dec 35 (12 * ln (1 + INR m))); lra.
  - assert (Hin : In m (seq 1 17)) by (apply in_seq; lia).
    pose proof (ln_table_entry m Hin) as Hb.
    rewrite plus_IZR, <- INR_IZR_INZ, Rplus_comm in Hb.
    pose proof (mention_bonus_cents_range m) as [_ Hr].
    apply IZR_le in Hr.
    unfold Rmin. destruct (Rle_dec 35 (12 * ln (1 + INR m))); [|lra].
    assert (Ht : (34 < mention_bonus_cents m)%Z).
    { apply lt_IZR. lra. }
    assert (E : mention_bonus_cents m = 35%Z).
    { pose proof (mention_bonus_cents_range m). lia. }
    rewrite E. lra.
Qed.

Lemma source_bonus_cents_spec (n : nat) :
  IZR (source_bonus_cents n) / 100 = Rmin 0.2 (0.08 * Rmax 0 (INR n - 1)).
Proof.
  destruct (le_lt_dec 4 n) as [Hbig|Hsmall].
  - assert (Hn : 4 <= INR n).
    { replace 4 with (INR 4) by (rewrite INR_IZR_INZ; reflexivity). apply le_INR. exact Hbig. }
    assert (E : source_bonus_cents n = 20%Z) by (unfold source_bonus_cents; lia).
    rewrite E. unfold Rmin, Rmax.
    destruct (Rle_dec 0 (INR n - 1)); [|lra].
    destruct (Rle_dec 0.2 (0.08 * (INR n - 1))); lra.
  - assert (Hc : (n = 0 \/ n = 1 \/ n = 2 \/ n = 3)%nat) by lia.
    destruct Hc as [E|[E|[E|E]]]; subst n.
    + change (source_bonus_cents 0) with 0%Z. replace (INR 0) with 0 by reflexivity.
      unfold Rmin, Rmax. destruct (Rle_dec 0 (0 - 1)); [lra|].
      destruct (Rle_dec 0.2 (0.08 * 0)); lra.
    + change (source_bonus_cents 1) with 0%Z. replace (INR 1) with 1 by reflexivity.
      unfold Rmin, Rmax. destruct (Rle_dec 0 (1 - 1)); [|lra].
      destruct (Rle_dec 0.2 (0.08 * (1 - 1))); lra.
    + change (source_bonus_cents 2) with 8%Z. replace (INR 2) with 2 by (simpl; lra).
      unfold Rmin, Rmax. destruct (Rle_dec 0 (2 - 1)); [|lra].
      destruct (Rle_dec 0.2 (0.08 * (2 - 1))); lra.
    + change (source_bonus_cents 3) with 16%Z. replace (INR 3) with 3 by (simpl; lra).
      unfold Rmin, Rmax. destruct (Rle_dec 0 (3 - 1)); [|lra].
      destruct (Rle_dec 0.2 (0.08 * (3 - 1))); lra.
Qed.

Lemma base_cents_spec (k : signal_kind) :
  IZR (base_cents k) / 100 = match k with explicit => 0.55 | implicit => 0.45 end.
Proof. destruct k; simpl; lra. Qed.

(** The cents computed by the embedding are the formula of
    [_finalize_registry], rounded to two decimals. *)
Lemma confidence_cents_spec (k : signal_kind) (mentions nsources : nat) :
  confidence_cents k mentions nsources = Rround2 (confidence_formula k mentions nsources).
Proof.
  unfold confidence_formula, confidence_cents.
  rewrite <- source_bonus_cents_spec, <- base_cents_spec.
  pose proof (mention_bonus_cents_spec mentions) as Hm.
  set (t := mention_bonus_cents mentions) in *.
  set (L := ln (1 + INR mentions)) in *.
  assert (Hmb : Rmin 0.35 (0.12 * L) = Rmin 35 (12 * L) / 100).
  { unfold Rmin. destruct (Rle_dec 0.35 (0.12 * L)), (Rle_dec 35 (12 * L)); lra. }
  rewrite Hmb. set (y := Rmin 35 (12 * L)) in *.
  set (b := base_cents k). set (sb := source_bonus_cents nsources).
  symmetry. unfold Rmin at 1.
  destruct (Rle_dec 0.98 (IZR b / 100 + y / 100 + IZR sb / 100)) as [Hcap|Hfree].
  - assert (H98 : (97 < b + t + sb)%Z).
    { apply lt_IZR. rewrite !plus_IZR. lra. }
    rewrite Z.min_l by lia. apply Rround2_near. lra.
  - assert (H98 : (b + t + sb < 99)%Z).
    { apply lt_IZR. rewrite !plus_IZR. lra. }
    rewrite Z.min_r by lia. apply Rround2_near. rewrite !plus_IZR. lra.
Qed.

Lemma confidence_cents_range (k : signal_kind) (mentions nsources : nat) :
  (0 < confidence_cents k mentions nsources <= 98)%Z.
Proof.
  unfold confidence_cents, source_bonus_cents, base_cents.
  pose proof (mention_bonus_cents_range mentions).
  destruct k; lia.
Qed.

(** C1.  The confidence of the signal made from a registry entry is the
    formula [min(0.98, base + min(0.35, 0.12 ln(1 + mentions))
    + min(0.20, 0.08 max(0, sources - 1)))] rounded to two decimals, with
    base 0.55 for an explicit entry and 0.45 for an implicit one; it is
    strictly positive and at most 0.98; the signals of a finalized registry
    are exactly the signals made from its entries; and an explicit entry
    with one mention and one source gets 0.63. *)
Theorem confidence_spec :
  (forall entry : Entry.t,
      SkillSignal.confidence (finalize_entry entry)
      = Rround2 (confidence_formula (Entry.type entry) (Entry.mentions entry)
                   (List.length (Entry.sources entry)))
      /\ (0 < SkillSignal.confidence (finalize_entry entry) <= 98)%Z
      /\ 0 < IZR (SkillSignal.confidence (finalize_entry entry)) / 100 <= 0.98)
  /\ (forall (registry : Dict.t Entry.t) (s : SkillSignal.t),
         In s (_finalize_registry registry) <->
         exists entry, In entry (Dict.values registry) /\ s = finalize_entry entry)
  /\ (forall entry : Entry.t,
         Entry.type entry = explicit -> Entry.mentions entry = 1%nat ->
         List.length (Entry.sources entry) = 1%nat ->
         SkillSignal.confidence (finalize_entry entry) = 63%Z
         /\ Rround2 (0.55 + 0.12 * ln 2) = 63%Z).
Proof.
  split; [|split].
  - intros entry. unfold finalize_entry. cbn [SkillSignal.confidence].
    split; [apply confidence_cents_spec|].
    pose proof (confidence_cents_range (Entry.type entry) (Entry.mentions entry)
                  (List.length (Entry.sources entry))) as [Hlo Hhi].
    split; [split; assumption|].
    apply IZR_lt in Hlo. apply IZR_le in Hhi. lra.
  - apply _finalize_registry_In.
  - intros entry Hk Hm Hs. unfold finalize_entry. cbn [SkillSignal.confidence].
    rewrite Hk, Hm, Hs. split; [reflexivity|].
    apply Rround2_near.
    pose proof (mention_bonus_cents_spec 1) as Hb.
    change (mention_bonus_cents 1) with 8%Z in Hb.
    replace (1 + INR 1) with 2 in Hb by (simpl; lra).
    unfold Rmin in Hb. destruct (Rle_dec 35 (12 * ln 2)); lra.
Qed.

End ConfidenceFacts.

(** ** The registry as a fold over the occurrence events *)

Lemma fold_left_ext {A B : Type} (f g : A -> B -> A) (l : list B) (a : A) :
  (forall a b, f a b = g a b) -> fold_left f l a = fold_left g l a.
Proof.
  intros H. revert a. induction l as [|b l IH]; intros a; simpl; [reflexivity|].
  rewrite H. apply IH.
Qed.

Lemma fold_left_map {A B C : Type} (f : A -> C -> A) (g : B -> C) (l : list B) (a : A) :
  fold_left f (map g l) a = fold_left (fun a b => f a (g b)) l a.
Proof. revert a. induction l as [|b l IH]; intros a; simpl; [reflexivity | apply IH]. Qed.

Lemma fold_left_flat_map {A B C : Type} (f : A -> C -> A) (g : B -> list C)
    (l : list B) (a : A) :
  fold_left f (flat_map g l) a = fold_left (fun a b => fold_left f (g b) a) l a.
Proof.
  revert a. induction l as [|b l IH]; intros a; simpl; [reflexivity|].
  rewrite fold_left_app. apply IH.
Qed.

Section EventFacts.
Variable normalize_skill : string -> string.
Variable COMMON_SKILLS : list string.


Lemma explicit_pass_events registry source :
  explicit_pass normalize_skill COMMON_SKILLS registry source
  = fold_left (register_event normalize_skill) (explicit_events normalize_skill COMMON_SKILLS source) registry.
Proof.
  unfold explicit_pass, explicit_events. rewrite fold_left_flat_map.
  apply fold_left_ext. intros reg skill. rewrite fold_left_map. reflexivity.
Qed.

Lemma implicit_pass_events registry source :
  implicit_pass normalize_skill registry source
  = fold_left (register_event normalize_skill) (implicit_events source) registry.
Proof.
  unfold implicit_pass, implicit_events. rewrite fold_left_flat_map.
  apply fold_left_ext. intros reg item. rewrite fold_left_flat_map.
  apply fold_left_ext. intros reg' pattern. rewrite fold_left_map. reflexivity.
Qed.

Lemma build_registry_events sources :
  build_registry normalize_skill COMMON_SKILLS sources
  = fold_left (register_event normalize_skill) (flat_map (events_of normalize_skill COMMON_SKILLS) sources) [].
Proof.
  unfold build_registry. rewrite fold_left_flat_map. apply fold_left_ext.
  intros reg source. unfold events_of. rewrite fold_left_app.
  rewrite <- explicit_pass_events, <- implicit_pass_events. reflexivity.
Qed.

Lemma register_event_set registry e :
  (register_event normalize_skill) registry e
  = Dict.set registry ((event_key normalize_skill) e) (absorb (Dict.get registry ((event_key normalize_skill) e)) e).
Proof. reflexivity. Qed.

Lemma get_register_event registry e k :
  Dict.get ((register_event normalize_skill) registry e) k
  = absorb_at normalize_skill k (Dict.get registry k) e.
Proof.
  rewrite register_event_set. unfold absorb_at.
  destruct (String.eqb_spec ((event_key normalize_skill) e) k) as [<-|Hne].
  - apply dict_get_set_same.
  - apply dict_get_set_other. congruence.
Qed.

Lemma get_fold_register events registry k :
  Dict.get (fold_left (register_event normalize_skill) events registry) k
  = fold_left (absorb_at normalize_skill k) events (Dict.get registry k).
Proof.
  revert registry. induction events as [|e events IH]; intros registry; simpl.
  - reflexivity.
  - rewrite IH, get_register_event. reflexivity.
Qed.


Lemma absorb_fold_some events k (x : Entry.t) :
  fold_left (absorb_at normalize_skill k) events (Some x)
  = Some
      (Entry.mk (Entry.name x) (Entry.category x) (Entry.type x)
         (fold_left (fun s n => set_add n s) (source_names ((at_key normalize_skill) k events))
            (Entry.sources x))
         (Entry.snippets x ++ evidence_of ((at_key normalize_skill) k events))
         (List.length ((at_key normalize_skill) k events) + Entry.mentions x)).
Proof.
  revert x. induction events as [|e events IH]; intros x; simpl.
  - rewrite app_nil_r. destruct x; reflexivity.
  - unfold absorb_at at 2. destruct (String.eqb ((event_key normalize_skill) e) k); simpl.
    + rewrite IH. unfold absorb. simpl. f_equal. f_equal.
      * destruct (truthy (Event.snippet e)); simpl;
          [rewrite <- app_assoc; reflexivity | reflexivity].
      * lia.
    + apply IH.
Qed.

(** Closed form of the entry of a (event_key normalize_skill) after a run of events from the empty
    registry. *)
Lemma absorb_fold_none events k :
  fold_left (absorb_at normalize_skill k) events None = entry_of ((at_key normalize_skill) k events).
Proof.
  induction events as [|e events IH]; simpl; [reflexivity|].
  unfold absorb_at at 2. destruct (String.eqb ((event_key normalize_skill) e) k); simpl; [|exact IH].
  rewrite absorb_fold_some. unfold absorb. simpl. f_equal. f_equal. lia.
Qed.


Lemma at_key_In k events e : In e ((at_key normalize_skill) k events) <-> In e events /\ (event_key normalize_skill) e = k.
Proof.
  split.
  - intros H. apply filter_In in H. destruct H as [H1 H2].
    apply String.eqb_eq in H2. auto.
  - intros [H1 H2]. apply filter_In. split; [exact H1 | apply String.eqb_eq, H2].
Qed.

Lemma entry_core_finalize (e : Entry.t) : signal_core (finalize_entry e) = entry_core e.
Proof. reflexivity. Qed.

Lemma set_of_list_perm (l l' : list string) :
  Permutation l l' -> Permutation (set_of_list l) (set_of_list l').
Proof.
  intros Hp. apply NoDup_Permutation; try apply set_of_list_NoDup.
  intros x. rewrite !set_of_list_In. split; apply Permutation_in;
    [exact Hp | apply Permutation_sym, Hp].
Qed.



Lemma registry_get_events events k :
  Dict.get (fold_left (register_event normalize_skill) events []) k = entry_of ((at_key normalize_skill) k events).
Proof. rewrite get_fold_register. simpl. apply absorb_fold_none. Qed.

Lemma registry_events_wf events :
  registry_wf normalize_skill (fold_left (register_event normalize_skill) events []).
Proof.
  apply fold_left_preserves.
  - intros reg e Hreg. apply _register_signal_wf, Hreg.
  - split; [constructor | intros k e []].
Qed.


Lemma values_by_keys {V W : Type} (f : V -> W) (d : Dict.t V) :
  NoDup (Dict.keys d) ->
  map f (Dict.values d)
  = flat_map (fun k => match Dict.get d k with Some v => [f v] | None => [] end)
      (Dict.keys d).
Proof.
  intros Hnd. rewrite (flat_map_get_keys f d d Hnd) by auto.
  unfold Dict.values. rewrite map_map. reflexivity.
Qed.





End EventFacts.

(** ** Order of the documents *)

Section MergeFacts.
Variable normalize_skill : string -> string.
Variable COMMON_SKILLS : list string.

Lemma explicit_events_lexicon source e :
  In e (explicit_events normalize_skill COMMON_SKILLS source) ->
  In (Event.name e, Event.type e) (lexicon COMMON_SKILLS)
  /\ Event.category e = category_for normalize_skill (Event.name e) (Event.type e).
Proof.
  unfold explicit_events. rewrite in_flat_map. intros (skill & Hskill & He).
  apply in_map_iff in He. destruct He as (span & <- & _). simpl.
  split; [|reflexivity].
  unfold lexicon. apply in_or_app. left.
  apply in_map_iff. exists skill. auto.
Qed.

Lemma implicit_events_lexicon source e :
  In e (implicit_events source) ->
  In (Event.name e, Event.type e) (lexicon COMMON_SKILLS)
  /\ Event.category e = category_for normalize_skill (Event.name e) (Event.type e).
Proof.
  unfold implicit_events. rewrite in_flat_map. intros (item & Hitem & He).
  rewrite in_flat_map in He. destruct He as (pattern & _ & He).
  apply in_map_iff in He. destruct He as (span & <- & _). simpl.
  split; [|reflexivity].
  unfold lexicon. apply in_or_app. right.
  apply in_map_iff. exists item. auto.
Qed.




End MergeFacts.

(** ** Worked inputs *)

Lemma confidence_spec_witness :
  SkillSignal.confidence
    (finalize_entry (Entry.mk "python" "Technical Foundation" explicit ["cv"] [] 1))
  = 63%Z
  /\ Rround2 (0.55 + 0.12 * ln 2) = 63%Z.
Proof.
  exact (proj2 (proj2 confidence_spec)
           (Entry.mk "python" "Technical Foundation" explicit ["cv"] [] 1)
           eq_refl eq_refl eq_refl).
Defined.

Lemma scenario_profile_built :
  build_skill_profile normalize_skill_spec COMMON_SKILLS_spec [Some scenario_doc]
  = Return scenario_profile.
Proof. vm_compute. reflexivity. Qed.

Lemma profile_named_first_built :
  build_skill_profile normalize_skill_spec COMMON_SKILLS_spec
    [Some doc_names_leadership; Some doc_shows_leadership]
  = Return profile_named_first.
Proof. vm_compute. reflexivity. Qed.

Lemma profile_shown_first_built :
  build_skill_profile normalize_skill_spec COMMON_SKILLS_spec
    [Some doc_shows_leadership; Some doc_names_leadership]
  = Return profile_shown_first.
Proof. vm_compute. reflexivity. Qed.

Lemma job_profile_four_built :
  build_skill_profile normalize_skill_spec COMMON_SKILLS_spec
    [Some (job_source job_four_skills)]
  = Return job_profile_four.
Proof. vm_compute. reflexivity. Qed.

Lemma job_profile_none_built :
  build_skill_profile normalize_skill_spec COMMON_SKILLS_spec
    [Some (job_source job_no_skill)]
  = Return job_profile_none.
Proof. vm_compute. reflexivity. Qed.

(** An instance of the first-seen rule.  With a lexicon in which the
    framework skill leadership is an explicit term as well as an implicit
    skill, the document processed first decides the kind, and with it the
    confidence: 0.76 against 0.66. *)
Lemma first_seen_kind_example :
  ~ (forall A B profile_ab profile_ba,
        build_skill_profile normalize_skill_spec COMMON_SKILLS_spec [Some A; Some B]
        = Return profile_ab ->
        build_skill_profile normalize_skill_spec COMMON_SKILLS_spec [Some B; Some A]
        = Return profile_ba ->
        map name_and_confidence (get_signals profile_ab)
        = map name_and_confidence (get_signals profile_ba)).
Proof.
  intros H.
  specialize (H doc_names_leadership doc_shows_leadership _ _
                profile_named_first_built profile_shown_first_built).
  vm_compute in H. discriminate H.
Qed.

Lemma framework_keys_NoDup : NoDup (Dict.keys FORMAL_SKILL_FRAMEWORK).
Proof.
  unfold FORMAL_SKILL_FRAMEWORK, Dict.keys. simpl.
  repeat constructor; simpl; intuition discriminate.
Qed.

Lemma framework_coverage_witness :
  NoDup (Dict.keys FORMAL_SKILL_FRAMEWORK)
  /\ exists stats a,
      _profile_stats_with normalize_skill_spec FORMAL_SKILL_FRAMEWORK
        (get_signals scenario_profile) [scenario_doc] = Return stats
      /\ Dict.get (ProfileStats.framework_alignment stats) "Leadership & Impact" = Some a
      /\ Alignment.target_total a = 7
      /\ Alignment.coverage a = 29%Z.
Proof.
  split; [exact framework_keys_NoDup|].
  destruct (framework_coverage_spec normalize_skill_spec FORMAL_SKILL_FRAMEWORK
              (get_signals scenario_profile) [scenario_doc] framework_keys_NoDup)
    as (stats & Hstats & Hrows).
  destruct (Hrows "Leadership & Impact"
              ["leadership"; "mentorship"; "communication"; "strategic planning";
               "problem solving"; "innovation"; "change management"])
    as (a & Hget & Htotal & _ & _ & Hexact).
  { simpl. auto. }
  exists stats, a. split; [exact Hstats|]. split; [exact Hget|].
  split; [rewrite Htotal; vm_compute; reflexivity|].
  rewrite Hexact; [vm_compute; reflexivity | vm_compute; split; lia].
Defined.

Lemma match_profile_to_job_degenerate_witness :
  blank job_blank = true
  /\ blank job_no_skill = false
  /\ match_profile_to_job normalize_skill_spec COMMON_SKILLS_spec get_learning_resources_spec
       scenario_profile job_blank = Return None
  /\ match_profile_to_job normalize_skill_spec COMMON_SKILLS_spec get_learning_resources_spec
       scenario_profile job_no_skill
     = Return (Some (JobMatchResult.mk 0%Z [] [] [] job_profile_none)).
Proof.
  split; [reflexivity|]. split; [reflexivity|]. split.
  - exact (proj1 (match_profile_to_job_degenerate normalize_skill_spec COMMON_SKILLS_spec
                    get_learning_resources_spec scenario_profile job_blank) eq_refl).
  - destruct (proj1 (proj2 (match_profile_to_job_degenerate normalize_skill_spec
                              COMMON_SKILLS_spec get_learning_resources_spec
                              scenario_profile job_no_skill)) eq_refl)
      as (job_profile & Hb & Hm).
    rewrite job_profile_none_built in Hb. injection Hb as <-.
    apply Hm. reflexivity.
Defined.

Lemma match_profile_to_job_spec_witness :
  Str.is_empty (Str.strip job_four_skills) = false
  /\ exists r,
      match_profile_to_job normalize_skill_spec COMMON_SKILLS_spec
        get_learning_resources_spec scenario_profile job_four_skills = Return (Some r)
      /\ JobMatchResult.coverage r = 75%Z
      /\ (forall n, In n (JobMatchResult.gaps r) -> n = "kubernetes").
Proof.
  split; [reflexivity|].
  destruct (match_profile_to_job_spec normalize_skill_spec COMMON_SKILLS_spec
              get_learning_resources_spec scenario_profile job_four_skills eq_refl)
    as (job_profile & Hb & Hspec).
  rewrite job_profile_four_built in Hb. injection Hb as <-.
  destruct Hspec as (r & q & Hm & _ & Hgaps & _ & _ & _ & _ & _ & H75).
  { discriminate. }
  exists r. split; [exact Hm|]. split.
  - apply H75; vm_compute; reflexivity.
  - intros n Hn. apply Hgaps in Hn. destruct Hn as (s & Hs & <- & Hnot).
    vm_compute in Hs.
    destruct Hs as [<-|[<-|[<-|[<-|[]]]]]; try reflexivity;
      exfalso; apply Hnot; vm_compute; tauto.
Defined.

(** Four signals and the limit -1: three bullets are returned. *)
Lemma generate_cv_highlights_negative_limit :
  ~ (forall (skill_profile : Profile.t) (limit : Z) (bullets : list string),
        generate_cv_highlights skill_profile limit = Return bullets ->
        (Z.of_nat (List.length bullets) <= limit)%Z).
Proof.
  intros H.
  pose proof (H job_profile_four (-1)%Z _
                (generate_cv_highlights_negative job_profile_four (-1)%Z eq_refl)) as Hle.
  vm_compute in Hle. apply Hle. reflexivity.
Qed.

Lemma generate_cv_highlights_bound_witness :
  (0 <= default_limit)%Z
  /\ exists bullets,
      generate_cv_highlights scenario_profile default_limit = Return bullets
      /\ (Z.of_nat (List.length bullets) <= default_limit)%Z.
Proof.
  assert (H0 : (0 <= default_limit)%Z) by discriminate.
  split; [exact H0|].
  destruct (generate_cv_highlights_bound scenario_profile default_limit H0)
    as (bullets & Hg & _ & _ & Hle & _).
  exists bullets. split; assumption.
Defined.

(** * Further properties *)

(** ** Sources *)

(** X1.  [source_from_text] gives no document exactly when the text is
    empty or whitespace only; a document it gives has the given name, kind
    and visibility and the origin manual, its text is the given text without
    the whitespace at its two ends and is not empty, and the profile builder
    keeps it. *)
Theorem source_from_text_usable (name text kind visibility : string) :
  (source_from_text name text kind visibility = None <-> blank text = true)
  /\ forall d,
      source_from_text name text kind visibility = Some d ->
      SourceDocument.name d = name
      /\ SourceDocument.kind d = kind
      /\ SourceDocument.visibility d = visibility
      /\ SourceDocument.origin d = "manual"
      /\ trimmed text (SourceDocument.text d)
      /\ SourceDocument.text d <> EmptyString
      /\ usable_sources [Some d] = [d].
Proof.
  unfold source_from_text. rewrite <- strip_blank. split.
  - destruct (Str.is_empty text) eqn:Ht.
    + apply is_empty_true in Ht. subst. simpl. tauto.
    + destruct (Str.is_empty (Str.strip text)); split; congruence.
  - intros d Hd.
    destruct (Str.is_empty text); [discriminate|].
    destruct (Str.is_empty (Str.strip text)) eqn:Hs; [discriminate|].
    injection Hd as <-. cbn [SourceDocument.name SourceDocument.kind
      SourceDocument.visibility SourceDocument.origin SourceDocument.text].
    repeat (split; [reflexivity|]). split; [apply strip_trimmed|]. split.
    + intros E. rewrite E in Hs. discriminate.
    + unfold usable_sources. simpl. rewrite strip_idem, Hs. reflexivity.
Qed.

Lemma flat_map_filter {A B : Type} (p : A -> bool) (f : A -> list B) (l : list A) :
  flat_map f (filter p l) = flat_map (fun a => if p a then f a else []) l.
Proof.
  induction l as [|a l IH]; simpl; [reflexivity|].
  destruct (p a); simpl; rewrite IH; reflexivity.
Qed.

Lemma merge_sources_text_filter (sources : list SourceDocument.t)
    (visibility : option string) :
  merge_sources_text sources visibility
  = join (newline ++ newline)%string
      (map source_section (filter (merged visibility) sources)).
Proof.
  unfold merge_sources_text. f_equal.
  induction sources as [|src rest IH]; simpl; [reflexivity|].
  rewrite IH. unfold merged at 2, truthy. rewrite <- strip_blank.
  destruct visibility as [v|]; simpl.
  - destruct (Str.is_empty v); simpl.
    + destruct (Str.is_empty (Str.strip (SourceDocument.text src))); reflexivity.
    + destruct (String.eqb (SourceDocument.visibility src) v); simpl;
        destruct (Str.is_empty (Str.strip (SourceDocument.text src))); reflexivity.
  - destruct (Str.is_empty (Str.strip (SourceDocument.text src))); reflexivity.
Qed.

Lemma merged_usable (sources : list SourceDocument.t) :
  filter (merged None) sources = usable_sources (map Some sources).
Proof.
  unfold usable_sources.
  induction sources as [|src rest IH]; simpl; [reflexivity|].
  unfold merged at 1. rewrite andb_true_r, <- strip_blank.
  destruct (Str.is_empty (Str.strip (SourceDocument.text src))); simpl;
    rewrite IH; reflexivity.
Qed.

Lemma join_nonempty (sep : string) (parts : list string) :
  Forall (fun part => part <> EmptyString) parts ->
  join sep parts = EmptyString -> parts = [].
Proof.
  destruct parts as [|part rest]; [reflexivity|]. intros Hall E. exfalso.
  inversion Hall as [|? ? Hp _]; subst. apply Hp.
  destruct rest; simpl in E; [exact E|]. destruct part; [reflexivity | discriminate].
Qed.

Lemma join_app (sep : string) (l1 l2 : list string) :
  l1 <> [] -> l2 <> [] ->
  join sep (l1 ++ l2) = (join sep l1 ++ sep ++ join sep l2)%string.
Proof.
  intros H1 H2. induction l1 as [|a l1 IH]; [congruence|].
  destruct l1 as [|b l1].
  - destruct l2; [congruence | reflexivity].
  - change (join sep ((a :: b :: l1) ++ l2))
      with (a ++ sep ++ join sep ((b :: l1) ++ l2))%string.
    rewrite IH by discriminate.
    change (join sep (a :: b :: l1)) with (a ++ sep ++ join sep (b :: l1))%string.
    rewrite !string_app_assoc. reflexivity.
Qed.

Lemma sections_nonempty (sources : list SourceDocument.t) :
  Forall (fun part => part <> EmptyString) (map source_section sources).
Proof.
  apply Forall_forall. intros part Hp. apply in_map_iff in Hp.
  destruct Hp as (src & <- & _). unfold source_section. discriminate.
Qed.

(** X2.  [merge_sources_text] writes, in order and separated by a blank
    line, one section for each document whose text is not whitespace only
    and whose visibility is the one asked for; a section is the heading
    [[name | kind]], a line feed and the text without the whitespace at its
    two ends.  No filter and the empty string as filter both keep every
    visibility; without filter the documents merged are the ones the
    profile builder keeps; the result is empty exactly when no document is
    merged; and merging a batch followed by another gives the two merged
    texts separated by a blank line (or the one that is not empty). *)
Theorem merge_sources_text_spec (sources : list SourceDocument.t) :
  (forall visibility,
      merge_sources_text sources visibility
      = join (newline ++ newline)%string
          (map source_section (filter (merged visibility) sources)))
  /\ (forall src, exists body,
        source_section src
        = ("[" ++ SourceDocument.name src ++ " | " ++ SourceDocument.kind src ++ "]"
           ++ newline ++ body)%string
        /\ trimmed (SourceDocument.text src) body)
  /\ merge_sources_text sources (Some "") = merge_sources_text sources None
  /\ merge_sources_text sources None
     = join (newline ++ newline)%string
         (map source_section (usable_sources (map Some sources)))
  /\ (forall visibility,
        merge_sources_text sources visibility = EmptyString
        <-> filter (merged visibility) sources = [])
  /\ (forall visibility more,
        merge_sources_text (sources ++ more) visibility
        = if Str.is_empty (merge_sources_text sources visibility)
          then merge_sources_text more visibility
          else if Str.is_empty (merge_sources_text more visibility)
               then merge_sources_text sources visibility
               else (merge_sources_text sources visibility ++ newline ++ newline
                     ++ merge_sources_text more visibility)%string).
Proof.
  assert (Hempty : forall l visibility,
             merge_sources_text l visibility = EmptyString
             <-> filter (merged visibility) l = []).
  { intros l visibility. rewrite merge_sources_text_filter. split.
    - intros E. apply join_nonempty in E; [|apply sections_nonempty].
      destruct (filter (merged visibility) l); [reflexivity | discriminate].
    - intros ->. reflexivity. }
  split; [intros visibility; apply merge_sources_text_filter|].
  split; [intros src; eexists; split; [reflexivity | apply strip_trimmed]|].
  split; [rewrite !merge_sources_text_filter; reflexivity|].
  split; [rewrite merge_sources_text_filter, merged_usable; reflexivity|].
  split; [intros visibility; apply Hempty|].
  intros visibility more.
  destruct (Str.is_empty (merge_sources_text sources visibility)) eqn:E1.
  - apply is_empty_true, Hempty in E1.
    rewrite !merge_sources_text_filter, filter_app, E1. reflexivity.
  - destruct (Str.is_empty (merge_sources_text more visibility)) eqn:E2.
    + apply is_empty_true, Hempty in E2.
      rewrite !merge_sources_text_filter, filter_app, E2, app_nil_r. reflexivity.
    + rewrite !merge_sources_text_filter, filter_app, map_app, join_app.
      * rewrite string_app_assoc. reflexivity.
      * intros E. apply map_eq_nil in E. apply (proj2 (Hempty _ _)) in E.
        rewrite E in E1. discriminate.
      * intros E. apply map_eq_nil in E. apply (proj2 (Hempty _ _)) in E.
        rewrite E in E2. discriminate.
Qed.

(** ** Counters *)

Lemma fold_left_add (l : list nat) (a : nat) : fold_left Nat.add l a = a + list_sum l.
Proof.
  revert a. induction l as [|x l IH]; intros a; simpl; [lia|]. rewrite IH. lia.
Qed.

Lemma sum_nat_list_sum (l : list nat) : sum_nat l = list_sum l.
Proof. unfold sum_nat. rewrite fold_left_add. reflexivity. Qed.

Lemma counter_step_sum (d : Dict.t nat) (k : string) :
  list_sum (Dict.values
              (Dict.set d k (S (match Dict.get d k with Some n => n | None => 0 end))))
  = S (list_sum (Dict.values d)).
Proof.
  induction d as [|[k' n] d IH]; simpl.
  - reflexivity.
  - destruct (String.eqb k' k); simpl; [lia|].
    change (map snd ?l) with (Dict.values l). rewrite IH. lia.
Qed.

Lemma counter_fold_sum (items : list string) (d : Dict.t nat) :
  list_sum
    (Dict.values
       (fold_left
          (fun d k => Dict.set d k (S (match Dict.get d k with Some n => n | None => 0 end)))
          items d))
  = list_sum (Dict.values d) + List.length items.
Proof.
  revert d. induction items as [|k items IH]; intros d; simpl; [lia|].
  rewrite IH, counter_step_sum. lia.
Qed.

(** The counts of a [Counter] add up to the number of items counted. *)
Lemma Counter_total (items : list string) :
  sum_nat (Dict.values (Counter items)) = List.length items.
Proof. rewrite sum_nat_list_sum. unfold Counter. rewrite counter_fold_sum. reflexivity. Qed.

Lemma counter_fold_keys (items : list string) (d : Dict.t nat) (k : string) :
  In k (Dict.keys
          (fold_left
             (fun d k => Dict.set d k (S (match Dict.get d k with Some n => n | None => 0 end)))
             items d))
  <-> In k (Dict.keys d) \/ In k items.
Proof.
  revert d. induction items as [|k0 items IH]; intros d; simpl; [tauto|].
  rewrite IH, dict_set_keys. destruct (Dict.mem d k0) eqn:Hm.
  - apply dict_mem_In in Hm. split; [tauto|]. intros [H|[<-|H]]; auto.
  - rewrite in_app_iff. simpl. tauto.
Qed.

(** X3.  [describe_sources] never raises; the count is the number of
    documents, the per-kind counts and the per-visibility counts each add up
    to it, the kinds and visibilities listed are exactly those that occur,
    the total is the sum of the word counts, and for no document the average
    is 0. *)
Theorem describe_sources_totals (sources : list SourceDocument.t) :
  exists summary,
    describe_sources sources = Return summary
    /\ SourceSummary.count summary = List.length sources
    /\ sum_nat (Dict.values (SourceSummary.by_kind summary)) = List.length sources
    /\ sum_nat (Dict.values (SourceSummary.visibility summary)) = List.length sources
    /\ (forall k, In k (Dict.keys (SourceSummary.by_kind summary))
                  <-> In k (map SourceDocument.kind sources))
    /\ (forall v, In v (Dict.keys (SourceSummary.visibility summary))
                  <-> In v (map SourceDocument.visibility sources))
    /\ SourceSummary.total_words summary = list_sum (map word_count sources)
    /\ (sources = [] -> SourceSummary.avg_words summary = 0%Z).
Proof.
  unfold describe_sources.
  assert (Havg : exists avg,
             match sources with
             | _ :: _ =>
                 q <- Float.fdiv (sum_nat (map word_count sources)) (List.length sources) ;;
                 Return (round1 q)
             | [] => Return 0%Z
             end = Return avg /\ (sources = [] -> avg = 0%Z)).
  { destruct sources as [|s0 rest]; [eauto|].
    destruct (fdiv_nonzero (sum_nat (map word_count (s0 :: rest)))
                (List.length (s0 :: rest))) as [q Hq]; [simpl; lia|].
    rewrite Hq. simpl. eexists. split; [reflexivity | discriminate]. }
  destruct Havg as (avg & Havg & Hzero). rewrite Havg. simpl.
  eexists. split; [reflexivity|]. simpl.
  split; [reflexivity|].
  split; [rewrite Counter_total, length_map; reflexivity|].
  split; [rewrite Counter_total, length_map; reflexivity|].
  split; [intros k; unfold Counter; rewrite counter_fold_keys; simpl; tauto|].
  split; [intros k; unfold Counter; rewrite counter_fold_keys; simpl; tauto|].
  split; [apply sum_nat_list_sum | exact Hzero].
Qed.

(** ** Profile statistics *)

Lemma count_kind_total (signals : list SkillSignal.t) :
  count_kind explicit signals + count_kind implicit signals = List.length signals.
Proof.
  unfold count_kind. induction signals as [|s signals IH]; simpl; [reflexivity|].
  destruct (SkillSignal.signal_type s); simpl; lia.
Qed.

(** X4.  The statistics of a signal list and a source list are computed
    without raising and are consistent: the explicit and implicit counts add
    up to the number of signals, as do the counts of the category
    distribution; the visibility counts add up to the source count, which is
    the number of sources; and at most three leading source names are kept. *)
Theorem _profile_stats_totals (normalize_skill : string -> string)
    (framework : Dict.t (list string)) (signals : list SkillSignal.t)
    (sources : list SourceDocument.t) :
  exists stats,
    _profile_stats_with normalize_skill framework signals sources = Return stats
    /\ ProfileStats.explicit_count stats + ProfileStats.implicit_count stats
       = List.length signals
    /\ sum_nat (Dict.values (ProfileStats.category_distribution stats))
       = List.length signals
    /\ (forall c, In c (Dict.keys (ProfileStats.category_distribution stats))
                  <-> In c (map SkillSignal.category signals))
    /\ ProfileStats.source_count stats = List.length sources
    /\ sum_nat (Dict.values (ProfileStats.sources_visibility stats))
       = ProfileStats.source_count stats
    /\ ProfileStats.top_sources stats = map SourceDocument.name (firstn 3 sources)
    /\ List.length (ProfileStats.top_sources stats) = Nat.min 3 (List.length sources).
Proof.
  unfold _profile_stats_with.
  destruct (mapM_returns
              (fun item => a <- align_category normalize_skill signals item ;;
                           Return (fst item, a)) framework) as (rows & Hrows & _).
  { intros item _. destruct (align_category_returns normalize_skill signals item) as [a Ha].
    rewrite Ha. simpl. eauto. }
  rewrite Hrows. unfold bind. eexists. split; [reflexivity|].
  cbn [ProfileStats.explicit_count ProfileStats.implicit_count
       ProfileStats.category_distribution ProfileStats.source_count
       ProfileStats.sources_visibility ProfileStats.top_sources].
  split; [apply count_kind_total|].
  split; [rewrite Counter_total, length_map; reflexivity|].
  split; [intros c; unfold Counter; rewrite counter_fold_keys; simpl; tauto|].
  split; [reflexivity|].
  split; [rewrite Counter_total, length_map; reflexivity|].
  split; [reflexivity|].
  rewrite length_map, length_firstn. reflexivity.
Qed.

(** ** Confidence as a function of the counts *)

Lemma mention_bonus_cents_step (m : nat) :
  (mention_bonus_cents m <= mention_bonus_cents (S m))%Z.
Proof.
  destruct (le_lt_dec 18 m) as [Hbig|Hsmall].
  - rewrite !mention_bonus_cents_capped by lia. lia.
  - unfold mention_bonus_cents.
    do 18 (destruct m as [|m]; [apply Z.leb_le; reflexivity|]). lia.
Qed.

Lemma mention_bonus_cents_mono (m m' : nat) :
  m <= m' -> (mention_bonus_cents m <= mention_bonus_cents m')%Z.
Proof.
  induction 1 as [|m' Hle IH]; [lia|].
  pose proof (mention_bonus_cents_step m'). lia.
Qed.

Lemma confidence_cents_le (k : signal_kind) (m m' n n' : nat) :
  m <= m' -> n <= n' -> (confidence_cents k m n <= confidence_cents k m' n')%Z.
Proof.
  intros Hm Hn. pose proof (mention_bonus_cents_mono m m' Hm) as Hb.
  unfold confidence_cents, source_bonus_cents, base_cents. destruct k; lia.
Qed.

(** X5.  The confidence never decreases when a skill gathers more mentions
    or more sources, an explicit signal never scores below an implicit one
    with the same counts, and the two kinds differ by at most 0.10. *)
Theorem confidence_cents_monotone (k : signal_kind) (m m' n n' : nat) :
  m <= m' -> n <= n' ->
  (confidence_cents k m n <= confidence_cents k m' n')%Z
  /\ (confidence_cents implicit m n <= confidence_cents explicit m n
      <= confidence_cents implicit m n + 10)%Z.
Proof.
  intros Hm Hn. split; [apply confidence_cents_le; assumption|].
  unfold confidence_cents, source_bonus_cents, base_cents. lia.
Qed.

(** ** What a built profile guarantees for each signal *)

Lemma dict_values_In {V : Type} (d : Dict.t V) (v : V) :
  In v (Dict.values d) <-> exists k, In (k, v) d.
Proof.
  unfold Dict.values. rewrite in_map_iff. split.
  - intros ([k v'] & <- & H). exists k. exact H.
  - intros (k & H). exists (k, v). auto.
Qed.

Lemma dict_of_items_fold_In {V : Type} (items d : list (string * V)) (kv : string * V) :
  In kv (fold_left (fun d kv => Dict.set d (fst kv) (snd kv)) items d) ->
  In kv d \/ In kv items.
Proof.
  revert d. induction items as [|[k v] items IH]; intros d; simpl; [auto|].
  intros H. apply IH in H. destruct H as [H|H]; [|auto].
  destruct kv as [k' v']. apply dict_set_In in H. destruct H as [[-> ->]|H]; auto.
Qed.

Lemma dict_of_items_In {V : Type} (items : list (string * V)) (kv : string * V) :
  In kv (Dict.of_items items) -> In kv items.
Proof.
  intros H. apply dict_of_items_fold_In in H. destruct H as [[]|H]. exact H.
Qed.

Section SignalFacts.
Variable normalize_skill : string -> string.
Variable COMMON_SKILLS : list string.

Lemma events_of_source source e :
  In e (events_of normalize_skill COMMON_SKILLS source) -> Event.source e = source.
Proof.
  unfold events_of, explicit_events, implicit_events. intros H.
  apply in_app_or in H. destruct H as [H|H].
  - apply in_flat_map in H. destruct H as (skill & _ & H).
    apply in_map_iff in H. destruct H as (span & <- & _). reflexivity.
  - apply in_flat_map in H. destruct H as (item & _ & H).
    apply in_flat_map in H. destruct H as (pattern & _ & H).
    apply in_map_iff in H. destruct H as (span & <- & _). reflexivity.
Qed.

(** Every signal of a finalized registry comes from the events of its key. *)
Lemma finalized_signal_events (events : list Event.t) (s : SkillSignal.t) :
  In s (_finalize_registry (fold_left (register_event normalize_skill) events [])) ->
  exists k e0 rest,
    at_key normalize_skill k events = e0 :: rest
    /\ s = finalize_entry
             (Entry.mk (Event.name e0)
                (if Str.is_empty (Event.category e0) then "Uncategorized"
                 else Event.category e0)
                (Event.type e0)
                (set_of_list (source_names (e0 :: rest)))
                (evidence_of (e0 :: rest))
                (List.length (e0 :: rest))).
Proof.
  intros Hs. apply _finalize_registry_In in Hs. destruct Hs as (entry & Hentry & ->).
  apply dict_values_In in Hentry. destruct Hentry as (k & Hin).
  pose proof (registry_events_wf normalize_skill events) as [Hnd _].
  apply (dict_In_get _ _ _ Hnd) in Hin.
  rewrite registry_get_events in Hin.
  destruct (at_key normalize_skill k events) as [|e0 rest] eqn:Hk; [discriminate|].
  injection Hin as <-. exists k, e0, rest. auto.
Qed.

Lemma explicit_category_framework (skill : string) :
  In (explicit_category normalize_skill skill) framework_categories.
Proof.
  unfold explicit_category.
  destruct (Dict.get (FRAMEWORK_LOOKUP normalize_skill) (normalize_skill skill))
    as [c|] eqn:Hg.
  - apply dict_get_In in Hg. unfold FRAMEWORK_LOOKUP, FRAMEWORK_LOOKUP_of in Hg.
    apply dict_of_items_In in Hg. apply in_flat_map in Hg.
    destruct Hg as (cs & Hcs & Hin). apply in_map_iff in Hin.
    destruct Hin as (x & [= _ <-] & _).
    unfold framework_categories, Dict.keys. apply in_map, Hcs.
  - simpl. auto.
Qed.

Lemma implicit_category_framework (name : string) :
  In (implicit_category name) framework_categories.
Proof.
  unfold implicit_category.
  destruct (Dict.get IMPLICIT_CATEGORY name) as [c|] eqn:Hg.
  - apply dict_get_In in Hg. unfold IMPLICIT_CATEGORY in Hg. simpl in Hg.
    repeat (destruct Hg as [[= _ <-]|Hg]; [simpl; tauto|]). destruct Hg.
  - simpl. tauto.
Qed.

Lemma framework_categories_nonempty (c : string) :
  In c framework_categories -> Str.is_empty c = false.
Proof.
  simpl. intros [<-|[<-|[<-|[<-|[]]]]]; reflexivity.
Qed.

Lemma events_of_category source e :
  In e (events_of normalize_skill COMMON_SKILLS source) ->
  In (Event.category e) framework_categories.
Proof.
  intros H. unfold events_of in H. apply in_app_or in H. destruct H as [H|H].
  - apply (explicit_events_lexicon normalize_skill COMMON_SKILLS) in H.
    destruct H as [_ ->]. destruct (Event.type e); simpl;
      [apply explicit_category_framework | apply implicit_category_framework].
  - apply (implicit_events_lexicon normalize_skill COMMON_SKILLS) in H.
    destruct H as [_ ->]. destruct (Event.type e); simpl;
      [apply explicit_category_framework | apply implicit_category_framework].
Qed.

Lemma evidence_of_sources (events : list Event.t) (ev : SkillEvidence.t) :
  In ev (evidence_of events) -> In (SkillEvidence.source ev) (source_names events).
Proof.
  unfold evidence_of, source_names. rewrite in_flat_map. intros (e & He & Hev).
  destruct (truthy (Event.snippet e)); [|destruct Hev].
  destruct Hev as [<-|[]]. simpl.
  apply in_map_iff. exists e. auto.
Qed.

Lemma firstn_In {A : Type} (n : nat) (l : list A) (x : A) : In x (firstn n l) -> In x l.
Proof.
  revert l. induction n as [|n IH]; intros [|a l]; simpl; try tauto.
  intros [H|H]; auto.
Qed.

(** X6.  In every profile that the builder returns, each signal has a
    confidence between 0.53 and 0.98 (at least 0.63 when explicit), a category
    of the framework, a list of sources that is not empty, strictly
    ascending, and made of names of non-blank input documents, and evidence
    that only quotes those sources. *)
Theorem built_signal_invariants (sources : list (option SourceDocument.t)) :
  exists profile,
    build_skill_profile normalize_skill COMMON_SKILLS sources = Return profile
    /\ forall s, In s (get_signals profile) ->
         (53 <= SkillSignal.confidence s <= 98)%Z
         /\ (SkillSignal.signal_type s = explicit -> (63 <= SkillSignal.confidence s)%Z)
         /\ In (SkillSignal.category s) framework_categories
         /\ SkillSignal.sources s <> []
         /\ StronglySorted (fun a b => String.ltb a b = true) (SkillSignal.sources s)
         /\ (forall n, In n (SkillSignal.sources s) ->
                       In n (map SourceDocument.name (usable_sources sources)))
         /\ (forall ev, In ev (SkillSignal.evidence s) ->
                        In (SkillEvidence.source ev) (SkillSignal.sources s)).
Proof.
  destruct (build_skill_profile_returns normalize_skill COMMON_SKILLS sources)
    as [stats Hb].
  eexists. split; [exact Hb|]. unfold get_signals. cbn [Profile.signals].
  intros s Hs. rewrite build_registry_events in Hs.
  set (events := flat_map (events_of normalize_skill COMMON_SKILLS)
                   (usable_sources sources)) in *.
  destruct (finalized_signal_events events s Hs) as (k & e0 & rest & Hk & ->).
  assert (Hin0 : In e0 events).
  { assert (H0 : In e0 (at_key normalize_skill k events)) by (rewrite Hk; left; reflexivity).
    apply at_key_In in H0. apply H0. }
  assert (Hsub : forall e, In e (e0 :: rest) -> In e events).
  { intros e He. rewrite <- Hk in He. apply at_key_In in He. apply He. }
  assert (Hsrc : forall e, In e events ->
                           In (SourceDocument.name (Event.source e))
                              (map SourceDocument.name (usable_sources sources))).
  { intros e He. unfold events in He. apply in_flat_map in He.
    destruct He as (src & Hsrc & He). apply events_of_source in He. rewrite He.
    apply in_map, Hsrc. }
  set (srcs := set_of_list (source_names (e0 :: rest))).
  assert (Hlen : 1 <= List.length srcs).
  { assert (Hi : In (SourceDocument.name (Event.source e0)) srcs).
    { apply set_of_list_In. left. reflexivity. }
    destruct srcs; [destruct Hi | simpl; lia]. }
  unfold finalize_entry.
  cbn [SkillSignal.confidence SkillSignal.signal_type SkillSignal.category
       SkillSignal.sources SkillSignal.evidence Entry.name Entry.category Entry.type
       Entry.sources Entry.snippets Entry.mentions].
  fold srcs.
  assert (Hm : 1 <= List.length (e0 :: rest)) by (simpl; lia).
  pose proof (confidence_cents_le (Event.type e0) 1 (List.length (e0 :: rest))
                1 (List.length srcs) Hm Hlen) as Hmono.
  pose proof (confidence_cents_range (Event.type e0) (List.length (e0 :: rest))
                (List.length srcs)) as [_ Hhi].
  split; [|split; [|split; [|split; [|split; [|split]]]]].
  - split; [|exact Hhi]. destruct (Event.type e0).
    + change (confidence_cents explicit 1 1) with 63%Z in Hmono. lia.
    + change (confidence_cents implicit 1 1) with 53%Z in Hmono. lia.
  - intros Ht. rewrite Ht in Hmono. change (confidence_cents explicit 1 1) with 63%Z in Hmono.
    rewrite Ht. exact Hmono.
  - assert (Hc : In (Event.category e0) framework_categories).
    { unfold events in Hin0. apply in_flat_map in Hin0.
      destruct Hin0 as (src & _ & He). eapply events_of_category; exact He. }
    rewrite (framework_categories_nonempty _ Hc). exact Hc.
  - intros Hnil. assert (Hl : List.length (sorted_str srcs) = 0) by (rewrite Hnil; reflexivity).
    unfold sorted_str in Hl. rewrite sorted_by_length in Hl. lia.
  - apply sorted_set_strict.
  - intros n Hn. apply (proj1 (sorted_by_In _ _ _)) in Hn.
    apply (proj1 (set_of_list_In _ _)) in Hn. unfold source_names in Hn.
    apply in_map_iff in Hn. destruct Hn as (e & <- & He). apply Hsrc, Hsub, He.
  - intros ev Hev. apply firstn_In in Hev. apply evidence_of_sources in Hev.
    apply (proj2 (sorted_by_In _ _ _)). apply (proj2 (set_of_list_In _ _)). exact Hev.
Qed.

End SignalFacts.

(** ** One registration, and the account of the mentions *)

Section RegisterFacts.
Variable normalize_skill : string -> string.
Variable COMMON_SKILLS : list string.

Lemma set_add_incl (x : string) (s : list string) : incl s (set_add x s).
Proof. intros y Hy. apply set_add_In. auto. Qed.

(** X7.  One call of [_register_signal] raises the mention count of the
    skill's key by exactly one (from 0 for a new key) and records the source;
    an entry already in the registry keeps its name, category and kind, loses
    no source and no snippet, and no other key's entry changes; the keys keep
    their order, a new key going last. *)
Theorem _register_signal_monotone (registry : Dict.t Entry.t) (name category : string)
    (signal_type : signal_kind) (source : SourceDocument.t) (snippet : option string) :
  let registry' :=
    _register_signal normalize_skill registry name category signal_type source snippet in
  let key := normalize_skill name in
  (exists e',
      Dict.get registry' key = Some e'
      /\ Entry.mentions e'
         = S (match Dict.get registry key with Some e => Entry.mentions e | None => 0 end)
      /\ In (SourceDocument.name source) (Entry.sources e'))
  /\ (forall k e, Dict.get registry k = Some e ->
        exists e',
          Dict.get registry' k = Some e'
          /\ Entry.name e' = Entry.name e
          /\ Entry.category e' = Entry.category e
          /\ Entry.type e' = Entry.type e
          /\ Entry.mentions e <= Entry.mentions e'
          /\ incl (Entry.sources e) (Entry.sources e')
          /\ exists more, Entry.snippets e' = Entry.snippets e ++ more)
  /\ (forall k, k <> key -> Dict.get registry' k = Dict.get registry k)
  /\ exists added, Dict.keys registry' = Dict.keys registry ++ added
                   /\ (added = [] \/ added = [key]).
Proof.
  intros registry' key.
  change registry' with
    (register_event normalize_skill registry
       (Event.mk name category signal_type source snippet)).
  assert (Hget : forall k, Dict.get
                             (register_event normalize_skill registry
                                (Event.mk name category signal_type source snippet)) k
                           = absorb_at normalize_skill k (Dict.get registry k)
                               (Event.mk name category signal_type source snippet)).
  { intros k. apply get_register_event. }
  split; [|split; [|split]].
  - eexists. rewrite Hget. unfold absorb_at, event_key. cbn [Event.name].
    fold key. rewrite String.eqb_refl. split; [reflexivity|].
    unfold absorb. cbn [Entry.mentions Entry.sources Event.source].
    split.
    + destruct (Dict.get registry key); reflexivity.
    + apply set_add_In. auto.
  - intros k e Hk. rewrite Hget. unfold absorb_at, event_key. cbn [Event.name].
    fold key. rewrite Hk. destruct (String.eqb key k).
    + eexists. split; [reflexivity|]. unfold absorb.
      cbn [Entry.name Entry.category Entry.type Entry.mentions Entry.sources
           Entry.snippets Event.source Event.snippet].
      split; [reflexivity|]. split; [reflexivity|]. split; [reflexivity|].
      split; [lia|]. split; [apply set_add_incl|].
      destruct (truthy snippet); eexists; [reflexivity | rewrite app_nil_r; reflexivity].
    + exists e. split; [reflexivity|]. split; [reflexivity|]. split; [reflexivity|].
      split; [reflexivity|]. split; [lia|]. split; [apply incl_refl|].
      exists []. rewrite app_nil_r. reflexivity.
  - intros k Hne. rewrite Hget. unfold absorb_at, event_key. cbn [Event.name]. fold key.
    destruct (String.eqb_spec key k); [congruence | reflexivity].
  - rewrite register_event_set. rewrite dict_set_keys.
    unfold event_key. cbn [Event.name]. fold key.
    destruct (Dict.mem registry key).
    + exists []. rewrite app_nil_r. auto.
    + exists [key]. auto.
Qed.

Lemma register_event_total (registry : Dict.t Entry.t) (e : Event.t) :
  list_sum (map Entry.mentions (Dict.values (register_event normalize_skill registry e)))
  = S (list_sum (map Entry.mentions (Dict.values registry))).
Proof.
  rewrite register_event_set.
  set (k := event_key normalize_skill e).
  unfold absorb.
  induction registry as [|[k' x] registry IH]; simpl.
  - reflexivity.
  - destruct (String.eqb k' k) eqn:Hk; simpl.
    + lia.
    + change (map snd ?l) with (Dict.values l). rewrite IH. lia.
Qed.

Lemma register_fold_total (events : list Event.t) (registry : Dict.t Entry.t) :
  list_sum (map Entry.mentions
              (Dict.values (fold_left (register_event normalize_skill) events registry)))
  = list_sum (map Entry.mentions (Dict.values registry)) + List.length events.
Proof.
  revert registry. induction events as [|e events IH]; intros registry; simpl; [lia|].
  rewrite IH, register_event_total. lia.
Qed.

(** X8.  In the registry built from a batch, the mention count of a skill is
    the number of occurrences found for its key in the non-blank documents (a
    key with no occurrence has no entry), and the mention counts of all the
    entries add up to the number of occurrences found. *)
Theorem build_registry_mentions (sources : list SourceDocument.t) :
  let registry := build_registry normalize_skill COMMON_SKILLS sources in
  let events := flat_map (events_of normalize_skill COMMON_SKILLS) sources in
  (forall k,
      mention_count registry k
      = match List.length (at_key normalize_skill k events) with
        | 0 => None
        | S n => Some (S n)
        end)
  /\ list_sum (map Entry.mentions (Dict.values registry)) = List.length events.
Proof.
  intros registry events. unfold registry. rewrite build_registry_events. fold events.
  split.
  - intros k. unfold mention_count. rewrite registry_get_events.
    destruct (at_key normalize_skill k events); reflexivity.
  - rewrite register_fold_total. reflexivity.
Qed.

End RegisterFacts.

(** ** Ratios in cents *)

Lemma round_half_even_exact (k den : Z) :
  (0 < den)%Z -> Float.round_half_even (k * den) den = k.
Proof.
  intros Hden. unfold Float.round_half_even.
  rewrite Z.div_mul by lia. rewrite Z.mod_mul by lia.
  destruct (Z.ltb_spec (2 * 0) den); [reflexivity | lia].
Qed.

Lemma round_half_even_bounds (num den k : Z) :
  (0 < den)%Z -> (0 <= num <= k * den)%Z ->
  (0 <= Float.round_half_even num den <= k)%Z.
Proof.
  intros Hden [Hlo Hhi]. unfold Float.round_half_even.
  pose proof (Z.div_mod num den ltac:(lia)) as Hdm.
  pose proof (Z.mod_pos_bound num den Hden) as Hmod.
  assert (Hq0 : (0 <= num / den)%Z) by (apply Z.div_pos; lia).
  assert (Hqk : (num / den <= k)%Z).
  { apply Z.div_le_upper_bound; lia. }
  assert (Hfull : (num / den = k -> num mod den = 0)%Z) by nia.
  destruct (Z.ltb_spec (2 * (num mod den)) den); [lia|].
  assert (Hlt : (num / den < k)%Z).
  { destruct (Z.eq_dec (num / den) k) as [E|E]; [specialize (Hfull E); lia | lia]. }
  destruct (Z.ltb_spec den (2 * (num mod den))); [lia|].
  destruct (Z.even (num / den)); lia.
Qed.

Lemma div_pos_expo (a b : Z) :
  (0 < a <= b)%Z -> (Float.expo (Float.div_pos a b) <= -52)%Z.
Proof.
  intros Hab. unfold Float.div_pos. cbn [Float.expo].
  pose proof (Z.log2_le_mono a b ltac:(lia)).
  destruct (2 ^ 53 <=? _)%Z; lia.
Qed.

Lemma div_pos_mant (a b : Z) :
  (0 < a <= b)%Z ->
  Float.mant (Float.div_pos a b)
  = Float.round_half_even (a * 2 ^ (- Float.expo (Float.div_pos a b))) b.
Proof.
  intros Hab. pose proof (div_pos_expo a b Hab) as He.
  unfold Float.div_pos in *. cbn [Float.expo Float.mant] in *.
  set (e := if (2 ^ 53 <=? _)%Z then _ else _) in *.
  unfold Float.scaled_num, Float.scaled_den.
  rewrite (Z.max_r 0 (- e)) by lia. rewrite (Z.max_l 0 e) by lia.
  rewrite Z.pow_0_r, Z.mul_1_r. reflexivity.
Qed.

(** The cents of the quotient of two lengths lie between 0 and 100 when the
    numerator does not exceed the denominator, and are 100 when they are
    equal. *)
Lemma quotient_cents_range (a b : nat) :
  a <= b -> 0 < b -> (0 <= quotient_cents a b <= 100)%Z.
Proof.
  intros Hab Hb. unfold quotient_cents, Float.fdiv.
  destruct b as [|b']; [lia|].
  destruct a as [|a']; [change (0 <= 0 <= 100)%Z; lia|].
  set (A := Z.of_nat (S a')). set (B := Z.of_nat (S b')).
  assert (HAB : (0 < A <= B)%Z) by (unfold A, B; lia).
  pose proof (div_pos_expo A B HAB) as He.
  pose proof (div_pos_mant A B HAB) as Hm.
  unfold Float.round2.
  destruct (Z.leb_spec 0 (Float.expo (Float.div_pos A B))) as [Hge|Hlt]; [lia|].
  set (p := (2 ^ (- Float.expo (Float.div_pos A B)))%Z) in *.
  assert (Hp : (0 < p)%Z) by (apply Z.pow_pos_nonneg; lia).
  assert (Hmant : (0 <= Float.mant (Float.div_pos A B) <= p)%Z).
  { rewrite Hm. apply round_half_even_bounds; nia. }
  apply round_half_even_bounds; nia.
Qed.

Lemma quotient_cents_full (n : nat) : 0 < n -> quotient_cents n n = 100%Z.
Proof.
  intros Hn. unfold quotient_cents, Float.fdiv.
  destruct n as [|n']; [lia|].
  set (N := Z.of_nat (S n')).
  assert (HN : (0 < N <= N)%Z) by (unfold N; lia).
  pose proof (div_pos_expo N N HN) as He.
  pose proof (div_pos_mant N N HN) as Hm.
  unfold Float.round2.
  destruct (Z.leb_spec 0 (Float.expo (Float.div_pos N N))) as [Hge|Hlt]; [lia|].
  set (p := (2 ^ (- Float.expo (Float.div_pos N N)))%Z) in *.
  assert (Hp : (0 < p)%Z) by (apply Z.pow_pos_nonneg; lia).
  rewrite (Z.mul_comm N p) in Hm. rewrite round_half_even_exact in Hm by lia.
  rewrite Hm. apply round_half_even_exact. exact Hp.
Qed.

Lemma quotient_cents_zero (b : nat) : 0 < b -> quotient_cents 0 b = 0%Z.
Proof. intros Hb. destruct b; [lia | reflexivity]. Qed.

Lemma quotient_cents_fdiv (a b : nat) (q : Float.float64) :
  Float.fdiv a b = Return q -> Float.round2 q = quotient_cents a b.
Proof. intros H. unfold quotient_cents. rewrite H. reflexivity. Qed.

(** ** Comparison with a team, in general *)

Section TeamCompareFacts.
Variable normalize_skill : string -> string.

Let key_of (s : SkillSignal.t) : string := normalize_skill (SkillSignal.name s).

Lemma team_skillset_fold (team : list TeamMember.t) (acc : list string) :
  fold_left
    (fun team member =>
       fold_left (fun team skill => set_add (normalize_skill skill) team)
         (member_skills member) team)
    team acc
  = fold_left (fun s x => set_add x s) (team_keys normalize_skill team) acc.
Proof.
  unfold team_keys. rewrite fold_left_flat_map. apply fold_left_ext.
  intros s member. rewrite fold_left_map. reflexivity.
Qed.

Lemma compare_against_team_unfold (skill_profile : Profile.t) (team : list TeamMember.t) :
  compare_against_team normalize_skill skill_profile team
  = let candidate_skillset := as_skill_set normalize_skill (get_signals skill_profile) in
    let candidate_keys := set_of_list (Dict.keys candidate_skillset) in
    let team_skillset := set_of_list (team_keys normalize_skill team) in
    TeamReport.mk (List.length team) (List.length team_skillset)
      (sorted_str
         (flat_map
            (fun key => match Dict.get candidate_skillset key with
                        | Some signal => [SkillSignal.name signal]
                        | None => []
                        end)
            (set_diff candidate_keys team_skillset)))
      (sorted_str (set_diff team_skillset candidate_keys)).
Proof.
  unfold compare_against_team. rewrite team_skillset_fold. reflexivity.
Qed.

Lemma set_diff_NoDup (a b : list string) : NoDup a -> NoDup (set_diff a b).
Proof. apply filter_NoDup. Qed.

(** X9.  For a candidate profile with one signal per normalized skill name
    and any team: the team size is the number of members; the team skill
    coverage is the number of distinct normalized team skills; the unique
    strengths are, in ascending order, the names of the candidate's signals
    whose key no team member lists; and the team gaps are, strictly
    ascending, the normalized team skills that are no key of the candidate,
    so no gap is a skill the candidate has. *)
Theorem compare_against_team_spec (skill_profile : Profile.t) (team : list TeamMember.t) :
  NoDup (map key_of (get_signals skill_profile)) ->
  let report := compare_against_team normalize_skill skill_profile team in
  TeamReport.team_size report = List.length team
  /\ (exists keys, NoDup keys
                   /\ (forall k, In k keys <-> In k (team_keys normalize_skill team))
                   /\ TeamReport.team_skill_coverage report = List.length keys)
  /\ StronglySorted (fun a b => String.leb a b = true) (TeamReport.unique_strengths report)
  /\ (forall n, In n (TeamReport.unique_strengths report) <->
                exists s, In s (get_signals skill_profile) /\ SkillSignal.name s = n
                          /\ ~ In (key_of s) (team_keys normalize_skill team))
  /\ StronglySorted (fun a b => String.ltb a b = true) (TeamReport.team_gaps report)
  /\ (forall k, In k (TeamReport.team_gaps report) <->
                In k (team_keys normalize_skill team)
                /\ ~ In k (map key_of (get_signals skill_profile))).
Proof.
  intros Hnd report. unfold report. rewrite compare_against_team_unfold. cbv zeta.
  cbn [TeamReport.team_size TeamReport.team_skill_coverage TeamReport.unique_strengths
       TeamReport.team_gaps].
  rewrite (as_skill_set_NoDup normalize_skill _ Hnd).
  set (d := map (fun s => (normalize_skill (SkillSignal.name s), s))
              (get_signals skill_profile)).
  assert (Hkeys : Dict.keys d = map key_of (get_signals skill_profile)).
  { unfold d, Dict.keys. rewrite map_map. reflexivity. }
  assert (Hd : NoDup (Dict.keys d)) by (rewrite Hkeys; exact Hnd).
  rewrite (set_of_list_NoDup_id _ Hd).
  set (T := set_of_list (team_keys normalize_skill team)).
  split; [reflexivity|]. split.
  { exists T. split; [apply set_of_list_NoDup|]. split; [|reflexivity].
    intros k. apply set_of_list_In. }
  split; [apply sorted_str_sorted|]. split.
  { intros n. unfold sorted_str. rewrite sorted_by_In, in_flat_map. split.
    - intros (k & Hk & Hn). apply set_diff_In in Hk. destruct Hk as [Hk HnT].
      destruct (Dict.get d k) as [s|] eqn:Hg; [|destruct Hn].
      destruct Hn as [<-|[]]. apply dict_get_In in Hg.
      unfold d in Hg. apply in_map_iff in Hg. destruct Hg as (s' & [= <- <-] & Hs').
      exists s'. split; [exact Hs'|]. split; [reflexivity|].
      intros Hin. apply HnT. apply set_of_list_In. exact Hin.
    - intros (s & Hs & <- & HnT). exists (key_of s). split.
      + apply set_diff_In. split.
        * rewrite Hkeys. apply in_map, Hs.
        * intros Hin. apply HnT. apply (proj1 (set_of_list_In _ _)). exact Hin.
      + assert (Hg : Dict.get d (key_of s) = Some s).
        { apply dict_In_get; [exact Hd|]. unfold d. apply in_map_iff. exists s. auto. }
        rewrite Hg. left. reflexivity. }
  split.
  { apply StronglySorted_strict; [apply sorted_str_sorted|].
    eapply Permutation_NoDup; [apply Permutation_sym, sorted_by_perm|].
    apply set_diff_NoDup, set_of_list_NoDup. }
  intros k. unfold sorted_str. rewrite sorted_by_In, set_diff_In.
  unfold T. rewrite set_of_list_In, Hkeys. reflexivity.
Qed.

Lemma set_mem_same (x : string) (a b : list string) :
  (forall y, In y a <-> In y b) -> set_mem x a = set_mem x b.
Proof.
  intros H. apply eq_true_iff_eq. rewrite !set_mem_In. apply H.
Qed.

(** X10.  The report does not depend on the order of the team members. *)
Theorem compare_against_team_order (skill_profile : Profile.t)
    (team team' : list TeamMember.t) :
  Permutation team team' ->
  compare_against_team normalize_skill skill_profile team
  = compare_against_team normalize_skill skill_profile team'.
Proof.
  intros Hp. rewrite !compare_against_team_unfold. cbv zeta.
  assert (Hkeys : Permutation (team_keys normalize_skill team)
                              (team_keys normalize_skill team')).
  { unfold team_keys. apply Permutation_flat_map, Hp. }
  pose proof (set_of_list_perm _ _ Hkeys) as HT.
  assert (Hsame : forall y, In y (set_of_list (team_keys normalize_skill team))
                            <-> In y (set_of_list (team_keys normalize_skill team'))).
  { intros y. split; apply Permutation_in; [exact HT | apply Permutation_sym, HT]. }
  f_equal.
  - apply Permutation_length, Hp.
  - apply Permutation_length, HT.
  - f_equal. f_equal. unfold set_diff. apply filter_ext. intros x.
    f_equal. apply set_mem_same, Hsame.
  - apply sorted_str_perm_eq. unfold set_diff.
    apply NoDup_Permutation.
    + apply filter_NoDup, set_of_list_NoDup.
    + apply filter_NoDup, set_of_list_NoDup.
    + intros x. rewrite !filter_In. rewrite (Hsame x). reflexivity.
Qed.

End TeamCompareFacts.

(** ** The job match as a partition *)

Lemma filter_partition_length {A : Type} (p : A -> bool) (l : list A) :
  List.length (filter p l) + List.length (filter (fun a => negb (p a)) l) = List.length l.
Proof.
  induction l as [|a l IH]; simpl; [reflexivity|].
  destruct (p a); simpl; lia.
Qed.

Lemma filter_names_NoDup (keep : SkillSignal.t -> bool) (signals : list SkillSignal.t) :
  NoDup (map SkillSignal.name signals) ->
  NoDup (map SkillSignal.name (filter keep signals)).
Proof.
  induction signals as [|s signals IH]; simpl; intros Hnd; [constructor|].
  inversion Hnd as [|? ? Hna Hnd']; subst.
  destruct (keep s); simpl; [constructor|]; auto.
  intros Hin. apply Hna. apply in_map_iff in Hin. destruct Hin as (b & Hb & Hbl).
  apply filter_In in Hbl. rewrite <- Hb. apply in_map. apply Hbl.
Qed.

Lemma NoDup_map_finer {A B C : Type} (f : A -> B) (g : A -> C) (l : list A) :
  (forall a b, g a = g b -> f a = f b) -> NoDup (map f l) -> NoDup (map g l).
Proof.
  intros H. induction l as [|a l IH]; simpl; intros Hnd; [constructor|].
  inversion Hnd as [|? ? Hna Hnd']; subst. constructor; [|apply IH; exact Hnd'].
  intros Hin. apply Hna. apply in_map_iff in Hin. destruct Hin as (b & Hb & Hbl).
  apply in_map_iff. exists b. split; [apply H; exact Hb | exact Hbl].
Qed.

Lemma sorted_set_length (l : list string) :
  NoDup l -> List.length (sorted_str (set_of_list l)) = List.length l.
Proof.
  intros H. unfold sorted_str. rewrite sorted_by_length, (set_of_list_NoDup_id _ H).
  reflexivity.
Qed.

Section MatchPartition.
Variable normalize_skill : string -> string.
Variable COMMON_SKILLS : list string.
Variable get_learning_resources : list string -> Dict.t string.

(** X11.  For job text that is not blank the matcher returns a result whose
    matched and gap lists split the job's skills: every job signal's name is
    in exactly one of them and their lengths add up to the number of job
    signals; the coverage lies between 0 and 1, is 1 when the job has skills
    and no gap, and is 0 when nothing matches; and the recommendations are
    those of the learning-resource lookup for the gaps (none being asked for
    when the job has no skill). *)
Theorem match_profile_to_job_partition (skill_profile : Profile.t) (job_text : string) :
  Str.is_empty (Str.strip job_text) = false ->
  exists job_profile r,
    build_skill_profile normalize_skill COMMON_SKILLS [Some (job_source job_text)]
    = Return job_profile
    /\ match_profile_to_job normalize_skill COMMON_SKILLS get_learning_resources
         skill_profile job_text = Return (Some r)
    /\ JobMatchResult.raw_job_profile r = job_profile
    /\ (forall s, In s (get_signals job_profile) ->
          (In (SkillSignal.name s) (JobMatchResult.matched r)
           /\ ~ In (SkillSignal.name s) (JobMatchResult.gaps r))
          \/ (In (SkillSignal.name s) (JobMatchResult.gaps r)
              /\ ~ In (SkillSignal.name s) (JobMatchResult.matched r)))
    /\ List.length (JobMatchResult.matched r) + List.length (JobMatchResult.gaps r)
       = List.length (get_signals job_profile)
    /\ (0 <= JobMatchResult.coverage r <= 100)%Z
    /\ (get_signals job_profile <> [] -> JobMatchResult.gaps r = [] ->
        JobMatchResult.coverage r = 100%Z)
    /\ (JobMatchResult.matched r = [] -> JobMatchResult.coverage r = 0%Z)
    /\ (get_signals job_profile = [] -> JobMatchResult.recommendations r = [])
    /\ (get_signals job_profile <> [] ->
        exists missing,
          JobMatchResult.recommendations r = get_learning_resources missing
          /\ Permutation missing (JobMatchResult.gaps r)).
Proof.
  intros Hne.
  destruct (build_skill_profile_returns normalize_skill COMMON_SKILLS
              [Some (job_source job_text)]) as [stats Hb].
  match type of Hb with _ = Return ?p => set (job_profile := p) in * end.
  assert (Hkeys : NoDup (map (fun s => normalize_skill (SkillSignal.name s))
                           (get_signals job_profile))).
  { eapply build_skill_profile_keys_NoDup. exact Hb. }
  clearbody job_profile.
  pose proof (match_profile_to_job_unfold normalize_skill COMMON_SKILLS
                get_learning_resources skill_profile _ _ Hne Hb) as Hm.
  cbv zeta in Hm.
  remember (get_signals job_profile) as job eqn:Ejob.
  set (cand := map (fun s => normalize_skill (SkillSignal.name s))
                 (get_signals skill_profile)) in *.
  set (inc := fun s : SkillSignal.t =>
                set_mem (normalize_skill (SkillSignal.name s)) cand) in *.
  set (hits := filter inc job) in *.
  set (misses := filter (fun s => negb (inc s)) job) in *.
  assert (Hnames : NoDup (map SkillSignal.name job)).
  { apply (NoDup_map_finer (fun s => normalize_skill (SkillSignal.name s))); [|exact Hkeys].
    intros a b Hab. rewrite Hab. reflexivity. }
  exists job_profile.
  assert (Hcase : job = [] \/ job <> []).
  { destruct job; [left; reflexivity | right; discriminate]. }
  destruct Hcase as [Hnil|Hjob].
  { rewrite Hnil in Hm. eexists. split; [exact Hb|]. split; [exact Hm|].
    cbn [JobMatchResult.raw_job_profile JobMatchResult.matched JobMatchResult.gaps
         JobMatchResult.coverage JobMatchResult.recommendations].
    rewrite <- Ejob, Hnil.
    split; [reflexivity|]. split; [intros s []|]. split; [reflexivity|].
    split; [lia|]. split; [congruence|]. split; [reflexivity|].
    split; [reflexivity | congruence]. }
  assert (Hlen : List.length job <> 0).
  { intros H0. apply Hjob, length_zero_iff_nil, H0. }
  destruct (fdiv_nonzero (List.length hits) (List.length job) Hlen) as [q Hq].
  rewrite (match_nonempty job _ _ Hjob), Hq in Hm. simpl bind in Hm.
  pose proof (quotient_cents_fdiv _ _ _ Hq) as Hcov.
  assert (Hhl : List.length hits <= List.length job) by apply filter_length_le.
  pose proof (filter_partition_length inc job) as Hpart. fold hits misses in Hpart.
  assert (Hhn : NoDup (map SkillSignal.name hits)) by (apply filter_names_NoDup, Hnames).
  assert (Hmn : NoDup (map SkillSignal.name misses)) by (apply filter_names_NoDup, Hnames).
  eexists. split; [exact Hb|]. split; [exact Hm|].
  cbn [JobMatchResult.raw_job_profile JobMatchResult.matched JobMatchResult.gaps
       JobMatchResult.coverage JobMatchResult.recommendations].
  rewrite <- Ejob.
  split; [reflexivity|]. split.
  { intros s Hs. rewrite !sorted_set_In.
    destruct (inc s) eqn:Hi; [left | right]; split.
    - apply in_map. apply filter_In. auto.
    - intros Hin. apply in_map_iff in Hin. destruct Hin as (s' & Hn & Hs').
      apply filter_In in Hs'. destruct Hs' as [_ Hi'].
      unfold inc in Hi, Hi'. rewrite Hn, Hi in Hi'. discriminate.
    - apply in_map. apply filter_In. split; [exact Hs|].
      change (negb (inc s) = true). rewrite Hi. reflexivity.
    - intros Hin. apply in_map_iff in Hin. destruct Hin as (s' & Hn & Hs').
      apply filter_In in Hs'. destruct Hs' as [_ Hi'].
      unfold inc in Hi, Hi'. rewrite Hn, Hi in Hi'. discriminate. }
  split.
  { rewrite !sorted_set_length by assumption. rewrite !length_map. exact Hpart. }
  split.
  { rewrite Hcov. apply quotient_cents_range; lia. }
  split.
  { intros _ Hgaps. rewrite Hcov.
    assert (H0 : List.length misses = 0).
    { pose proof (sorted_set_length _ Hmn) as Hl. rewrite length_map in Hl.
      assert (Hg : sorted_str (set_of_list (map SkillSignal.name misses)) = [])
        by exact Hgaps.
      rewrite Hg in Hl. simpl in Hl. lia. }
    replace (List.length hits) with (List.length job) by lia.
    apply quotient_cents_full. lia. }
  split.
  { intros Hmatched. rewrite Hcov.
    assert (H0 : List.length hits = 0).
    { pose proof (sorted_set_length _ Hhn) as Hl. rewrite length_map in Hl.
      assert (Hg : sorted_str (set_of_list (map SkillSignal.name hits)) = [])
        by exact Hmatched.
      rewrite Hg in Hl. simpl in Hl. lia. }
    rewrite H0. apply quotient_cents_zero. lia. }
  split; [intros Hnil; contradiction|].
  intros _. exists (map SkillSignal.name misses). split; [reflexivity|].
  change (Permutation (map SkillSignal.name misses)
            (sorted_str (set_of_list (map SkillSignal.name misses)))).
  rewrite (set_of_list_NoDup_id _ Hmn). apply Permutation_sym, sorted_by_perm.
Qed.

End MatchPartition.

(** ** The alignment table *)

Section AlignmentTable.
Variable normalize_skill : string -> string.

Lemma set_inter_NoDup (a b : list string) : NoDup a -> NoDup (set_inter a b).
Proof. apply filter_NoDup. Qed.

Lemma set_inter_length (a b : list string) :
  NoDup a -> List.length (set_inter a b) <= List.length b.
Proof.
  intros Ha. apply NoDup_incl_length; [apply set_inter_NoDup, Ha|].
  intros x Hx. apply set_inter_In in Hx. apply Hx.
Qed.

(** X12.  For a framework table without repeated category, the alignment
    table has the framework's categories in the framework's order, and the
    entry of each category lists, strictly ascending, exactly the normalized
    targets that are the normalized name of a signal of that category; the
    list is no longer than the target total, and the coverage lies between 0
    and 1, being 1 when every target is covered and 0 when none is. *)
Theorem framework_alignment_table (framework : Dict.t (list string))
    (signals : list SkillSignal.t) (sources : list SourceDocument.t) :
  NoDup (Dict.keys framework) ->
  exists stats,
    _profile_stats_with normalize_skill framework signals sources = Return stats
    /\ Dict.keys (ProfileStats.framework_alignment stats) = Dict.keys framework
    /\ forall category skills,
        In (category, skills) framework ->
        exists a,
          Dict.get (ProfileStats.framework_alignment stats) category = Some a
          /\ StronglySorted (fun x y => String.ltb x y = true) (Alignment.covered a)
          /\ (forall k, In k (Alignment.covered a) <->
                        In k (map normalize_skill skills)
                        /\ exists s, In s signals
                                     /\ SkillSignal.category s = category
                                     /\ normalize_skill (SkillSignal.name s) = k)
          /\ List.length (Alignment.covered a) <= Alignment.target_total a
          /\ (0 <= Alignment.coverage a <= 100)%Z
          /\ (Alignment.target_total a <> 0 ->
              List.length (Alignment.covered a) = Alignment.target_total a ->
              Alignment.coverage a = 100%Z)
          /\ (Alignment.covered a = [] -> Alignment.coverage a = 0%Z).
Proof.
  intros Hnd. unfold _profile_stats_with.
  destruct (mapM_returns
              (fun item => a <- align_category normalize_skill signals item ;;
                           Return (fst item, a)) framework) as (rows & Hrows & Hall).
  { intros item _. destruct (align_category_returns normalize_skill signals item) as [a Ha].
    rewrite Ha. simpl. eauto. }
  rewrite Hrows. unfold bind. eexists. split; [reflexivity|].
  cbn [ProfileStats.framework_alignment].
  assert (Hkeys : map fst framework = map fst rows).
  { eapply Forall2_map_eq; [|exact Hall]. intros item row Hrow. simpl in Hrow.
    apply bind_Return_inv in Hrow. destruct Hrow as (a & _ & [= <-]). reflexivity. }
  assert (Hrnd : NoDup (Dict.keys rows)).
  { unfold Dict.keys. rewrite <- Hkeys. exact Hnd. }
  rewrite (dict_of_items_NoDup rows Hrnd).
  split; [unfold Dict.keys; symmetry; exact Hkeys|].
  intros category skills Hin.
  destruct (Forall2_In_l _ _ _ _ Hall Hin) as (row & Hrow_in & Hrow).
  simpl in Hrow. apply bind_Return_inv in Hrow. destruct Hrow as (a & Ha & [= <-]).
  exists a. split; [apply dict_In_get; assumption|].
  destruct (align_category_spec normalize_skill signals (category, skills) a Ha)
    as (Ht & Hc & H0 & Hq).
  cbn [fst snd] in Ht, Hc, H0, Hq.
  set (targets := category_targets normalize_skill skills) in *.
  set (covered := category_covered normalize_skill signals category) in *.
  assert (Hind : NoDup (set_inter covered targets)).
  { apply set_inter_NoDup. apply set_of_list_NoDup. }
  assert (Hclen : List.length (Alignment.covered a)
                  = List.length (set_inter covered targets)).
  { rewrite Hc. apply sorted_set_length, Hind. }
  assert (Hle : List.length (set_inter covered targets) <= List.length targets).
  { apply set_inter_length. apply set_of_list_NoDup. }
  assert (Hcov : Alignment.coverage a
                 = match targets with
                   | [] => 0%Z
                   | _ :: _ => quotient_cents (List.length (set_inter covered targets))
                                 (List.length targets)
                   end).
  { destruct targets as [|t ts] eqn:Et; [apply H0; reflexivity|].
    destruct Hq as (q & Hdiv & Hr); [discriminate|].
    rewrite Hr. apply quotient_cents_fdiv, Hdiv. }
  split; [rewrite Hc; apply sorted_set_strict|].
  split.
  { intros k. rewrite Hc, sorted_set_In, set_inter_In.
    unfold covered, targets, category_covered, category_targets.
    rewrite !set_of_list_In, in_map_iff. split.
    - intros [(s & Hk & Hs) Ht']. split; [exact Ht'|].
      apply filter_In in Hs. destruct Hs as [Hs Hcat]. apply String.eqb_eq in Hcat.
      exists s. auto.
    - intros [Ht' (s & Hs & Hcat & Hk)]. split; [|exact Ht'].
      exists s. split; [exact Hk|]. apply filter_In. split; [exact Hs|].
      apply String.eqb_eq, Hcat. }
  split; [rewrite Hclen, Ht; exact Hle|].
  split.
  { rewrite Hcov. destruct targets as [|t ts] eqn:Et; [lia|].
    apply quotient_cents_range; [exact Hle | simpl; lia]. }
  split.
  { intros Hpos Hfull. rewrite Hcov. rewrite Hclen, Ht in Hfull.
    destruct targets as [|t ts] eqn:Et; [simpl in Ht; congruence|].
    rewrite Hfull. apply quotient_cents_full. simpl. lia. }
  intros Hnil. rewrite Hcov.
  assert (Hz : List.length (set_inter covered targets) = 0).
  { rewrite <- Hclen, Hnil. reflexivity. }
  rewrite Hz. destruct targets as [|t ts]; [reflexivity|].
  apply quotient_cents_zero. simpl. lia.
Qed.

End AlignmentTable.

(** ** Export *)

Lemma export_profile_fold (signals : list SkillSignal.t) (payload : list json) :
  fold_left (fun payload signal => payload ++ [export_signal signal]) signals payload
  = payload ++ map export_signal signals.
Proof.
  revert payload. induction signals as [|s signals IH]; intros payload; simpl.
  - rewrite app_nil_r. reflexivity.
  - rewrite IH, <- app_assoc. reflexivity.
Qed.

Lemma export_profile_map (signals : list SkillSignal.t) :
  export_profile signals = map export_signal signals.
Proof. unfold export_profile. rewrite export_profile_fold. reflexivity. Qed.

Lemma map_injective {A B : Type} (f : A -> B) :
  (forall a b, f a = f b -> a = b) -> forall l l', map f l = map f l' -> l = l'.
Proof.
  intros Hf. induction l as [|a l IH]; intros [|b l']; simpl; try discriminate.
  - reflexivity.
  - intros [= Hab Hl]. f_equal; [apply Hf, Hab | apply IH, Hl].
Qed.

Lemma kind_name_injective (a b : signal_kind) : kind_name a = kind_name b -> a = b.
Proof. destruct a, b; simpl; congruence. Qed.

Lemma export_evidence_injective (a b : SkillEvidence.t) :
  export_evidence a = export_evidence b -> a = b.
Proof. destruct a, b. unfold export_evidence. simpl. intros [= -> ->]. reflexivity. Qed.

Lemma export_signal_injective (a b : SkillSignal.t) :
  export_signal a = export_signal b -> a = b.
Proof.
  destruct a, b. unfold export_signal. simpl. intros [= -> -> Hk -> Hs He].
  apply kind_name_injective in Hk.
  apply (map_injective JStr) in Hs; [|intros x y [= ->]; reflexivity].
  apply (map_injective export_evidence export_evidence_injective) in He.
  subst. reflexivity.
Qed.

(** X13.  The export has one object per signal, in the order of the signals,
    and loses nothing: two signal lists with the same export are equal. *)
Theorem export_profile_lossless (signals : list SkillSignal.t) :
  List.length (export_profile signals) = List.length signals
  /\ (forall i, nth_error (export_profile signals) i
                = option_map export_signal (nth_error signals i))
  /\ forall signals', export_profile signals = export_profile signals' -> signals = signals'.
Proof.
  rewrite export_profile_map. split; [apply length_map|]. split.
  - intros i. apply nth_error_map.
  - intros signals' H. rewrite export_profile_map in H.
    apply (map_injective export_signal export_signal_injective). exact H.
Qed.

(** ** Snippets *)

Lemma length_map_chars (f : ascii -> ascii) (s : string) :
  String.length (Str.map_chars f s) = String.length s.
Proof. induction s as [|c s IH]; simpl; [reflexivity | rewrite IH; reflexivity]. Qed.

Lemma length_lstrip (s : string) : String.length (Str.lstrip s) <= String.length s.
Proof.
  induction s as [|c s IH]; simpl; [lia|]. destruct (Str.is_space c); simpl; lia.
Qed.

Lemma length_rstrip (s : string) : String.length (Str.rstrip s) <= String.length s.
Proof.
  induction s as [|c s IH]; simpl; [lia|].
  destruct (Str.is_space c && Str.is_empty (Str.rstrip s)); simpl; lia.
Qed.

Lemma length_strip (s : string) : String.length (Str.strip s) <= String.length s.
Proof.
  unfold Str.strip. pose proof (length_rstrip (Str.lstrip s)). pose proof (length_lstrip s).
  lia.
Qed.

Lemma length_substring_le (n m : nat) (s : string) : String.length (substring n m s) <= m.
Proof.
  revert n m. induction s as [|c s IH]; intros n m.
  - destruct n, m; simpl; lia.
  - destruct n as [|n].
    + destruct m as [|m]; simpl; [lia|]. specialize (IH 0 m). lia.
    + simpl. apply IH.
Qed.

Lemma has_char_lstrip (c : ascii) (s : string) :
  has_char c s = false -> has_char c (Str.lstrip s) = false.
Proof.
  induction s as [|d s IH]; simpl; [auto|].
  intros H. apply orb_false_iff in H. destruct H as [Hd Hs].
  destruct (Str.is_space d); [apply IH, Hs | simpl; rewrite Hd, Hs; reflexivity].
Qed.

Lemma has_char_rstrip (c : ascii) (s : string) :
  has_char c s = false -> has_char c (Str.rstrip s) = false.
Proof.
  induction s as [|d s IH]; simpl; [auto|].
  intros H. apply orb_false_iff in H. destruct H as [Hd Hs].
  destruct (Str.is_space d && Str.is_empty (Str.rstrip s)); simpl; [reflexivity|].
  rewrite Hd, (IH Hs). reflexivity.
Qed.

Lemma has_char_strip (c : ascii) (s : string) :
  has_char c s = false -> has_char c (Str.strip s) = false.
Proof. intros H. apply has_char_rstrip, has_char_lstrip, H. Qed.

Lemma has_char_replace (a b : ascii) (s : string) :
  a <> b -> has_char a (Str.replace_char a b s) = false.
Proof.
  intros Hab. unfold Str.replace_char. induction s as [|d s IH]; simpl; [reflexivity|].
  rewrite IH, orb_false_r. destruct (Ascii.eqb_spec d a) as [->|Hd].
  - apply Ascii.eqb_neq. congruence.
  - apply Ascii.eqb_neq. exact Hd.
Qed.

(** X14.  A snippet contains no line feed, has no whitespace at either end,
    and is at most as long as the match plus the window on each side. *)
Theorem _snippet_shape (text : string) (start end_ window : nat) :
  start <= end_ ->
  has_char "010"%char (_snippet text start end_ window) = false
  /\ stripped (_snippet text start end_ window)
  /\ String.length (_snippet text start end_ window) <= (end_ - start) + 2 * window.
Proof.
  intros Hle. unfold _snippet. split; [|split].
  - apply has_char_strip, has_char_replace. discriminate.
  - apply strip_stripped.
  - eapply Nat.le_trans; [apply length_strip|].
    unfold Str.replace_char. rewrite length_map_chars. unfold Str.slice.
    eapply Nat.le_trans; [apply length_substring_le|]. lia.
Qed.

(** ** Parsed team members *)

Lemma keep_some_In {A : Type} (l : list (option A)) (a : A) :
  In a (keep_some l) <-> In (Some a) l.
Proof.
  unfold keep_some. rewrite in_flat_map. split.
  - intros ([x|] & Hx & Ha); [destruct Ha as [<-|[]]; exact Hx | destruct Ha].
  - intros H. exists (Some a). split; [exact H | left; reflexivity].
Qed.

Lemma keep_some_length {A : Type} (l : list (option A)) :
  List.length (keep_some l) <= List.length l.
Proof.
  induction l as [|[a|] l IH]; simpl; lia.
Qed.

(** X15.  Every member that the parser returns has a name without
    surrounding whitespace and without colon, and at least one skill; every
    skill is non-empty, has no surrounding whitespace and contains no comma;
    each member comes from a line of the text that has a colon, and there are
    no more members than lines. *)
Theorem parse_team_profiles_members (raw_text : string) :
  exists members,
    parse_team_profiles raw_text = Return members
    /\ List.length members <= List.length (Str.splitlines raw_text)
    /\ forall member, In member members ->
         stripped (TeamMember.name member)
         /\ has_char ":"%char (TeamMember.name member) = false
         /\ (exists line, In line (Str.splitlines raw_text)
                          /\ Str.contains ":"%char line = true
                          /\ team_line_spec line = Some member)
         /\ exists skills,
              TeamMember.skills member = Some skills
              /\ skills <> []
              /\ forall skill, In skill skills ->
                   skill <> EmptyString /\ stripped skill
                   /\ has_char ","%char skill = false.
Proof.
  eexists. split; [apply parse_team_profiles_lines|]. split.
  { eapply Nat.le_trans; [apply keep_some_length|]. rewrite length_map. lia. }
  intros member Hin. apply keep_some_In in Hin. apply in_map_iff in Hin.
  destruct Hin as (line & Hline & Hl).
  unfold team_line_spec in Hline.
  destruct (Str.contains ":" line) eqn:Hc; [|discriminate].
  set (skills := filter (fun skill => negb (Str.is_empty skill))
                   (map Str.strip (Str.split ","%char (after_first ":"%char line)))) in *.
  destruct skills as [|sk0 sks] eqn:Hs; [discriminate|].
  injection Hline as <-. cbn [TeamMember.name TeamMember.skills].
  split; [apply strip_stripped|].
  split; [apply has_char_strip, has_char_before_first|].
  split.
  { exists line. split; [exact Hl|]. split; [exact Hc|].
    unfold team_line_spec. rewrite Hc. fold skills. rewrite Hs. reflexivity. }
  exists (sk0 :: sks). split; [reflexivity|]. split; [discriminate|].
  intros skill Hsk. rewrite <- Hs in Hsk. unfold skills in Hsk.
  apply filter_In in Hsk. destruct Hsk as [Hsk Hne].
  apply in_map_iff in Hsk. destruct Hsk as (piece & <- & Hpiece).
  split; [|split].
  - intros E. rewrite E in Hne. discriminate.
  - apply strip_stripped.
  - apply has_char_strip. eapply split_pieces. exact Hpiece.
Qed.

(** ** The skill mapping *)

Lemma dict_of_items_fold_get {V : Type} (items d : list (string * V)) (k : string) :
  Dict.get (fold_left (fun d kv => Dict.set d (fst kv) (snd kv)) items d) k
  = match last_with (fun kv => String.eqb (fst kv) k) items with
    | Some kv => Some (snd kv)
    | None => Dict.get d k
    end.
Proof.
  revert d. induction items as [|[k0 v0] items IH]; intros d; simpl; [reflexivity|].
  rewrite IH. destruct (last_with _ items); [reflexivity|].
  destruct (String.eqb_spec k0 k) as [->|Hne]; simpl.
  - apply dict_get_set_same.
  - apply dict_get_set_other. congruence.
Qed.

Lemma dict_of_items_fold_keys {V : Type} (items d : list (string * V)) :
  Dict.keys (fold_left (fun d kv => Dict.set d (fst kv) (snd kv)) items d)
  = fold_left (fun s x => set_add x s) (map fst items) (Dict.keys d).
Proof.
  revert d. induction items as [|[k0 v0] items IH]; intros d; simpl; [reflexivity|].
  rewrite IH, dict_set_keys. f_equal. unfold set_add.
  destruct (Dict.mem d k0) eqn:Hm, (set_mem k0 (Dict.keys d)) eqn:Hs; try reflexivity.
  - apply dict_mem_In in Hm. apply set_mem_false in Hs. contradiction.
  - apply set_mem_In in Hs. apply dict_mem_In in Hs. congruence.
Qed.

(** X16.  The skill mapping has one key per distinct normalized name, in the
    order of first appearance, and maps each key to the last signal that
    carries it; a key is in the mapping exactly when some signal has it. *)
Theorem as_skill_set_spec (normalize_skill : string -> string)
    (signals : list SkillSignal.t) :
  let key_of s := normalize_skill (SkillSignal.name s) in
  Dict.keys (as_skill_set normalize_skill signals) = set_of_list (map key_of signals)
  /\ NoDup (Dict.keys (as_skill_set normalize_skill signals))
  /\ (forall k, Dict.get (as_skill_set normalize_skill signals) k
                = last_with (fun s => String.eqb (key_of s) k) signals)
  /\ (forall k, Dict.mem (as_skill_set normalize_skill signals) k = true
                <-> In k (map key_of signals)).
Proof.
  intros key_of. unfold as_skill_set, Dict.of_items.
  split; [|split; [|split]].
  - rewrite dict_of_items_fold_keys, map_map. reflexivity.
  - apply dict_of_items_fold_keys_NoDup. constructor.
  - intros k. rewrite dict_of_items_fold_get. simpl.
    induction signals as [|s signals IH]; simpl; [reflexivity|].
    destruct (last_with _ (map _ signals)) as [[k1 s1]|];
      destruct (last_with _ signals) as [s2|]; simpl in *; try congruence.
    fold (key_of s). destruct (String.eqb (key_of s) k); reflexivity.
  - intros k. rewrite dict_mem_In.
    change (In k (Dict.keys (Dict.of_items
                               (map (fun signal => (normalize_skill (SkillSignal.name signal),
                                                    signal)) signals)))
            <-> In k (map key_of signals)).
    rewrite dict_of_items_keys_In, map_map. reflexivity.
Qed.

(** ** Letter case *)

Lemma lower_char_idem (c : ascii) : Str.lower_char (Str.lower_char c) = Str.lower_char c.
Proof. destruct c as [[] [] [] [] [] [] [] []]; reflexivity. Qed.

Lemma is_word_lower (c : ascii) : Str.is_word (Str.lower_char c) = Str.is_word c.
Proof. destruct c as [[] [] [] [] [] [] [] []]; reflexivity. Qed.

Lemma is_linefeed_lower (c : ascii) :
  (Str.code (Str.lower_char c) =? 10) = (Str.code c =? 10).
Proof. destruct c as [[] [] [] [] [] [] [] []]; reflexivity. Qed.

Section CaseFacts.
Import Re.

Lemma at_boundary_lower (prev : option ascii) (s : string) :
  at_boundary (option_map Str.lower_char prev) (Str.lower s) = at_boundary prev s.
Proof.
  unfold at_boundary. f_equal.
  - destruct prev as [c|]; simpl; [apply is_word_lower | reflexivity].
  - destruct s as [|c s]; simpl; [reflexivity | apply is_word_lower].
Qed.

Lemma dots_lower (k k' : cont) :
  cont_agree k k' -> cont_agree (dots k) (dots k').
Proof.
  intros Hk prev s. revert prev. induction s as [|c s IH]; intros prev pos; simpl.
  - apply (Hk prev EmptyString pos).
  - rewrite is_linefeed_lower. destruct (Str.code c =? 10).
    + apply (Hk prev (String c s) pos).
    + rewrite (IH (Some c) (S pos)). simpl.
      destruct (dots k' _ _ _); [reflexivity|]. apply (Hk prev (String c s) pos).
Qed.

Lemma run_lower (r : regex) :
  forall k k', cont_agree k k' -> cont_agree (run r k) (run r k').
Proof.
  induction r as [|c| | |r1 IH1 r2 IH2|r IH]; intros k k' Hk prev s pos; simpl.
  - apply Hk.
  - destruct s as [|d s]; simpl; [reflexivity|].
    rewrite lower_char_idem. destruct (Ascii.eqb _ _); [|reflexivity].
    apply (Hk (Some d) s (S pos)).
  - rewrite at_boundary_lower. destruct (at_boundary prev s); [apply Hk | reflexivity].
  - apply dots_lower, Hk.
  - apply IH1. apply IH2. exact Hk.
  - rewrite (IH k k' Hk prev s pos).
    destruct (run r k' _ _ _); [reflexivity | apply Hk].
Qed.

Lemma match_at_lower (r : regex) (prev : option ascii) (s : string) (pos : nat) :
  match_at r prev s pos
  = match_at r (option_map Str.lower_char prev) (Str.lower s) pos.
Proof. unfold match_at. apply run_lower. intros p t n. reflexivity. Qed.

Lemma finditer_from_lower (r : regex) (s : string) :
  forall prev pos skip,
    finditer_from r prev s pos skip
    = finditer_from r (option_map Str.lower_char prev) (Str.lower s) pos skip.
Proof.
  induction s as [|c s IH]; intros prev pos skip; simpl.
  - destruct skip; [|reflexivity].
    rewrite (match_at_lower r prev EmptyString pos). reflexivity.
  - destruct skip as [|n].
    + rewrite (match_at_lower r prev (String c s) pos). simpl.
      destruct (match_at r _ _ _); rewrite (IH (Some c)); reflexivity.
    + apply (IH (Some c)).
Qed.

(** On lower-cased text the scan finds what it finds on the text. *)
Lemma finditer_lower (r : regex) (text : string) :
  finditer r (Str.lower text) = finditer r text.
Proof. unfold finditer. symmetry. apply (finditer_from_lower r text None 0 0). Qed.

End CaseFacts.

(** Detection ignores letter case: two texts that agree up to case give the
    same spans for every explicit term and for every implicit pattern. *)
Lemma detection_ignores_case (text text' : string) :
  Str.lower text = Str.lower text' ->
  (forall skill, _match_skill_occurrences text skill = _match_skill_occurrences text' skill)
  /\ (forall pattern, Re.finditer pattern (Str.lower text)
                      = Re.finditer pattern (Str.lower text')).
Proof.
  intros H. split.
  - intros skill. unfold _match_skill_occurrences.
    rewrite <- (finditer_lower _ text), <- (finditer_lower _ text'), H. reflexivity.
  - intros pattern. rewrite H. reflexivity.
Qed.

(** ** Whole-word occurrences *)

Lemma string_length_app (a b : string) :
  String.length (a ++ b)%string = String.length a + String.length b.
Proof. induction a as [|x a IH]; simpl; [reflexivity | rewrite IH; reflexivity]. Qed.

Lemma last_from_app (prev : option ascii) (a b : string) :
  last_from prev (a ++ b)%string = last_from (last_from prev a) b.
Proof. revert prev. induction a as [|x a IH]; intros prev; simpl; [reflexivity | apply IH]. Qed.

Lemma substring_middle (a b c : string) :
  substring (String.length a) (String.length b) (a ++ b ++ c)%string = b.
Proof.
  induction a as [|x a IH]; simpl; [|exact IH].
  induction b as [|y b IHb]; simpl.
  - destruct c; reflexivity.
  - rewrite IHb. reflexivity.
Qed.

Section OccurrenceFacts.
Import Re.

Lemma run_lit (w : string) :
  forall (k : cont) prev s pos e,
    run (lit w) k prev s pos = Some e ->
    exists found rest,
      s = (found ++ rest)%string
      /\ String.length found = String.length w
      /\ Str.lower found = Str.lower w
      /\ k (last_from prev found) rest (pos + String.length w) = Some e.
Proof.
  induction w as [|c w IH]; intros k prev s pos e; simpl.
  - intros H. exists EmptyString, s. rewrite Nat.add_0_r. auto.
  - destruct s as [|d s]; [discriminate|].
    destruct (Ascii.eqb (Str.lower_char d) (Str.lower_char c)) eqn:Hd; [|discriminate].
    intros H. apply IH in H. destruct H as (found & rest & -> & Hlen & Hlow & Hk).
    apply Ascii.eqb_eq in Hd.
    exists (String d found), rest.
    split; [reflexivity|]. split; [simpl; rewrite Hlen; reflexivity|].
    split.
    + unfold Str.lower in *. simpl. rewrite Hd, Hlow. reflexivity.
    + simpl. replace (pos + S (String.length w)) with (S pos + String.length w) by lia.
      exact Hk.
Qed.

Lemma match_at_whole (skill : string) prev s pos e :
  match_at (whole skill) prev s pos = Some e ->
  at_boundary prev s = true
  /\ exists found rest,
      s = (found ++ rest)%string
      /\ String.length found = String.length skill
      /\ Str.lower found = Str.lower skill
      /\ at_boundary (last_from prev found) rest = true
      /\ e = pos + String.length skill.
Proof.
  unfold match_at, whole, seq. simpl.
  destruct (at_boundary prev s) eqn:Hb; [|discriminate].
  intros H. apply run_lit in H. destruct H as (found & rest & Hs & Hlen & Hlow & Hk).
  split; [reflexivity|]. exists found, rest.
  destruct (at_boundary (last_from prev found) rest); [|discriminate].
  injection Hk as <-. auto.
Qed.

Lemma finditer_from_In (r : regex) (s : string) :
  forall prev pos skip a e,
    In (a, e) (finditer_from r prev s pos skip) ->
    exists s1 s2,
      s = (s1 ++ s2)%string
      /\ a = pos + String.length s1
      /\ match_at r (last_from prev s1) s2 a = Some e.
Proof.
  induction s as [|c s IH]; intros prev pos skip a e; simpl.
  - destruct skip; [|intros []].
    destruct (match_at r prev EmptyString pos) as [e'|] eqn:Hm; [|intros []].
    intros [[= <- <-]|[]]. exists EmptyString, EmptyString. simpl.
    rewrite Nat.add_0_r. auto.
  - assert (Hrec : forall skip',
               In (a, e) (finditer_from r (Some c) s (S pos) skip') ->
               exists s1 s2,
                 String c s = (s1 ++ s2)%string
                 /\ a = pos + String.length s1
                 /\ match_at r (last_from prev s1) s2 a = Some e).
    { intros skip' H. apply IH in H. destruct H as (s1 & s2 & -> & -> & Hm).
      exists (String c s1), s2. simpl. split; [reflexivity|]. split; [lia|].
      replace (pos + S (String.length s1)) with (S pos + String.length s1) by lia.
      exact Hm. }
    destruct skip as [|n]; [|apply Hrec].
    destruct (match_at r prev (String c s) pos) as [e'|] eqn:Hm; [|apply Hrec].
    intros [[= <- <-]|H]; [|eapply Hrec; exact H].
    exists EmptyString, (String c s). simpl. rewrite Nat.add_0_r. auto.
Qed.

End OccurrenceFacts.

(** X18.  Every span that the explicit scan reports is a whole-word
    occurrence of the skill up to letter case: the text splits into the part
    before the span, the span and the part after it; the span has the length
    of the skill and equals it once both are lower-cased; and the span is
    delimited by a word boundary at each end. *)
Theorem _match_skill_occurrences_whole_word (text skill : string) (start end_ : nat) :
  In (start, end_) (_match_skill_occurrences text skill) ->
  exists before found after,
    text = (before ++ found ++ after)%string
    /\ start = String.length before
    /\ end_ = start + String.length skill
    /\ end_ <= String.length text
    /\ substring start (String.length skill) text = found
    /\ Str.lower found = Str.lower skill
    /\ Re.at_boundary (last_from None before) (found ++ after)%string = true
    /\ Re.at_boundary (last_from None (before ++ found)%string) after = true.
Proof.
  unfold _match_skill_occurrences, Re.finditer. intros H.
  apply finditer_from_In in H. destruct H as (before & s2 & -> & -> & Hm).
  apply match_at_whole in Hm.
  destruct Hm as (Hb1 & found & after & -> & Hlen & Hlow & Hb2 & ->).
  exists before, found, after. simpl.
  split; [reflexivity|]. split; [reflexivity|]. split; [reflexivity|].
  split; [rewrite !string_length_app; lia|].
  split; [rewrite <- Hlen; apply substring_middle|].
  split; [exact Hlow|]. split; [exact Hb1|].
  rewrite last_from_app. exact Hb2.
Qed.

(** ** Profiles and letter case *)

Lemma is_space_lower (c : ascii) : Str.is_space (Str.lower_char c) = Str.is_space c.
Proof. destruct c as [[] [] [] [] [] [] [] []]; reflexivity. Qed.

Lemma lstrip_lower (s : string) : Str.lstrip (Str.lower s) = Str.lower (Str.lstrip s).
Proof.
  unfold Str.lower. induction s as [|c s IH]; simpl; [reflexivity|].
  rewrite is_space_lower. destruct (Str.is_space c); [exact IH | reflexivity].
Qed.

Lemma is_empty_lower (s : string) : Str.is_empty (Str.lower s) = Str.is_empty s.
Proof. destruct s; reflexivity. Qed.

Lemma rstrip_lower (s : string) : Str.rstrip (Str.lower s) = Str.lower (Str.rstrip s).
Proof.
  induction s as [|c s IH]; simpl; [reflexivity|].
  change (Str.map_chars Str.lower_char s) with (Str.lower s).
  rewrite IH, is_space_lower, is_empty_lower.
  destruct (Str.is_space c && Str.is_empty (Str.rstrip s)); reflexivity.
Qed.

Lemma blank_lower (s : string) :
  Str.is_empty (Str.strip (Str.lower s)) = Str.is_empty (Str.strip s).
Proof. unfold Str.strip. rewrite lstrip_lower, rstrip_lower. apply is_empty_lower. Qed.

Lemma insert_by_map {A B : Type} (le : A -> A -> bool) (le' : B -> B -> bool)
    (f : A -> B) (x : A) (l : list A) :
  (forall a b, le a b = le' (f a) (f b)) ->
  map f (insert_by le x l) = insert_by le' (f x) (map f l).
Proof.
  intros H. induction l as [|y l IH]; simpl; [reflexivity|].
  rewrite <- H. destruct (le x y); simpl; [reflexivity | rewrite IH; reflexivity].
Qed.

Lemma sorted_by_map {A B : Type} (le : A -> A -> bool) (le' : B -> B -> bool)
    (f : A -> B) (l : list A) :
  (forall a b, le a b = le' (f a) (f b)) ->
  map f (sorted_by le l) = sorted_by le' (map f l).
Proof.
  intros H. induction l as [|x l IH]; simpl; [reflexivity|].
  rewrite (insert_by_map le le' f x _ H), IH. reflexivity.
Qed.

Lemma finalize_core (registry : Dict.t Entry.t) :
  map signal_core (_finalize_registry registry)
  = sorted_by core_ge (map entry_core (Dict.values registry)).
Proof.
  unfold _finalize_registry.
  rewrite (sorted_by_map sort_key_ge core_ge signal_core) by reflexivity.
  rewrite map_map. reflexivity.
Qed.

Lemma Forall2_map_same {A B C : Type} (R : B -> C -> Prop) (f : A -> B) (g : A -> C)
    (l : list A) :
  (forall a, R (f a) (g a)) -> Forall2 R (map f l) (map g l).
Proof. intros H. induction l; simpl; constructor; auto. Qed.

Lemma Forall2_flat_map {A A' B C : Type} (Q : A -> A' -> Prop) (R : B -> C -> Prop)
    (f : A -> list B) (g : A' -> list C) (l : list A) (l' : list A') :
  (forall a a', Q a a' -> Forall2 R (f a) (g a')) ->
  Forall2 Q l l' -> Forall2 R (flat_map f l) (flat_map g l').
Proof.
  intros H. induction 1; simpl; [constructor|]. apply Forall2_app; auto.
Qed.

Lemma Forall2_refl {A : Type} (R : A -> A -> Prop) (l : list A) :
  (forall a, R a a) -> Forall2 R l l.
Proof. intros H. induction l; constructor; auto. Qed.

Section CaseProfile.
Variable normalize_skill : string -> string.
Variable COMMON_SKILLS : list string.

Lemma registry_keys_fold (events : list Event.t) (registry : Dict.t Entry.t) :
  Dict.keys (fold_left (register_event normalize_skill) events registry)
  = fold_left (fun s x => set_add x s) (map (event_key normalize_skill) events)
      (Dict.keys registry).
Proof.
  revert registry. induction events as [|e events IH]; intros registry; simpl;
    [reflexivity|].
  rewrite IH, register_event_set, dict_set_keys. f_equal. unfold set_add.
  destruct (Dict.mem registry (event_key normalize_skill e)) eqn:Hm,
           (set_mem (event_key normalize_skill e) (Dict.keys registry)) eqn:Hs;
    try reflexivity.
  - apply dict_mem_In in Hm. apply set_mem_false in Hs. contradiction.
  - apply set_mem_In in Hs. apply dict_mem_In in Hs. congruence.
Qed.

Lemma same_event_key (e e' : Event.t) :
  same_event e e' -> event_key normalize_skill e = event_key normalize_skill e'.
Proof. intros (Hn & _). unfold event_key. rewrite Hn. reflexivity. Qed.

Lemma at_key_same (k : string) (events events' : list Event.t) :
  Forall2 same_event events events' ->
  Forall2 same_event (at_key normalize_skill k events) (at_key normalize_skill k events').
Proof.
  induction 1 as [|e e' l l' He Hl IH]; simpl; [constructor|].
  rewrite (same_event_key e e' He).
  destruct (String.eqb (event_key normalize_skill e') k); [constructor|]; assumption.
Qed.

Lemma entry_of_same (events events' : list Event.t) :
  Forall2 same_event events events' ->
  option_map entry_core (entry_of events) = option_map entry_core (entry_of events').
Proof.
  intros H. pose proof (Forall2_length H) as Hlen.
  assert (Hsrc : source_names events = source_names events').
  { unfold source_names. eapply Forall2_map_eq; [|exact H].
    intros a b (_ & _ & _ & Hs). exact Hs. }
  destruct H as [|e e' l l' (Hn & Hc & Ht & Hs) Hl]; [reflexivity|].
  unfold entry_of, entry_core, option_map.
  cbn [Entry.name Entry.category Entry.type Entry.sources Entry.mentions].
  rewrite Hn, Hc, Ht, Hsrc, Hlen. reflexivity.
Qed.

Lemma registry_core_same (events events' : list Event.t) :
  Forall2 same_event events events' ->
  map entry_core (Dict.values (fold_left (register_event normalize_skill) events []))
  = map entry_core (Dict.values (fold_left (register_event normalize_skill) events' [])).
Proof.
  intros H.
  rewrite !values_by_keys by apply registry_events_wf.
  rewrite !registry_keys_fold.
  rewrite (Forall2_map_eq same_event (event_key normalize_skill)
             (event_key normalize_skill) events events' same_event_key H).
  apply flat_map_ext. intros k. rewrite !registry_get_events.
  pose proof (entry_of_same _ _ (at_key_same k _ _ H)) as He.
  destruct (entry_of (at_key normalize_skill k events)),
           (entry_of (at_key normalize_skill k events')); simpl in He; congruence.
Qed.

Lemma events_of_same (d d' : SourceDocument.t) :
  same_up_to_case d d' ->
  Forall2 same_event (events_of normalize_skill COMMON_SKILLS d)
    (events_of normalize_skill COMMON_SKILLS d').
Proof.
  intros [Hname Htext]. unfold events_of. apply Forall2_app.
  - unfold explicit_events.
    apply (Forall2_flat_map eq); [|apply Forall2_refl; reflexivity].
    intros skill ? <-.
    rewrite (proj1 (detection_ignores_case _ _ Htext) skill).
    apply Forall2_map_same. intros span. repeat split; assumption.
  - unfold implicit_events.
    apply (Forall2_flat_map eq); [|apply Forall2_refl; reflexivity].
    intros item ? <-.
    apply (Forall2_flat_map eq); [|apply Forall2_refl; reflexivity].
    intros pattern ? <-. rewrite Htext.
    apply Forall2_map_same. intros span. repeat split; assumption.
Qed.

Lemma usable_same (d d' : SourceDocument.t) :
  same_up_to_case d d' -> Forall2 same_up_to_case (usable d) (usable d').
Proof.
  intros H. unfold usable. destruct H as [Hn Ht].
  rewrite <- (blank_lower (SourceDocument.text d)),
          <- (blank_lower (SourceDocument.text d')), Ht.
  destruct (Str.is_empty _); constructor; [split; assumption | constructor].
Qed.

Lemma usable_sources_map (sources : list SourceDocument.t) :
  usable_sources (map Some sources) = flat_map usable sources.
Proof.
  unfold usable_sources, usable. induction sources as [|d l IH]; simpl; [reflexivity|].
  rewrite IH. reflexivity.
Qed.

(** X17.  A profile does not depend on the letter case of the documents: two
    batches whose documents have, one by one, the same name and the same text
    up to case give signal sequences that agree in name, category, kind,
    confidence and sources (the evidence, which quotes the text, aside). *)
Theorem profile_ignores_case (sources sources' : list SourceDocument.t) :
  Forall2 same_up_to_case sources sources' ->
  exists profile profile',
    build_skill_profile normalize_skill COMMON_SKILLS (map Some sources) = Return profile
    /\ build_skill_profile normalize_skill COMMON_SKILLS (map Some sources')
       = Return profile'
    /\ map signal_core (get_signals profile) = map signal_core (get_signals profile').
Proof.
  intros H.
  destruct (build_skill_profile_returns normalize_skill COMMON_SKILLS (map Some sources))
    as [stats Hb].
  destruct (build_skill_profile_returns normalize_skill COMMON_SKILLS (map Some sources'))
    as [stats' Hb'].
  eexists. eexists. split; [exact Hb|]. split; [exact Hb'|].
  unfold get_signals. cbn [Profile.signals].
  rewrite !finalize_core, !build_registry_events, !usable_sources_map. f_equal.
  apply registry_core_same.
  apply (Forall2_flat_map same_up_to_case).
  - apply events_of_same.
  - apply (Forall2_flat_map same_up_to_case); [apply usable_same | exact H].
Qed.

End CaseProfile.

(** * Worked instances of the further properties *)

Lemma confidence_cents_monotone_witness :
  1 <= 3 /\ 1 <= 2
  /\ (confidence_cents explicit 1 1 <= confidence_cents explicit 3 2)%Z
  /\ (confidence_cents implicit 1 1 <= confidence_cents explicit 1 1
      <= confidence_cents implicit 1 1 + 10)%Z.
Proof.
  assert (Hm : 1 <= 3) by (repeat constructor).
  assert (Hn : 1 <= 2) by (repeat constructor).
  split; [exact Hm|]. split; [exact Hn|].
  exact (confidence_cents_monotone explicit 1 3 1 2 Hm Hn).
Defined.

Lemma compare_against_team_spec_witness :
  NoDup (map (fun s => normalize_skill_spec (SkillSignal.name s))
           (get_signals scenario_profile))
  /\ TeamReport.team_size (compare_against_team normalize_skill_spec scenario_profile team_two)
     = 2
  /\ forall k,
       In k (TeamReport.team_gaps
               (compare_against_team normalize_skill_spec scenario_profile team_two)) <->
       In k (team_keys normalize_skill_spec team_two)
       /\ ~ In k (map (fun s => normalize_skill_spec (SkillSignal.name s))
                    (get_signals scenario_profile)).
Proof.
  assert (Hnd : NoDup (map (fun s => normalize_skill_spec (SkillSignal.name s))
                         (get_signals scenario_profile))).
  { exact (build_skill_profile_keys_NoDup normalize_skill_spec COMMON_SKILLS_spec
             [Some scenario_doc] scenario_profile scenario_profile_built). }
  split; [exact Hnd|].
  destruct (compare_against_team_spec normalize_skill_spec scenario_profile team_two Hnd)
    as (Hsize & _ & _ & _ & _ & Hgaps).
  split; [exact Hsize | exact Hgaps].
Defined.

Lemma compare_against_team_order_witness :
  Permutation team_two (rev team_two)
  /\ compare_against_team normalize_skill_spec scenario_profile team_two
     = compare_against_team normalize_skill_spec scenario_profile (rev team_two).
Proof.
  assert (Hp : Permutation team_two (rev team_two)) by apply Permutation_rev.
  split; [exact Hp|].
  exact (compare_against_team_order normalize_skill_spec scenario_profile
           team_two (rev team_two) Hp).
Defined.

Lemma match_profile_to_job_partition_witness :
  Str.is_empty (Str.strip job_four_skills) = false
  /\ exists r,
      match_profile_to_job normalize_skill_spec COMMON_SKILLS_spec
        get_learning_resources_spec scenario_profile job_four_skills = Return (Some r)
      /\ List.length (JobMatchResult.matched r) + List.length (JobMatchResult.gaps r) = 4
      /\ (0 <= JobMatchResult.coverage r <= 100)%Z.
Proof.
  split; [reflexivity|].
  destruct (match_profile_to_job_partition normalize_skill_spec COMMON_SKILLS_spec
              get_learning_resources_spec scenario_profile job_four_skills eq_refl)
    as (job_profile & r & Hb & Hm & _ & _ & Hlen & Hcov & _).
  rewrite job_profile_four_built in Hb. injection Hb as <-.
  exists r. split; [exact Hm|]. split; [exact Hlen | exact Hcov].
Defined.

Lemma framework_alignment_table_witness :
  NoDup (Dict.keys FORMAL_SKILL_FRAMEWORK)
  /\ exists stats,
      _profile_stats_with normalize_skill_spec FORMAL_SKILL_FRAMEWORK
        (get_signals scenario_profile) [scenario_doc] = Return stats
      /\ Dict.keys (ProfileStats.framework_alignment stats)
         = Dict.keys FORMAL_SKILL_FRAMEWORK.
Proof.
  split; [exact framework_keys_NoDup|].
  destruct (framework_alignment_table normalize_skill_spec FORMAL_SKILL_FRAMEWORK
              (get_signals scenario_profile) [scenario_doc] framework_keys_NoDup)
    as (stats & Hs & Hk & _).
  exists stats. split; [exact Hs | exact Hk].
Defined.

Lemma _snippet_shape_witness :
  19 <= 25
  /\ has_char "010"%char (_snippet (SourceDocument.text notes_doc) 19 25 8) = false
  /\ stripped (_snippet (SourceDocument.text notes_doc) 19 25 8)
  /\ String.length (_snippet (SourceDocument.text notes_doc) 19 25 8) <= (25 - 19) + 2 * 8.
Proof.
  assert (H : 19 <= 25) by (repeat constructor).
  split; [exact H|].
  exact (_snippet_shape (SourceDocument.text notes_doc) 19 25 8 H).
Defined.

Lemma profile_ignores_case_witness :
  Forall2 same_up_to_case [scenario_doc] [scenario_doc_capitals]
  /\ exists profile',
      build_skill_profile normalize_skill_spec COMMON_SKILLS_spec
        [Some scenario_doc_capitals] = Return profile'
      /\ map signal_core (get_signals scenario_profile)
         = map signal_core (get_signals profile').
Proof.
  assert (H : Forall2 same_up_to_case [scenario_doc] [scenario_doc_capitals]).
  { constructor; [split; reflexivity | constructor]. }
  split; [exact H|].
  destruct (profile_ignores_case normalize_skill_spec COMMON_SKILLS_spec
              [scenario_doc] [scenario_doc_capitals] H)
    as (profile & profile' & Hb & Hb' & Heq).
  change (map Some [scenario_doc]) with [Some scenario_doc] in Hb.
  rewrite scenario_profile_built in Hb. injection Hb as <-.
  exists profile'. split; [exact Hb' | exact Heq].
Defined.

Lemma _match_skill_occurrences_whole_word_witness :
  In (0, 6) (_match_skill_occurrences (SourceDocument.text notes_doc) "python")
  /\ exists before found after,
      SourceDocument.text notes_doc = (before ++ found ++ after)%string
      /\ 0 = String.length before
      /\ Str.lower found = Str.lower "python".
Proof.
  assert (H : In (0, 6) (_match_skill_occurrences (SourceDocument.text notes_doc) "python")).
  { vm_compute. left. reflexivity. }
  split; [exact H|].
  destruct (_match_skill_occurrences_whole_word (SourceDocument.text notes_doc) "python"
              0 6 H)
    as (before & found & after & Ht & Hs & _ & _ & _ & Hl & _).
  exists before, found, after. split; [exact Ht|]. split; [exact Hs | exact Hl].
Defined.

(** ** Comparison with an empty team *)

Section EmptyTeam.
Variable normalize_skill : string -> string.
Let key_of (s : SkillSignal.t) : string := normalize_skill (SkillSignal.name s).

Lemma as_skill_set_keys (signals : list SkillSignal.t) :
  Dict.keys (as_skill_set normalize_skill signals) = set_of_list (map key_of signals).
Proof.
  unfold as_skill_set, Dict.of_items.
  rewrite dict_of_items_fold_keys, map_map. reflexivity.
Qed.

Lemma as_skill_set_get (signals : list SkillSignal.t) (k : string) :
  Dict.get (as_skill_set normalize_skill signals) k
  = last_with (fun s => String.eqb (key_of s) k) signals.
Proof.
  unfold as_skill_set, Dict.of_items. rewrite dict_of_items_fold_get. simpl.
  induction signals as [|s signals IH]; simpl; [reflexivity|].
  destruct (last_with _ (map _ signals)) as [[k1 s1]|];
    destruct (last_with _ signals) as [s2|]; simpl in *; try congruence.
  fold (key_of s). destruct (String.eqb (key_of s) k); reflexivity.
Qed.

Lemma last_with_In {A : Type} (p : A -> bool) (l : list A) (a : A) :
  last_with p l = Some a -> In a l /\ p a = true.
Proof.
  induction l as [|x l IH]; simpl; [discriminate|].
  destruct (last_with p l) as [b|].
  - intros E. injection E as <-. destruct (IH eq_refl). auto.
  - destruct (p x) eqn:Hp; [|discriminate]. intros E. injection E as <-. auto.
Qed.

Lemma last_with_some {A : Type} (p : A -> bool) (l : list A) (a : A) :
  In a l -> p a = true -> exists b, last_with p l = Some b.
Proof.
  induction l as [|x l IH]; simpl; [contradiction|].
  intros [<-|Hin] Hp.
  - destruct (last_with p l); [eauto|]. rewrite Hp. eauto.
  - destruct (IH Hin Hp) as [b ->]. eauto.
Qed.

Lemma last_per_key_length (signals : list SkillSignal.t) :
  List.length (last_per_key normalize_skill signals)
  = List.length (set_of_list (map key_of signals)).
Proof.
  unfold last_per_key. fold key_of.
  assert (H : forall keys, (forall k, In k keys -> In k (map key_of signals)) ->
                List.length
                  (flat_map
                     (fun k => match last_with (fun s => String.eqb (key_of s) k) signals with
                               | Some s => [s]
                               | None => []
                               end) keys)
                = List.length keys).
  { induction keys as [|k keys IH]; intros Hk; simpl; [reflexivity|].
    rewrite length_app, IH by (intros; apply Hk; right; assumption).
    destruct (proj1 (in_map_iff _ _ _) (Hk k (or_introl eq_refl))) as (s & Hs & Hin).
    destruct (last_with_some (fun s => String.eqb (key_of s) k) signals s Hin) as [b ->].
    - rewrite Hs. apply String.eqb_refl.
    - reflexivity. }
  apply H. intros k Hk. exact (proj1 (set_of_list_In _ _) Hk).
Qed.

(** The report for an empty team. *)
Lemma compare_against_no_team (skill_profile : Profile.t) :
  compare_against_team normalize_skill skill_profile []
  = TeamReport.mk 0 0
      (sorted_str
         (map SkillSignal.name (last_per_key normalize_skill (get_signals skill_profile))))
      [].
Proof.
  unfold compare_against_team. simpl.
  set (signals := get_signals skill_profile).
  rewrite (set_of_list_NoDup_id (Dict.keys (as_skill_set normalize_skill signals)))
    by (unfold as_skill_set; apply dict_of_items_keys_NoDup).
  unfold set_diff. rewrite (filter_all _ (Dict.keys _)) by reflexivity.
  rewrite as_skill_set_keys. unfold last_per_key. fold key_of.
  f_equal. f_equal.
  induction (set_of_list (map key_of signals)) as [|k keys IH]; simpl; [reflexivity|].
  rewrite map_app, <- IH, as_skill_set_get.
  destruct (last_with _ signals); reflexivity.
Qed.

Lemma compare_against_no_team_distinct (skill_profile : Profile.t) :
  NoDup (map key_of (get_signals skill_profile)) ->
  compare_against_team normalize_skill skill_profile []
  = TeamReport.mk 0 0 (sorted_str (map SkillSignal.name (get_signals skill_profile))) [].
Proof.
  intros Hnd. unfold compare_against_team. simpl.
  rewrite (as_skill_set_NoDup normalize_skill _ Hnd).
  set (d := map (fun s => (normalize_skill (SkillSignal.name s), s)) (get_signals skill_profile)).
  assert (Hkeys : Dict.keys d = map key_of (get_signals skill_profile)).
  { unfold d, Dict.keys. rewrite map_map. reflexivity. }
  assert (Hd : NoDup (Dict.keys d)) by (rewrite Hkeys; exact Hnd).
  rewrite (set_of_list_NoDup_id _ Hd).
  unfold set_diff. rewrite (filter_all _ (Dict.keys d)) by reflexivity.
  rewrite (flat_map_get_keys SkillSignal.name d d Hd) by auto.
  unfold d. rewrite map_map. simpl. reflexivity.
Qed.

(** C9.  The comparison with an empty team returns, for every candidate
    profile, team size 0, team skill coverage 0 and no team gaps.  The
    unique strengths are the sorted display names of the signals that the
    skill mapping keeps: one per distinct normalized name, the last signal
    that carries it.  They are the sorted display names of all the
    candidate's signals when no two signals share a normalized name, as in
    every profile that the builder returns. *)
Theorem compare_against_empty_team (skill_profile : Profile.t) :
  let signals := get_signals skill_profile in
  let keys := map (fun s => normalize_skill (SkillSignal.name s)) signals in
  let report := compare_against_team normalize_skill skill_profile [] in
  TeamReport.team_size report = 0
  /\ TeamReport.team_skill_coverage report = 0
  /\ TeamReport.team_gaps report = []
  /\ TeamReport.unique_strengths report
     = sorted_str (map SkillSignal.name (last_per_key normalize_skill signals))
  /\ List.length (TeamReport.unique_strengths report) = List.length (set_of_list keys)
  /\ (forall n, In n (TeamReport.unique_strengths report) ->
                In n (map SkillSignal.name signals))
  /\ (NoDup keys ->
      TeamReport.unique_strengths report = sorted_str (map SkillSignal.name signals))
  /\ (forall COMMON_SKILLS sources,
        build_skill_profile normalize_skill COMMON_SKILLS sources = Return skill_profile ->
        report = TeamReport.mk 0 0 (sorted_str (map SkillSignal.name signals)) []).
Proof.
  intros signals keys report. unfold report.
  rewrite compare_against_no_team. fold signals.
  cbn [TeamReport.team_size TeamReport.team_skill_coverage TeamReport.team_gaps
       TeamReport.unique_strengths].
  split; [reflexivity|]. split; [reflexivity|]. split; [reflexivity|].
  split; [reflexivity|]. split; [|split; [|split]].
  - unfold sorted_str. rewrite sorted_by_length, length_map. apply last_per_key_length.
  - intros n Hn. unfold sorted_str in Hn. apply sorted_by_In in Hn.
    apply in_map_iff in Hn. destruct Hn as (s & <- & Hs). apply in_map.
    unfold last_per_key in Hs. apply in_flat_map in Hs. destruct Hs as (k & _ & Hs).
    destruct (last_with _ signals) as [b|] eqn:E; [|destruct Hs].
    destruct Hs as [<-|[]]. apply last_with_In in E. apply E.
  - intros Hnd.
    pose proof (compare_against_no_team_distinct skill_profile Hnd) as H.
    rewrite compare_against_no_team in H. injection H as H. exact H.
  - intros COMMON_SKILLS sources Hb.
    pose proof (compare_against_no_team_distinct skill_profile
                  (build_skill_profile_keys_NoDup normalize_skill COMMON_SKILLS sources
                     skill_profile Hb)) as H.
    rewrite compare_against_no_team in H. exact H.
Qed.

End EmptyTeam.

(** Two signals named python and one named sql: the unique strengths are
    python and sql, not the three names. *)
Lemma compare_against_empty_team_repeated_name :
  ~ exists normalize_skill : string -> string,
      forall skill_profile : Profile.t,
        compare_against_team normalize_skill skill_profile []
        = TeamReport.mk 0 0
            (sorted_str (map SkillSignal.name (get_signals skill_profile))) [].
Proof.
  intros [normalize_skill H]. specialize (H profile_repeated_name).
  rewrite compare_against_no_team in H. injection H as H.
  apply (f_equal (@List.length string)) in H.
  unfold sorted_str in H. rewrite !sorted_by_length, !length_map, last_per_key_length in H.
  unfold set_of_list, set_add, set_mem in H. simpl in H.
  rewrite String.eqb_refl in H. simpl in H.
  destruct (String.eqb (normalize_skill "sql") (normalize_skill "python"));
    simpl in H; discriminate.
Qed.

Lemma compare_against_empty_team_witness :
  compare_against_team normalize_skill_spec scenario_profile []
  = TeamReport.mk 0 0 ["docker"; "leadership"; "mentorship"; "python"] [].
Proof.
  rewrite (proj2 (proj2 (proj2 (proj2 (proj2 (proj2 (proj2
             (compare_against_empty_team normalize_skill_spec scenario_profile)))))))
             COMMON_SKILLS_spec [Some scenario_doc] scenario_profile_built).
  vm_compute. reflexivity.
Defined.

(** ** Order of the documents, skill by skill *)



Section MergeOrder.
Variable normalize_skill : string -> string.
Variable COMMON_SKILLS : list string.







Let events (sources : list SourceDocument.t) : list Event.t :=
  flat_map (events_of normalize_skill COMMON_SKILLS) sources.




End MergeOrder.


